(** * UK Business Lead Generator: the website analyzer and the text helpers

    A shallow embedding of [src/core/analyzer.py] (class [WebsiteAnalyzer]) and of
    the text helpers of [src/utils/helpers.py], with the properties of the
    analysis pipeline and of the helpers stated and proved over it.

    Conventions of the embedding.
    - Python [str] values are [string]s of 8-bit characters; [lower] and [upper]
      act on the ASCII letters and leave every other character alone.
    - The text helpers are read on ASCII text: [isspace], [split] and the
      classes [\s] and [\w] of the patterns are taken on the ASCII range.
    - The [results] dictionary of [analyze_website] has a fixed set of keys and is
      a record; the key ['priority'], which is only added at the end, is an
      [option].
    - The dictionary is one shared object that every stage mutates in place, and
      an exception leaves the mutations made so far: the stages are written in a
      state-and-exception monad whose state holds the dictionary and the files.
    - The collaborators (HTTP client, subprocesses, temporary-file facility,
      Python runtime formatting) are the fields of a record [World]; a theorem
      that quantifies over [World] holds for every behaviour of theirs.
    - [print] calls write to the console only and are left out. *)

From Stdlib Require Import ZArith QArith String Ascii List Floats Lia Bool DecimalString.
From stdpp Require Import gmap strings.
Import ListNotations.

Set Warnings "-register-all,-inexact-float".
Local Open Scope Z_scope.

(** ** Strings *)

Module Str.

(** [s.startswith(p)] *)
Fixpoint startswith (p s : string) : bool :=
  match p, s with
  | EmptyString, _ => true
  | String a p', String b s' => Ascii.eqb a b && startswith p' s'
  | String _ _, EmptyString => false
  end.

(** [needle in hay] on strings: some suffix of [hay] starts with [needle]. *)
Fixpoint contains (needle hay : string) : bool :=
  startswith needle hay ||
  match hay with
  | EmptyString => false
  | String _ t => contains needle t
  end.

(** [s[n:]] *)
Fixpoint drop (n : nat) (s : string) : string :=
  match n, s with
  | O, _ => s
  | S n', String _ t => drop n' t
  | S _, EmptyString => EmptyString
  end.

(** [s[:n]] *)
Fixpoint take (n : nat) (s : string) : string :=
  match n, s with
  | O, _ => EmptyString
  | S n', String c t => String c (take n' t)
  | S _, EmptyString => EmptyString
  end.

Definition is_upper (c : ascii) : bool :=
  let n := nat_of_ascii c in (65 <=? n)%nat && (n <=? 90)%nat.

Definition is_lower (c : ascii) : bool :=
  let n := nat_of_ascii c in (97 <=? n)%nat && (n <=? 122)%nat.

Definition is_digit (c : ascii) : bool :=
  let n := nat_of_ascii c in (48 <=? n)%nat && (n <=? 57)%nat.

Definition lower_char (c : ascii) : ascii :=
  if is_upper c then ascii_of_nat (nat_of_ascii c + 32) else c.

Definition upper_char (c : ascii) : ascii :=
  if is_lower c then ascii_of_nat (nat_of_ascii c - 32) else c.

Fixpoint map (f : ascii -> ascii) (s : string) : string :=
  match s with
  | EmptyString => EmptyString
  | String c t => String (f c) (map f t)
  end.

(** [s.lower()] and [s.upper()] *)
Definition lower : string -> string := map lower_char.
Definition upper : string -> string := map upper_char.

(** [s * n] *)
Fixpoint repeat (s : string) (n : nat) : string :=
  match n with
  | O => EmptyString
  | S n' => s +:+ repeat s n'
  end.

(** [sep.join(l)] is [String.concat sep l]. *)
Definition join (sep : string) (l : list string) : string := String.concat sep l.

(** The double quote character, and a string made of it. *)
Definition dquote_char : ascii := ascii_of_nat 34.
Definition dquote : string := String dquote_char EmptyString.

(** [str(n)] for an integer. *)
Definition of_Z (n : Z) : string := NilZero.string_of_int (Z.to_int n).

End Str.

(** ** Python values read from JSON, and exceptions *)

(** What [json.load] returns. A [JDict] lists the bindings of the dictionary;
    a lookup takes the first binding of the key. [JNull] is Python's [None]. *)
Inductive json : Type :=
| JNull
| JBool (b : bool)
| JInt (n : Z)
| JFloat (f : float)
| JStr (s : string)
| JList (l : list json)
| JDict (d : list (string * json)).

(** The exceptions that matter to the control flow: the handlers of the analyzer
    tell [requests.RequestException] and [subprocess.TimeoutExpired] from the
    rest. Every constructor is a subclass of [Exception]. *)
Inductive exn : Type :=
| RequestException (detail : string)
| TimeoutExpired
| KeyError (key : string)
| TypeError
| AttributeError
| ValueError
| OverflowError
| OSError (detail : string)
| OtherException (detail : string).

Inductive outcome (A : Type) : Type :=
| Return (a : A)
| Raise (e : exn).
Arguments Return {A} a.
Arguments Raise {A} e.

(** ** The result dictionary and the state of one analysis *)

Record AnalysisResult : Type := mkResult {
  performance_score : Z;
  seo_score : Z;
  accessibility_score : Z;
  best_practices_score : Z;
  has_ssl : bool;
  has_mobile_viewport : bool;
  issues : list string;
  priority : option Z
}.

(** The files that exist, each with its contents. *)
Abbreviation files_t := (gmap string string).

Record state : Type := mkState {
  files : files_t;
  results : AnalysisResult
}.

(** ** The state-and-exception monad *)

Definition M (A : Type) : Type := state -> outcome A * state.

Definition ret {A} (a : A) : M A := fun s => (Return a, s).

Definition raise {A} (e : exn) : M A := fun s => (Raise e, s).

Definition bind {A B} (m : M A) (k : A -> M B) : M B :=
  fun s =>
    match m s with
    | (Return a, s') => k a s'
    | (Raise e, s') => (Raise e, s')
    end.

(** [try: m  except ... as e: h e] *)
Definition try_except {A} (m : M A) (h : exn -> M A) : M A :=
  fun s =>
    match m s with
    | (Return a, s') => (Return a, s')
    | (Raise e, s') => h e s'
    end.

(** [try: m  finally: f]. The outcome of [m] stands unless [f] raises. *)
Definition try_finally {A} (m : M A) (f : M unit) : M A :=
  fun s =>
    match m s with
    | (o, s') =>
        match f s' with
        | (Return _, s'') => (o, s'')
        | (Raise e, s'') => (Raise e, s'')
        end
    end.

(** The outcome of a call that does not touch the state. *)
Definition lift {A} (o : outcome A) : M A := fun s => (o, s).

Declare Scope monad_scope.
Delimit Scope monad_scope with monad.
Notation "x <- m ;; k" := (bind m (fun x => k))
  (at level 100, m at next level, right associativity) : monad_scope.
Notation "m ;; k" := (bind m (fun _ => k))
  (at level 100, right associativity) : monad_scope.
Local Open Scope monad_scope.

Definition get_results : M AnalysisResult := fun s => (Return (results s), s).

Definition modify_results (f : AnalysisResult -> AnalysisResult) : M unit :=
  fun s => (Return tt, mkState (files s) (f (results s))).

(** Assignments to the keys of [results]. *)
Definition set_performance_score (n : Z) : M unit :=
  modify_results (fun r => mkResult n (seo_score r) (accessibility_score r)
    (best_practices_score r) (has_ssl r) (has_mobile_viewport r) (issues r) (priority r)).

Definition set_seo_score (n : Z) : M unit :=
  modify_results (fun r => mkResult (performance_score r) n (accessibility_score r)
    (best_practices_score r) (has_ssl r) (has_mobile_viewport r) (issues r) (priority r)).

Definition set_accessibility_score (n : Z) : M unit :=
  modify_results (fun r => mkResult (performance_score r) (seo_score r) n
    (best_practices_score r) (has_ssl r) (has_mobile_viewport r) (issues r) (priority r)).

Definition set_best_practices_score (n : Z) : M unit :=
  modify_results (fun r => mkResult (performance_score r) (seo_score r) (accessibility_score r)
    n (has_ssl r) (has_mobile_viewport r) (issues r) (priority r)).

Definition set_has_ssl (b : bool) : M unit :=
  modify_results (fun r => mkResult (performance_score r) (seo_score r) (accessibility_score r)
    (best_practices_score r) b (has_mobile_viewport r) (issues r) (priority r)).

Definition set_has_mobile_viewport (b : bool) : M unit :=
  modify_results (fun r => mkResult (performance_score r) (seo_score r) (accessibility_score r)
    (best_practices_score r) (has_ssl r) b (issues r) (priority r)).

Definition set_priority (p : Z) : M unit :=
  modify_results (fun r => mkResult (performance_score r) (seo_score r) (accessibility_score r)
    (best_practices_score r) (has_ssl r) (has_mobile_viewport r) (issues r) (Some p)).

(** [results['issues'].append(msg)] *)
Definition append_issue (msg : string) : M unit :=
  modify_results (fun r => mkResult (performance_score r) (seo_score r) (accessibility_score r)
    (best_practices_score r) (has_ssl r) (has_mobile_viewport r) (issues r ++ [msg]) (priority r)).

(** ** Python operations on the values read from JSON *)

Module Py.

Fixpoint lookup (key : string) (d : list (string * json)) : option json :=
  match d with
  | [] => None
  | (k, v) :: d' => if String.eqb k key then Some v else lookup key d'
  end.

(** [bool(v)] *)
Definition truthy (v : json) : bool :=
  match v with
  | JNull => false
  | JBool b => b
  | JInt n => negb (n =? 0)
  | JFloat f => negb (PrimFloat.eqb f 0%float)
  | JStr s => negb (String.eqb s "")
  | JList l => match l with [] => false | _ => true end
  | JDict d => match d with [] => false | _ => true end
  end.

(** [v.get(key, default)]: only dictionaries have the method. *)
Definition get (v : json) (key : string) (default : json) : outcome json :=
  match v with
  | JDict d => Return (match lookup key d with Some x => x | None => default end)
  | _ => Raise AttributeError
  end.

(** [key in v] for a string [key]: key membership in a dictionary, element
    membership in a list, substring test in a string. *)
Definition contains (key : string) (v : json) : outcome bool :=
  match v with
  | JDict d => Return (match lookup key d with Some _ => true | None => false end)
  | JList l =>
      Return (existsb (fun x => match x with JStr s => String.eqb s key | _ => false end) l)
  | JStr s => Return (Str.contains key s)
  | _ => Raise TypeError
  end.

(** [v[key]] for a string [key] *)
Definition getitem (v : json) (key : string) : outcome json :=
  match v with
  | JDict d => match lookup key d with Some x => Return x | None => Raise (KeyError key) end
  | _ => Raise TypeError
  end.

Fixpoint repeat_list {A} (l : list A) (n : nat) : list A :=
  match n with
  | O => []
  | S n' => l ++ repeat_list l n'
  end.

(** [v * 100] *)
Definition mul100 (v : json) : outcome json :=
  match v with
  | JInt n => Return (JInt (n * 100))
  | JBool b => Return (JInt ((if b then 1 else 0) * 100))
  | JFloat f => Return (JFloat (f * 100)%float)
  | JStr s => Return (JStr (Str.repeat s 100))
  | JList l => Return (JList (repeat_list l 100))
  | JNull | JDict _ => Raise TypeError
  end.

(** [int(f)] for a float: the value with its fraction dropped; [nan] is a
    [ValueError] and an infinity an [OverflowError]. *)
Definition int_of_float (f : float) : outcome Z :=
  match Prim2SF f with
  | S754_zero _ => Return 0
  | S754_infinity _ => Raise OverflowError
  | S754_nan => Raise ValueError
  | S754_finite sign m e =>
      let a := if 0 <=? e then Z.shiftl (Zpos m) e else Z.shiftr (Zpos m) (- e) in
      Return (if sign then - a else a)
  end.

(** [round(f)] for a float: to the nearest integer, a tie to the even one.
    The analyzer does not call it; the specification speaks of it. *)
Definition round_of_float (f : float) : outcome Z :=
  match Prim2SF f with
  | S754_zero _ => Return 0
  | S754_infinity _ => Raise OverflowError
  | S754_nan => Raise ValueError
  | S754_finite sign m e =>
      let a :=
        if 0 <=? e then Z.shiftl (Zpos m) e
        else
          let q := Z.shiftr (Zpos m) (- e) in
          let twice_rest := 2 * (Zpos m - Z.shiftl q (- e)) in
          let unit := Z.shiftl 1 (- e) in
          if twice_rest <? unit then q
          else if unit <? twice_rest then q + 1
          else if Z.even q then q else q + 1 in
      Return (if sign then - a else a)
  end.

(** [v < 0.5] *)
Definition lt_half (v : json) : outcome bool :=
  match v with
  | JInt n => Return (n <=? 0)
  | JBool b => Return (negb b)
  | JFloat f => Return (PrimFloat.ltb f 0.5%float)
  | _ => Raise TypeError
  end.

(** [a / b] on integers: the exact quotient stands for the float nearest to
    it (comparing it with an integer gives the same answer); the division raises
    when that float would be infinite, that is from [2^1024 - 2^970] on. *)
Definition true_div (a b : Z) : outcome Q :=
  if b =? 0 then Raise (OtherException "division by zero")
  else if Z.abs b * (2 ^ 1024 - 2 ^ 970) <=? Z.abs a then Raise OverflowError
  else Return (inject_Z a / inject_Z b)%Q.

Definition Qltb (x y : Q) : bool := negb (Qle_bool y x).

End Py.

(** ** The collaborators *)

(** A [requests.Response] *)
Record response : Type := mkResponse {
  status_code : Z;
  final_url : string;       (* response.url *)
  text : string;            (* response.text *)
  content : string;         (* response.content, the body's bytes *)
  headers : list string     (* the names of response.headers *)
}.

(** What a call does to the files, with its outcome. *)
Abbreviation effect A := (files_t -> outcome A * files_t).

(** The world around one [analyze_website] call. Each network call site is
    reached at most once in a call and has its own field, so the three requests
    of one analysis are independent of one another. *)
Record World : Type := mkWorld {
  (* requests *)
  head_https : string -> outcome response;    (* requests.head in _check_website_basics *)
  get_basics : string -> outcome response;    (* requests.get in _check_website_basics *)
  get_fallback : string -> outcome response;  (* requests.get in _perform_basic_analysis *)
  (* urllib.parse *)
  urlparse_netloc : string -> outcome string; (* urlparse(u).netloc *)
  (* the Python runtime *)
  str_exc : exn -> string;                    (* str(e) *)
  str_value : json -> string;                 (* a value formatted in an f-string *)
  format_1f : Q -> string;                    (* a number formatted with .1f *)
  int_of_str : string -> outcome Z;           (* int(s) for a string *)
  json_load : string -> outcome json;         (* json.load on a file's contents *)
  (* os *)
  environ : string -> option string;          (* os.environ.get *)
  path_join : string -> string -> string;     (* os.path.join *)
  (* tempfile *)
  mkstemp : string -> files_t -> outcome string;  (* the path of the new file *)
  mkdtemp : effect string;
  (* subprocess *)
  popen : list string -> effect unit;             (* subprocess.Popen *)
  subprocess_run : list string -> effect Z;       (* subprocess.run, the return code *)
  terminate : effect unit                         (* chrome_process.terminate *)
}.

Record WebsiteAnalyzer : Type := mkAnalyzer {
  use_lighthouse : bool;
  lighthouse_available : bool
}.

(** [h in response.headers]: the headers of [requests] compare their names
    without regard to case. *)
Definition header_in (h : string) (hs : list string) : bool :=
  existsb (fun k => String.eqb (Str.lower k) (Str.lower h)) hs.

Definition int_of (w : World) (v : json) : outcome Z :=
  match v with
  | JInt n => Return n
  | JBool b => Return (if b then 1 else 0)
  | JFloat f => Py.int_of_float f
  | JStr s => int_of_str w s
  | _ => Raise TypeError
  end.

(** ** The analyzer *)

Section Analyzer.

Context (w : World).

(** A call that reads or changes the files. *)
Definition run_effect {A} (f : effect A) : M A :=
  fun s => match f (files s) with (o, fs') => (o, mkState fs' (results s)) end.

(** [os.path.exists(path)] *)
Definition path_exists (path : string) : M bool :=
  fun s => (Return (match files s !! path with Some _ => true | None => false end), s).

(** [os.path.getsize(path)] *)
Definition getsize (path : string) : M Z :=
  fun s =>
    match files s !! path with
    | Some c => (Return (Z.of_nat (String.length c)), s)
    | None => (Raise (OSError path), s)
    end.

(** [open(path, 'r')] followed by reading the whole file *)
Definition read_file (path : string) : M string :=
  fun s =>
    match files s !! path with
    | Some c => (Return c, s)
    | None => (Raise (OSError path), s)
    end.

(** [os.unlink(path)] *)
Definition unlink (path : string) : M unit :=
  fun s =>
    match files s !! path with
    | Some _ => (Return tt, mkState (delete path (files s)) (results s))
    | None => (Raise (OSError path), s)
    end.

(** [tempfile.mkstemp(suffix=...)] followed by [os.close(fd)]: a new, empty
    file, whose path the world chooses. *)
Definition new_temp_file (suffix : string) : M string :=
  fun s =>
    match mkstemp w suffix (files s) with
    | Return path => (Return path, mkState (<[path := ""]> (files s)) (results s))
    | Raise e => (Raise e, s)
    end.

Definition environ_get (name default : string) : string :=
  match environ w name with Some v => v | None => default end.

Definition chrome_paths : list string :=
  [ (* Windows *)
    path_join w (environ_get "PROGRAMFILES" "C:\Program Files")
      "Google\Chrome\Application\chrome.exe";
    path_join w (environ_get "PROGRAMFILES(X86)" "C:\Program Files (x86)")
      "Google\Chrome\Application\chrome.exe";
    (* macOS *)
    "/Applications/Google Chrome.app/Contents/MacOS/Google Chrome";
    (* Linux *)
    "/usr/bin/google-chrome";
    "/usr/bin/chrome";
    "/usr/bin/chromium";
    "/usr/bin/chromium-browser" ].

(** The loop over [chrome_paths]: the first path that exists. *)
Definition find_chrome : M (option string) :=
  fun s =>
    (Return (find (fun p => match files s !! p with Some _ => true | None => false end)
               chrome_paths), s).

Definition _check_lighthouse : M bool :=
  try_except
    (chrome_path <- find_chrome ;;
     match chrome_path with
     | Some _ => ret true
     | None =>
         returncode <- run_effect (subprocess_run w ["lighthouse"; "--version"]) ;;
         ret (returncode =? 0)
     end)
    (fun _ => ret false).

(** [WebsiteAnalyzer.__init__] *)
Definition WebsiteAnalyzer_init (use_lighthouse : bool) : M WebsiteAnalyzer :=
  available <- (if use_lighthouse then _check_lighthouse else ret false) ;;
  ret (mkAnalyzer use_lighthouse available).

Definition _check_website_basics (url : string) : M unit :=
  try_except
    ((* Check for SSL (https) *)
     set_has_ssl (Str.startswith "https://" url) ;;
     results <- get_results ;;
     (if negb (has_ssl results) then
        append_issue "Website does not use SSL (https)" ;;
        (* Try checking if HTTPS is available *)
        let https_url :=
          if Str.startswith "http://" url then "https://" +:+ Str.drop 7 url
          else "https://" +:+ url in
        try_except
          (response <- lift (head_https w https_url) ;;
           if status_code response <? 400
           then append_issue "HTTPS is available but not used by default"
           else ret tt)
          (fun _ => ret tt)
      else ret tt) ;;
     (* Try to get the webpage *)
     response <- lift (get_basics w url) ;;
     (* Check for success *)
     if 400 <=? status_code response then
       append_issue ("Website returns HTTP status " +:+ Str.of_Z (status_code response))
     else
       (* Check for redirect to another domain *)
       final_netloc <- lift (urlparse_netloc w (final_url response)) ;;
       url_netloc <- lift (urlparse_netloc w url) ;;
       (if negb (String.eqb final_netloc url_netloc)
        then append_issue ("Website redirects to " +:+ final_url response)
        else ret tt) ;;
       (* Check for mobile viewport meta tag *)
       (if Str.contains "viewport" (Str.lower (text response))
        then set_has_mobile_viewport true
        else append_issue "No mobile viewport meta tag found") ;;
       (* Check page size *)
       page_size_kb <- lift (Py.true_div (Z.of_nat (String.length (content response))) 1024) ;;
       if Py.Qltb 5000 page_size_kb
       then append_issue ("Page size is large (" +:+ format_1f w page_size_kb +:+ " KB)")
       else ret tt)
    (fun e =>
       match e with
       | RequestException _ => append_issue ("Error accessing website: " +:+ str_exc w e)
       | _ => append_issue ("Error during basic analysis: " +:+ str_exc w e)
       end).

(** [_run_lighthouse] returns the parsed report or [None], here [JNull].
    [time.sleep(5)] between starting Chrome and running the tool changes
    nothing that the analysis reads and is left out. *)
Definition _run_lighthouse (url : string) : M json :=
  (* Create a temporary file for the output *)
  output_path <- new_temp_file ".json" ;;
  try_finally
    (try_except
       (chrome_path <- find_chrome ;;
        match chrome_path with
        | Some chrome_path =>
            (* Use Chrome with DevTools Protocol *)
            user_data_dir <- run_effect (mkdtemp w) ;;
            let lighthouse_command :=
              [ chrome_path; "--headless"; "--disable-gpu"; "--remote-debugging-port=9222";
                "--enable-automation"; "--no-sandbox";
                "--user-data-dir=" +:+ user_data_dir;
                "--dump-dom=" +:+ url; "--run-lighthouse" ] in
            try_except
              ((* Start Chrome, then run Lighthouse via npx *)
               run_effect (popen w lighthouse_command) ;;
               let lighthouse_npx_command :=
                 [ "npx"; "lighthouse"; url; "--output=json";
                   "--output-path=" +:+ output_path;
                   "--chrome-flags=--headless";
                   "--only-categories=performance,accessibility,best-practices,seo" ] in
               run_effect (subprocess_run w lighthouse_npx_command) ;;
               (* Kill the Chrome process *)
               try_except (run_effect (terminate w)) (fun _ => ret tt))
              (fun _ => ret tt)
        | None => ret tt
        end ;;
        (* Without Chrome, or when the Chrome approach failed: standalone Lighthouse *)
        present <- path_exists output_path ;;
        missing_or_empty <-
          (if negb present then ret true
           else size <- getsize output_path ;; ret (size =? 0)) ;;
        (if missing_or_empty then
           let lighthouse_command :=
             [ "lighthouse"; url; "--chrome-flags=--headless --no-sandbox --disable-gpu";
               "--output=json"; "--output-path=" +:+ output_path;
               "--only-categories=performance,accessibility,best-practices,seo";
               "--quiet" ] in
           run_effect (subprocess_run w lighthouse_command) ;; ret tt
         else ret tt) ;;
        (* Check if the output file exists and has content *)
        present <- path_exists output_path ;;
        has_content <-
          (if present then size <- getsize output_path ;; ret (0 <? size)
           else ret false) ;;
        if has_content then
          (* Read and parse the JSON output *)
          f <- read_file output_path ;;
          lighthouse_data <- lift (json_load w f) ;;
          ret lighthouse_data
        else ret JNull)
       (fun e =>
          match e with
          | TimeoutExpired => ret JNull
          | _ => ret JNull
          end))
    ((* Clean up the temporary file *)
     present <- path_exists output_path ;;
     if present then unlink output_path else ret tt).

(** One category of [_process_lighthouse_results]:
    [if name in categories: results[field] = int(categories[name]['score'] * 100)] *)
Definition category_score (categories : json) (name : string) (set_field : Z -> M unit)
  : M unit :=
  present <- lift (Py.contains name categories) ;;
  if present then
    category <- lift (Py.getitem categories name) ;;
    score <- lift (Py.getitem category "score") ;;
    percent <- lift (Py.mul100 score) ;;
    n <- lift (int_of w percent) ;;
    set_field n
  else ret tt.

(** One audit of [_process_lighthouse_results]:
    [if name in audits: if audits[name].get('score', 1) < 0.5: results['issues'].append(...)].
    The messages of the three timing audits quote [audit.get('displayValue')];
    the lookup is written once here for all nine, and cannot raise, since the
    audit has answered [get('score', 1)] and so is a dictionary. *)
Definition audit_issue (audits : json) (name : string) (message : json -> string) : M unit :=
  present <- lift (Py.contains name audits) ;;
  if present then
    audit <- lift (Py.getitem audits name) ;;
    score <- lift (Py.get audit "score" (JInt 1)) ;;
    low <- lift (Py.lt_half score) ;;
    if low then
      display_value <- lift (Py.get audit "displayValue" JNull) ;;
      append_issue (message display_value)
    else ret tt
  else ret tt.

Definition _process_lighthouse_results (lighthouse_data : json) : M unit :=
  try_except
    ((* Extract category scores *)
     categories <- lift (Py.get lighthouse_data "categories" (JDict [])) ;;
     category_score categories "performance" set_performance_score ;;
     category_score categories "accessibility" set_accessibility_score ;;
     category_score categories "best-practices" set_best_practices_score ;;
     category_score categories "seo" set_seo_score ;;
     (* Extract important audits and issues *)
     audits <- lift (Py.get lighthouse_data "audits" (JDict [])) ;;
     (* Performance issues *)
     audit_issue audits "largest-contentful-paint"
       (fun v => "Slow content loading (LCP: " +:+ str_value w v +:+ ")") ;;
     audit_issue audits "total-blocking-time"
       (fun v => "Poor interactivity (TBT: " +:+ str_value w v +:+ ")") ;;
     audit_issue audits "cumulative-layout-shift"
       (fun v => "Layout shifts during loading (CLS: " +:+ str_value w v +:+ ")") ;;
     (* SEO issues *)
     audit_issue audits "meta-description" (fun _ => "Missing meta description") ;;
     audit_issue audits "document-title" (fun _ => "Missing or poor document title") ;;
     (* Accessibility issues *)
     audit_issue audits "color-contrast" (fun _ => "Poor color contrast for text") ;;
     audit_issue audits "image-alt" (fun _ => "Images missing alt text") ;;
     (* Best Practices issues *)
     audit_issue audits "is-on-https" (fun _ => "Not using HTTPS") ;;
     audit_issue audits "doctype" (fun _ => "Missing doctype"))
    (fun e => append_issue ("Error processing Lighthouse results: " +:+ str_exc w e)).

Definition security_headers : list string :=
  [ "Strict-Transport-Security"; "Content-Security-Policy"; "X-Content-Type-Options" ].

Definition _perform_basic_analysis (url : string) : M unit :=
  try_except
    ((* Get the webpage *)
     response <- lift (get_fallback w url) ;;
     let html := Str.lower (text response) in
     let headers := headers response in
     (* Performance checks *)
     (if 1000000 <? Z.of_nat (String.length (content response)) then
        append_issue "Large page size" ;;
        set_performance_score 50
      else set_performance_score 70) ;;
     (* SEO checks *)
     set_seo_score 60 ;;
     (* Check for title *)
     (if negb (Str.contains "<title>" html) || Str.contains "<title></title>" html then
        append_issue "Missing page title" ;;
        set_seo_score 40
      else ret tt) ;;
     (* Check for meta description *)
     (if negb (Str.contains ("meta name=" +:+ Str.dquote +:+ "description" +:+ Str.dquote) html)
         && negb (Str.contains "meta content=" html) then
        append_issue "Missing meta description" ;;
        set_seo_score 40
      else ret tt) ;;
     (* Accessibility checks *)
     set_accessibility_score 50 ;;
     (* Check for alt text on images *)
     (if Str.contains "<img " html
         && (negb (Str.contains (" alt=" +:+ Str.dquote) html)
             || negb (Str.contains " alt=" html)) then
        append_issue "Images may be missing alt text" ;;
        set_accessibility_score 40
      else ret tt) ;;
     (* Best practices checks *)
     set_best_practices_score 60 ;;
     (* Check for basic security headers *)
     let missing_headers := filter (fun h => negb (header_in h headers)) security_headers in
     match missing_headers with
     | _ :: _ =>
         append_issue ("Missing security headers: " +:+ Str.join ", " missing_headers) ;;
         set_best_practices_score 40
     | [] => ret tt
     end)
    (fun e => append_issue ("Error during basic analysis: " +:+ str_exc w e)).

Definition _calculate_priority (results : AnalysisResult) : outcome Z :=
  if Str.contains "Error accessing website" (Str.join " " (issues results)) then Return 1
  else
    let scores :=
      [ performance_score results; seo_score results;
        accessibility_score results; best_practices_score results ] in
    match Py.true_div (fold_right Z.add 0 scores) (Z.of_nat (length scores)) with
    | Raise e => Raise e
    | Return avg_score =>
        (* Poor website (priority 2) *)
        if Py.Qltb avg_score 60 || (3 <? Z.of_nat (length (issues results))) then Return 2
        (* Good website (priority 3) *)
        else Return 3
    end.

Definition initial_results : AnalysisResult :=
  mkResult 0 0 0 0 false false [] None.

Definition analyze_website (self : WebsiteAnalyzer) (url : string) : M AnalysisResult :=
  (* Initialize results with default values *)
  modify_results (fun _ => initial_results) ;;
  (* Basic validation *)
  if String.eqb url "" then
    append_issue "No URL provided" ;;
    get_results
  else
    (* Ensure URL has scheme *)
    let url :=
      if negb (Str.startswith "http://" url || Str.startswith "https://" url)
      then "https://" +:+ url else url in
    (* First do some basic checks *)
    _check_website_basics url ;;
    (* If Lighthouse is available, run it *)
    (if lighthouse_available self then
       lighthouse_results <- _run_lighthouse url ;;
       if Py.truthy lighthouse_results
       then _process_lighthouse_results lighthouse_results
       else ret tt
     else
       append_issue "Lighthouse not available for detailed analysis" ;;
       (* Perform basic web checks as fallback *)
       _perform_basic_analysis url) ;;
    (* Set the priority based on results *)
    results <- get_results ;;
    p <- lift (_calculate_priority results) ;;
    set_priority p ;;
    get_results.

End Analyzer.

(** ** Regular expressions, as far as [extract_postcode] uses them *)

Module Regex.

Inductive re : Type :=
| Class (p : ascii -> bool)          (* one character of a class *)
| Seq (r1 r2 : re)                   (* r1 r2 *)
| Rep (r : re) (lo hi : nat).        (* r{lo,hi}, greedy; r? is r{0,1} *)

(** A greedy repetition, given the matcher of its body: as many rounds as
    possible first, then fewer. *)
Fixpoint rep (step : string -> list string) (lo hi : nat) (s : string) : list string :=
  match hi with
  | O => match lo with O => [s] | S _ => [] end
  | S hi' =>
      flat_map (rep step (Nat.pred lo) hi') (step s)
      ++ match lo with O => [s] | S _ => [] end
  end.

(** The backtracking matcher: what is left of [s] after a match of [r] at its
    start, one entry per way to match, in the order the engine tries them. *)
Fixpoint match_re (r : re) (s : string) : list string :=
  match r with
  | Class p =>
      match s with
      | String c t => if p c then [t] else []
      | EmptyString => []
      end
  | Seq r1 r2 => flat_map (match_re r2) (match_re r1 s)
  | Rep r lo hi => rep (match_re r) lo hi s
  end.

(** [re.search(r, s)]: the match at the leftmost position that has one, and
    there the first in the engine's order; [group(0)] of it. *)
Fixpoint search (r : re) (s : string) : option string :=
  match match_re r s with
  | rest :: _ => Some (Str.take (String.length s - String.length rest) s)
  | [] =>
      match s with
      | String _ t => search r t
      | EmptyString => None
      end
  end.

(** The strings a pattern denotes. *)
Inductive matches : re -> string -> Prop :=
| matches_class p c : p c = true -> matches (Class p) (String c EmptyString)
| matches_seq r1 r2 s1 s2 :
    matches r1 s1 -> matches r2 s2 -> matches (Seq r1 r2) (s1 +:+ s2)
| matches_rep_stop r hi : matches (Rep r 0 hi) EmptyString
| matches_rep_more r lo hi s1 s2 :
    matches r s1 -> matches (Rep r (Nat.pred lo) hi) s2 ->
    matches (Rep r lo (S hi)) (s1 +:+ s2).

(** Some substring of [s] is denoted by [r]. *)
Definition occurs (r : re) (s : string) : Prop :=
  exists before m after, s = before +:+ m +:+ after /\ matches r m.

End Regex.

(** ** [extract_postcode] of [utils/helpers.py] *)

Definition upper_or_digit (c : ascii) : bool := Str.is_upper c || Str.is_digit c.
Definition is_space (c : ascii) : bool := Ascii.eqb c " ".

(** [[A-Z]{1,2}[0-9][A-Z0-9]? ?[0-9][A-Z]{2}] *)
Definition uk_postcode : Regex.re :=
  Regex.Seq (Regex.Rep (Regex.Class Str.is_upper) 1 2)
 (Regex.Seq (Regex.Class Str.is_digit)
 (Regex.Seq (Regex.Rep (Regex.Class upper_or_digit) 0 1)
 (Regex.Seq (Regex.Rep (Regex.Class is_space) 0 1)
 (Regex.Seq (Regex.Class Str.is_digit)
            (Regex.Rep (Regex.Class Str.is_upper) 2 2))))).

Definition extract_postcode (text : string) : option string :=
  if String.eqb text "" then None
  else
    match Regex.search uk_postcode (Str.upper text) with
    | Some postcode =>
        (* Format postcode with proper spacing *)
        if negb (Str.contains " " postcode) then
          let inward := Str.drop (String.length postcode - 3) postcode in
          let outward := Str.take (String.length postcode - 3) postcode in
          Some (outward +:+ " " +:+ inward)
        else Some postcode
    | None => None
    end.


(** ** [validate_uk_location] *)

(** [c.isspace()], which is also the class [\s], on the ASCII range: tab to
    carriage return, the four separators 28 to 31, and the space. *)
Definition is_whitespace (c : ascii) : bool :=
  let n := nat_of_ascii c in
  ((9 <=? n)%nat && (n <=? 13)%nat) || ((28 <=? n)%nat && (n <=? 31)%nat) || (n =? 32)%nat.

(** [s.lstrip()], [s.rstrip()] and [s.strip()] *)
Fixpoint lstrip (s : string) : string :=
  match s with
  | EmptyString => EmptyString
  | String c t => if is_whitespace c then lstrip t else s
  end.

Fixpoint rstrip (s : string) : string :=
  match s with
  | EmptyString => EmptyString
  | String c t =>
      match rstrip t with
      | EmptyString => if is_whitespace c then EmptyString else String c EmptyString
      | t' => String c t'
      end
  end.

Definition strip (s : string) : string := rstrip (lstrip s).

Definition newline : string := String (ascii_of_nat 10) EmptyString.

(** [$] (without MULTILINE) holds at the end of the text and just before a
    newline that ends the text. *)
Definition at_end (rest : string) : bool :=
  String.eqb rest EmptyString || String.eqb rest newline.

(** [re.match('^...$', s)] finds a match: some way to match the pattern at the
    start of [s] ends where [$] holds. *)
Definition match_anchored (r : Regex.re) (s : string) : bool :=
  existsb at_end (Regex.match_re r s).

(** [[a-zA-Z\s\-\']] *)
Definition name_char (c : ascii) : bool :=
  Str.is_lower c || Str.is_upper c || is_whitespace c || Ascii.eqb c "-" || Ascii.eqb c "'".

(** [[a-zA-Z\s\-\']+] on a text of [n] characters: a greedy [+] takes at most
    as many rounds as the text has characters. *)
Definition name_pattern (n : nat) : Regex.re := Regex.Rep (Regex.Class name_char) 1 n.

Definition major_uk_locations : list string :=
  [ "london"; "manchester"; "birmingham"; "liverpool"; "leeds";
    "glasgow"; "edinburgh"; "cardiff"; "belfast"; "bristol";
    "newcastle"; "sheffield"; "nottingham"; "leicester"; "coventry";
    "bradford"; "brighton"; "southampton"; "plymouth"; "reading";
    "derby"; "wolverhampton"; "hull"; "portsmouth"; "oxford";
    "cambridge"; "york"; "swansea"; "dundee"; "aberdeen" ].

Definition validate_uk_location (location : string) : bool :=
  (* Empty check *)
  if String.eqb location EmptyString || String.eqb (strip location) EmptyString then false
  (* If it's a UK postcode format *)
  else if match_anchored uk_postcode (Str.upper location) then true
  (* If it's a major UK city or town *)
  else if existsb (String.eqb (Str.lower location)) major_uk_locations then true
  (* If it's at least a reasonable length and contains only valid characters *)
  else if (3 <=? String.length location)%nat
          && match_anchored (name_pattern (String.length location)) location then true
  else false.

(** ** [format_business_type] of [utils/helpers.py] *)

(** Whether the text begins inside a word. *)
Definition starts_word (s : string) : bool :=
  match s with
  | String c _ => negb (is_whitespace c)
  | EmptyString => false
  end.

(** [s.split()]: the maximal runs of characters that are not whitespace. *)
Fixpoint split (s : string) : list string :=
  match s with
  | EmptyString => []
  | String c t =>
      if is_whitespace c then split t
      else if starts_word t then
        match split t with
        | w :: ws => String c w :: ws
        | [] => [String c EmptyString]
        end
      else String c EmptyString :: split t
  end.

(** [s.capitalize()] *)
Definition capitalize (s : string) : string :=
  match s with
  | EmptyString => EmptyString
  | String c t => String (Str.upper_char c) (Str.lower t)
  end.

Definition common_words : list string := ["in"; "and"; "the"; "a"; "an"; "of"; "for"].

Definition is_common (w : string) : bool := existsb (String.eqb (Str.lower w)) common_words.

Definition format_business_type (business_type : string) : string :=
  if String.eqb business_type EmptyString then "Business"
  else
    (* Remove common words like "in", "and", etc. *)
    let words := split business_type in
    let filtered_words := List.filter (fun w => negb (is_common w)) words in
    match filtered_words with
    | [] => "Business"
    | _ => Str.join " " (List.map capitalize filtered_words)   (* Title case each word *)
    end.


(** ** Regular expressions with alternation and assertions, as
       [extract_email] and [extract_phone_number] use them *)

Module Rx.

(** Where the engine stands: the character before, if there is one, and what
    is left of the text. *)
Definition position : Type := option ascii * string.

Inductive rx : Type :=
| Chr (p : ascii -> bool)            (* one character of a class *)
| Cat (r1 r2 : rx)                   (* r1 r2 *)
| Alt (r1 r2 : rx)                   (* r1|r2, the left one first *)
| Rpt (r : rx) (lo hi : nat)         (* r{lo,hi}, greedy *)
| Bol                                (* ^ *)
| Wordb.                             (* \b *)

(** [\w] on the ASCII range. *)
Definition is_word_char (c : ascii) : bool :=
  Str.is_lower c || Str.is_upper c || Str.is_digit c || Ascii.eqb c "_".

Definition word_before (pos : position) : bool :=
  match fst pos with
  | Some c => is_word_char c
  | None => false
  end.

Definition word_after (pos : position) : bool :=
  match snd pos with
  | String c _ => is_word_char c
  | EmptyString => false
  end.

Fixpoint repeat_from (step : position -> list position) (lo hi : nat) (pos : position)
  : list position :=
  match hi with
  | O => match lo with O => [pos] | S _ => [] end
  | S hi' =>
      flat_map (repeat_from step (Nat.pred lo) hi') (step pos)
      ++ match lo with O => [pos] | S _ => [] end
  end.

(** The backtracking matcher: the positions after a match of [r] that starts
    at [pos], one entry per way to match, in the order the engine tries them. *)
Fixpoint run (r : rx) (pos : position) : list position :=
  match r with
  | Chr p =>
      match snd pos with
      | String c t => if p c then [(Some c, t)] else []
      | EmptyString => []
      end
  | Cat r1 r2 => flat_map (run r2) (run r1 pos)
  | Alt r1 r2 => run r1 pos ++ run r2 pos
  | Rpt r lo hi => repeat_from (run r) lo hi pos
  | Bol => match fst pos with None => [pos] | Some _ => [] end
  | Wordb => if xorb (word_before pos) (word_after pos) then [pos] else []
  end.

(** [re.search(r, text).group(0)], the scan being at [s] after [prev]. *)
Fixpoint find_from (r : rx) (prev : option ascii) (s : string) : option string :=
  match run r (prev, s) with
  | (_, rest) :: _ => Some (Str.take (String.length s - String.length rest) s)
  | [] =>
      match s with
      | String c t => find_from r (Some c) t
      | EmptyString => None
      end
  end.

Definition find (r : rx) (text : string) : option string := find_from r None text.

(** The strings a pattern can match in some context: an assertion takes
    nothing from the text. *)
Inductive denotes : rx -> string -> Prop :=
| denotes_chr p c : p c = true -> denotes (Chr p) (String c EmptyString)
| denotes_cat r1 r2 s1 s2 :
    denotes r1 s1 -> denotes r2 s2 -> denotes (Cat r1 r2) (s1 +:+ s2)
| denotes_alt_l r1 r2 s : denotes r1 s -> denotes (Alt r1 r2) s
| denotes_alt_r r1 r2 s : denotes r2 s -> denotes (Alt r1 r2) s
| denotes_rpt_stop r hi : denotes (Rpt r 0 hi) EmptyString
| denotes_rpt_more r lo hi s1 s2 :
    denotes r s1 -> denotes (Rpt r (Nat.pred lo) hi) s2 ->
    denotes (Rpt r lo (S hi)) (s1 +:+ s2)
| denotes_bol : denotes Bol EmptyString
| denotes_wordb : denotes Wordb EmptyString.

(** A pattern without assertions matches the same strings in every context. *)
Fixpoint plain (r : rx) : bool :=
  match r with
  | Chr _ => true
  | Cat r1 r2 | Alt r1 r2 => plain r1 && plain r2
  | Rpt r _ _ => plain r
  | Bol | Wordb => false
  end.

(** Abbreviations of the pattern syntax. *)
Definition lit (c : ascii) : rx := Chr (Ascii.eqb c).
Definition digit : rx := Chr Str.is_digit.                 (* [0-9] *)
Definition space : rx := Chr is_whitespace.                (* \s *)
Definition opt (r : rx) : rx := Rpt r 0 1.                 (* r? *)
Definition times (r : rx) (n : nat) : rx := Rpt r n n.     (* r{n} *)

Fixpoint cat (rs : list rx) (last : rx) : rx :=
  match rs with
  | [] => last
  | r :: rs' => Cat r (cat rs' last)
  end.

End Rx.

(** ** [extract_phone_number] of [utils/helpers.py] *)

(** The first three patterns differ in the sizes of the groups of digits:
    [(?:(?:\+44\s?[0-9]{a}|\(?0[0-9]{a}\)?)\s?[0-9]{b}\s?[0-9]{c})] *)
Definition grouped_number (a b c : nat) : Rx.rx :=
  Rx.Cat
    (Rx.Alt
       (Rx.cat [Rx.lit "+"; Rx.lit "4"; Rx.lit "4"; Rx.opt Rx.space] (Rx.times Rx.digit a))
       (Rx.cat [Rx.opt (Rx.lit "("); Rx.lit "0"; Rx.times Rx.digit a] (Rx.opt (Rx.lit ")"))))
    (Rx.cat [Rx.opt Rx.space; Rx.times Rx.digit b; Rx.opt Rx.space] (Rx.times Rx.digit c)).

(** [(?:\+44\s?7[0-9]{3}|(?:^|\s)07[0-9]{3})\s?[0-9]{6}] *)
Definition mobile_number : Rx.rx :=
  Rx.Cat
    (Rx.Alt
       (Rx.cat [Rx.lit "+"; Rx.lit "4"; Rx.lit "4"; Rx.opt Rx.space; Rx.lit "7"]
          (Rx.times Rx.digit 3))
       (Rx.cat [Rx.Alt Rx.Bol Rx.space; Rx.lit "0"; Rx.lit "7"] (Rx.times Rx.digit 3)))
    (Rx.Cat (Rx.opt Rx.space) (Rx.times Rx.digit 6)).

(** [(?:\+44\s?7[0-9]{9})] *)
Definition mobile_number_unspaced : Rx.rx :=
  Rx.cat [Rx.lit "+"; Rx.lit "4"; Rx.lit "4"; Rx.opt Rx.space; Rx.lit "7"] (Rx.times Rx.digit 9).

(** [\b[0-9]{5}\s?[0-9]{5,6}\b] *)
Definition bare_number : Rx.rx :=
  Rx.cat [Rx.Wordb; Rx.times Rx.digit 5; Rx.opt Rx.space; Rx.Rpt Rx.digit 5 6] Rx.Wordb.

(** UK phone number patterns *)
Definition phone_patterns : list Rx.rx :=
  [ grouped_number 4 3 3;        (* +44 7700 900000 *)
    grouped_number 3 3 4;        (* +44 121 234 5678 *)
    grouped_number 2 4 4;        (* +44 20 1234 5678 *)
    mobile_number;               (* +44 7123 456789 *)
    mobile_number_unspaced;      (* +44 7123456789 *)
    bare_number ].               (* 01234 567890 *)

(** The loop over the patterns: the first one with a match decides. *)
Fixpoint first_match (patterns : list Rx.rx) (text : string) : option string :=
  match patterns with
  | [] => None
  | pattern :: rest =>
      match Rx.find pattern text with
      | Some group => Some group
      | None => first_match rest text
      end
  end.

Definition extract_phone_number (text : string) : option string :=
  if String.eqb text EmptyString then None else first_match phone_patterns text.

(** ** [extract_email] of [utils/helpers.py] *)

Definition is_letter (c : ascii) : bool := Str.is_lower c || Str.is_upper c.

(** [[a-zA-Z0-9._%+-]] *)
Definition email_local (c : ascii) : bool :=
  is_letter c || Str.is_digit c
  || existsb (Ascii.eqb c) ["."; "_"; "%"; "+"; "-"]%char.

(** [[a-zA-Z0-9.-]] *)
Definition email_domain (c : ascii) : bool :=
  is_letter c || Str.is_digit c || existsb (Ascii.eqb c) ["."; "-"]%char.

(** [[a-zA-Z0-9._%+-]+@[a-zA-Z0-9.-]+\.[a-zA-Z]{2,}]; a repetition without an
    upper bound is bounded by [n], the length of the text it is matched in. *)
Definition email_pattern (n : nat) : Rx.rx :=
  Rx.cat [Rx.Rpt (Rx.Chr email_local) 1 n; Rx.lit "@"; Rx.Rpt (Rx.Chr email_domain) 1 n;
          Rx.lit "."] (Rx.Rpt (Rx.Chr is_letter) 2 n).

Definition extract_email (text : string) : option string :=
  if String.eqb text EmptyString then None
  else Rx.find (email_pattern (String.length text)) text.


(** * Properties *)

(** ** Facts about strings *)

Module StrFacts.
Import Str.

Lemma startswith_nil_r p : startswith p EmptyString = true -> p = EmptyString.
Proof. destruct p; simpl; [reflexivity | discriminate]. Qed.

Lemma startswith_app_l p a b : startswith p a = true -> startswith p (a +:+ b) = true.
Proof.
  revert a; induction p as [|c p IH]; intros a H; [reflexivity|].
  destruct a as [|d a]; simpl in *; [discriminate|].
  apply andb_true_iff in H as [-> H]. simpl. auto.
Qed.

Lemma contains_nil n : contains n EmptyString = startswith n EmptyString.
Proof. simpl. apply orb_false_r. Qed.

Lemma contains_app_l n a b : contains n a = true -> contains n (a +:+ b) = true.
Proof.
  induction a as [|c a IH]; intros H.
  - rewrite contains_nil in H. apply startswith_nil_r in H. subst n.
    destruct b; reflexivity.
  - simpl in H. apply orb_true_iff in H as [H|H].
    + change (String c a +:+ b) with (String c (a +:+ b)).
      simpl. apply orb_true_iff. left.
      apply (startswith_app_l n (String c a) b H).
    + change (String c a +:+ b) with (String c (a +:+ b)).
      simpl. apply orb_true_iff. right. auto.
Qed.

Lemma contains_app_r n a b : contains n b = true -> contains n (a +:+ b) = true.
Proof.
  intros H. induction a as [|c a IH]; [exact H|].
  change (String c a +:+ b) with (String c (a +:+ b)).
  simpl. rewrite IH. apply orb_true_r.
Qed.

(** A match of [n] at the start of [a +:+ b] lies in [a], or a proper,
    non-empty rest of [n] starts [b] (or all of [n] does, when [a] is empty). *)
Fixpoint crossing (n b : string) : bool :=
  match n with
  | EmptyString => false
  | String _ n' => (negb (String.eqb n' EmptyString) && startswith n' b) || crossing n' b
  end.

Lemma startswith_app_inv n a b :
  startswith n (a +:+ b) = true ->
  startswith n a = true \/ startswith n b = true \/ crossing n b = true.
Proof.
  revert a; induction n as [|c n IH]; intros a H; [left; reflexivity|].
  destruct a as [|d a]; [right; left; exact H|].
  change (String d a +:+ b) with (String d (a +:+ b)) in H.
  simpl in H. apply andb_true_iff in H as [Hc H].
  destruct (IH a H) as [H1|[H1|H1]].
  - left. simpl. rewrite Hc. exact H1.
  - destruct n as [|e n].
    + left. simpl. rewrite Hc. reflexivity.
    + right. right.
      change (crossing (String c (String e n)) b)
        with ((negb (String.eqb (String e n) EmptyString) && startswith (String e n) b)
              || crossing (String e n) b).
      rewrite H1. reflexivity.
  - right. right. simpl. rewrite H1. apply orb_true_r.
Qed.

Lemma startswith_contains n s : startswith n s = true -> contains n s = true.
Proof. intros H. destruct s; simpl in *; rewrite H; reflexivity. Qed.

Lemma contains_cons n c s : contains n s = true -> contains n (String c s) = true.
Proof. intros H. simpl. rewrite H. apply orb_true_r. Qed.

Lemma contains_app_inv n a b :
  contains n (a +:+ b) = true ->
  contains n a = true \/ contains n b = true \/ crossing n b = true.
Proof.
  induction a as [|c a IH]; intros H; [right; left; exact H|].
  change (String c a +:+ b) with (String c (a +:+ b)) in H.
  simpl in H. apply orb_true_iff in H as [H|H].
  - apply (startswith_app_inv n (String c a) b) in H as [H|[H|H]].
    + left. apply startswith_contains, H.
    + right. left. apply startswith_contains, H.
    + right. right. exact H.
  - destruct (IH H) as [H1|[H1|H1]]; auto using contains_cons.
Qed.

Lemma is_upper_not_lower c : is_upper c = true -> is_lower c = false.
Proof.
  unfold is_upper, is_lower. intros H.
  apply andb_true_iff in H as [_ H]. apply Nat.leb_le in H.
  apply andb_false_iff. left. apply Nat.leb_gt. lia.
Qed.

Lemma eqb_lower_upper a c : is_lower a = true -> is_upper c = true -> Ascii.eqb a c = false.
Proof.
  intros Ha Hc. destruct (Ascii.eqb a c) eqn:E; [|reflexivity].
  apply Ascii.eqb_eq in E. subst c. rewrite (is_upper_not_lower _ Hc) in Ha. discriminate.
Qed.

End StrFacts.

(** ** The marker of a website access error, and the issues the pipeline writes *)

Definition access_error_marker : string := "Error accessing website".

(** Every issue the analyzer appends starts with a capital letter. *)
Definition issue_ok (s : string) : bool :=
  match s with
  | String c _ => Str.is_upper c
  | EmptyString => false
  end.

Module MarkerFacts.
Import Str StrFacts.

Lemma marker_after_space s :
  contains access_error_marker (String " " s) = contains access_error_marker s.
Proof. reflexivity. Qed.

(** The marker cannot start in one issue and end in the next one: after the
    space that [join] puts between them comes a capital letter, and the words
    of the marker that follow a space start with a small one. *)
Lemma marker_no_crossing c t :
  is_upper c = true -> crossing access_error_marker (String " " (String c t)) = false.
Proof.
  intros H.
  destruct c as [[] [] [] [] [] [] [] []]; vm_compute in H; try discriminate H; reflexivity.
Qed.

Lemma join_cons_ok i l :
  issue_ok i = true -> exists c t, join " " (i :: l) = String c t /\ is_upper c = true.
Proof.
  destruct i as [|c i]; [discriminate|]. intros H.
  destruct l; simpl; eauto.
Qed.

Lemma marker_in_join l :
  Forall (fun i => issue_ok i = true) l ->
  contains access_error_marker (join " " l) = existsb (contains access_error_marker) l.
Proof.
  induction 1 as [|i l Hi Hl IH]; [reflexivity|].
  destruct l as [|j l].
  - simpl. rewrite orb_false_r. reflexivity.
  - change (join " " (i :: j :: l)) with (i +:+ String " " (join " " (j :: l))).
    change (existsb (contains access_error_marker) (i :: j :: l))
      with (contains access_error_marker i || existsb (contains access_error_marker) (j :: l)).
    rewrite <- IH.
    inversion Hl as [|? ? Hj _]; subst.
    destruct (join_cons_ok j l Hj) as (c & t & Ej & Hc). rewrite Ej in *.
    apply eq_true_iff_eq. split; intros H.
    + apply contains_app_inv in H as [H|[H|H]].
      * rewrite H. reflexivity.
      * rewrite marker_after_space in H. rewrite H. apply orb_true_r.
      * rewrite (marker_no_crossing c t Hc) in H. discriminate.
    + apply orb_true_iff in H as [H|H].
      * apply contains_app_l, H.
      * apply contains_app_r. rewrite marker_after_space. exact H.
Qed.

End MarkerFacts.

(** ** What a computation may do to the state

    [steps R m]: from every state, [m] ends (returning or raising) in a state
    related to the first one by [R]. For a reflexive and transitive [R] the
    property goes through sequencing and exception handling, so it is enough
    to check the assignments a stage makes. *)

Section Steps.

Context (R : relation state) `{!PreOrder R}.

Definition steps {A} (m : M A) : Prop := forall s, R s (snd (m s)).

Lemma steps_pure {A} (m : M A) : (forall s, snd (m s) = s) -> steps m.
Proof. intros H s. rewrite H. reflexivity. Qed.

Lemma steps_ret {A} (a : A) : steps (ret a).
Proof. apply steps_pure. reflexivity. Qed.

Lemma steps_raise {A} e : steps (@raise A e).
Proof. apply steps_pure. reflexivity. Qed.

Lemma steps_lift {A} (o : outcome A) : steps (lift o).
Proof. apply steps_pure. reflexivity. Qed.

Lemma steps_get_results : steps get_results.
Proof. apply steps_pure. reflexivity. Qed.

Lemma steps_path_exists p : steps (path_exists p).
Proof. apply steps_pure. reflexivity. Qed.

Lemma steps_getsize p : steps (getsize p).
Proof. apply steps_pure. intros s. unfold getsize. destruct (files s !! p); reflexivity. Qed.

Lemma steps_read_file p : steps (read_file p).
Proof. apply steps_pure. intros s. unfold read_file. destruct (files s !! p); reflexivity. Qed.

Lemma steps_find_chrome w : steps (find_chrome w).
Proof. apply steps_pure. reflexivity. Qed.

Lemma steps_bind {A B} (m : M A) (k : A -> M B) :
  steps m -> (forall a, steps (k a)) -> steps (bind m k).
Proof.
  intros Hm Hk s. unfold bind. specialize (Hm s).
  destruct (m s) as [[a|e] s']; simpl in *; [|exact Hm].
  etransitivity; [exact Hm|apply Hk].
Qed.

Lemma steps_try_except {A} (m : M A) (h : exn -> M A) :
  steps m -> (forall e, steps (h e)) -> steps (try_except m h).
Proof.
  intros Hm Hh s. unfold try_except. specialize (Hm s).
  destruct (m s) as [[a|e] s']; simpl in *; [exact Hm|].
  etransitivity; [exact Hm|apply Hh].
Qed.

Lemma steps_try_finally {A} (m : M A) (f : M unit) :
  steps m -> steps f -> steps (try_finally m f).
Proof.
  intros Hm Hf s. unfold try_finally. specialize (Hm s).
  destruct (m s) as [o s']. specialize (Hf s').
  destruct (f s') as [[u|e] s'']; simpl in *; etransitivity; eauto.
Qed.

End Steps.

(** The relations used below. *)

(** The issues list has only grown, by issues that start with a capital. *)
Definition issues_grow (s s' : state) : Prop :=
  exists suffix,
    issues (results s') = issues (results s) ++ suffix
    /\ Forall (fun i => issue_ok i = true) suffix.

(** A part of the state is as it was. *)
Definition keeps {X} (part : state -> X) (s s' : state) : Prop := part s' = part s.

Definition scores (s : state) : Z * Z * Z * Z :=
  (performance_score (results s), seo_score (results s),
   accessibility_score (results s), best_practices_score (results s)).

#[local] Instance issues_grow_preorder : PreOrder issues_grow.
Proof.
  split.
  - intros s. exists []. rewrite app_nil_r. auto.
  - intros a b c (x & Hx & Fx) (y & Hy & Fy). exists (x ++ y). split.
    + rewrite Hy, Hx, app_assoc. reflexivity.
    + apply Forall_app. auto.
Qed.

#[local] Instance keeps_preorder {X} (part : state -> X) : PreOrder (keeps part).
Proof. split; unfold keeps; [intros s|intros a b c]; congruence. Qed.

Lemma issues_grow_append msg : issue_ok msg = true -> steps issues_grow (append_issue msg).
Proof. intros H s. exists [msg]. simpl. auto. Qed.

Lemma issues_grow_modify f :
  (forall r, issues (f r) = issues r) -> steps issues_grow (modify_results f).
Proof. intros H s. exists []. simpl. rewrite H, app_nil_r. auto. Qed.

Lemma issues_grow_results_kept {A} (m : M A) : steps (keeps results) m -> steps issues_grow m.
Proof. intros H s. exists []. rewrite (H s), app_nil_r. auto. Qed.

Lemma keeps_modify_results {X} (part : state -> X) f :
  (forall fs r, part (mkState fs (f r)) = part (mkState fs r)) ->
  steps (keeps part) (modify_results f).
Proof. intros H [fs r]. apply H. Qed.

Lemma keeps_results_run_effect {A} (f : effect A) : steps (keeps results) (run_effect f).
Proof. intros s. unfold run_effect, keeps. destruct (f (files s)); reflexivity. Qed.

Lemma keeps_results_unlink p : steps (keeps results) (unlink p).
Proof. intros s. unfold unlink, keeps. destruct (files s !! p); reflexivity. Qed.

Lemma keeps_results_new_temp_file w suffix : steps (keeps results) (new_temp_file w suffix).
Proof. intros s. unfold new_temp_file, keeps. destruct (mkstemp w suffix (files s)); reflexivity. Qed.

Create HintDb steps.

#[local] Hint Resolve steps_ret steps_raise steps_lift steps_get_results steps_path_exists
  steps_getsize steps_read_file steps_find_chrome
  keeps_results_run_effect keeps_results_unlink keeps_results_new_temp_file : steps.
#[local] Hint Extern 0 (PreOrder _) => typeclasses eauto : steps.
#[local] Hint Extern 1 (steps issues_grow (append_issue _)) =>
  apply issues_grow_append; reflexivity : steps.
#[local] Hint Extern 1 (steps issues_grow (modify_results _)) =>
  apply issues_grow_modify; reflexivity : steps.
#[local] Hint Extern 1 (steps (keeps _) (modify_results _)) =>
  apply keeps_modify_results; reflexivity : steps.
#[local] Hint Extern 1 (steps (keeps _) (append_issue _)) =>
  apply keeps_modify_results; reflexivity : steps.
#[local] Hint Extern 2 (steps _ (set_performance_score _)) => unfold set_performance_score : steps.
#[local] Hint Extern 2 (steps _ (set_seo_score _)) => unfold set_seo_score : steps.
#[local] Hint Extern 2 (steps _ (set_accessibility_score _)) =>
  unfold set_accessibility_score : steps.
#[local] Hint Extern 2 (steps _ (set_best_practices_score _)) =>
  unfold set_best_practices_score : steps.
#[local] Hint Extern 2 (steps _ (set_has_ssl _)) => unfold set_has_ssl : steps.
#[local] Hint Extern 2 (steps _ (set_has_mobile_viewport _)) =>
  unfold set_has_mobile_viewport : steps.
#[local] Hint Extern 2 (steps _ (set_priority _)) => unfold set_priority : steps.

(** Follows the structure of a stage down to its assignments. *)
Ltac steps_structure :=
  repeat first
    [ apply steps_bind; [typeclasses eauto| |intros ?]
    | apply steps_try_except; [typeclasses eauto| |intros ?]
    | apply steps_try_finally; [typeclasses eauto| |]
    | match goal with
      | |- steps _ (if ?b then _ else _) => destruct b
      | |- steps _ (match ?x with _ => _ end) => destruct x
      end
    | progress cbv zeta ];
  auto with steps.

(** A computation that raises nothing. *)
Definition total {A} (m : M A) : Prop := forall s, exists a, fst (m s) = Return a.

Lemma total_ret {A} (a : A) : total (ret a).
Proof. intros s. exists a. reflexivity. Qed.

Lemma total_modify_results f : total (modify_results f).
Proof. intros s. exists tt. reflexivity. Qed.

Lemma total_bind {A B} (m : M A) (k : A -> M B) :
  total m -> (forall a, total (k a)) -> total (bind m k).
Proof.
  intros Hm Hk s. unfold bind. destruct (Hm s) as [a Ha].
  destruct (m s) as [o s']. simpl in Ha. subst o. apply Hk.
Qed.

Lemma total_try_except {A} (m : M A) (h : exn -> M A) :
  (forall e, total (h e)) -> total (try_except m h).
Proof.
  intros Hh s. unfold try_except. destruct (m s) as [[a|e] s']; [|apply Hh].
  exists a. reflexivity.
Qed.

(** Running a total computation of no result before another one. *)
Lemma bind_total {B} (m : M unit) (k : unit -> M B) s :
  total m -> bind m k s = k tt (snd (m s)).
Proof.
  intros Hm. unfold bind. destruct (Hm s) as [[] Ha].
  destruct (m s) as [o s']. simpl in *. subst o. reflexivity.
Qed.

Section StageFacts.

Context (w : World).

(** *** The issues only grow *)

Lemma check_website_basics_grows url : steps issues_grow (_check_website_basics w url).
Proof. unfold _check_website_basics. steps_structure. Qed.

Lemma process_lighthouse_results_grows data :
  steps issues_grow (_process_lighthouse_results w data).
Proof. unfold _process_lighthouse_results. steps_structure. Qed.

Lemma perform_basic_analysis_grows url : steps issues_grow (_perform_basic_analysis w url).
Proof.
  unfold _perform_basic_analysis. steps_structure.
Qed.

(** *** The external tool stage leaves the results alone *)

Lemma run_lighthouse_keeps_results url : steps (keeps results) (_run_lighthouse w url).
Proof. unfold _run_lighthouse. steps_structure. Qed.

Lemma run_lighthouse_grows url : steps issues_grow (_run_lighthouse w url).
Proof. apply issues_grow_results_kept, run_lighthouse_keeps_results. Qed.

(** *** The stages that work on the results leave the files alone *)

Lemma check_website_basics_keeps_files url : steps (keeps files) (_check_website_basics w url).
Proof. unfold _check_website_basics. steps_structure. Qed.

Lemma process_lighthouse_results_keeps_files data :
  steps (keeps files) (_process_lighthouse_results w data).
Proof.
  unfold _process_lighthouse_results. steps_structure.
Qed.

Lemma perform_basic_analysis_keeps_files url :
  steps (keeps files) (_perform_basic_analysis w url).
Proof.
  unfold _perform_basic_analysis. steps_structure.
Qed.

(** *** The basic checks leave the scores alone *)

Lemma check_website_basics_keeps_scores url : steps (keeps scores) (_check_website_basics w url).
Proof. unfold _check_website_basics. steps_structure. Qed.

(** *** The stages that catch every exception raise none *)

Lemma check_website_basics_total url : total (_check_website_basics w url).
Proof.
  apply total_try_except. intros e.
  destruct e; apply total_modify_results.
Qed.

Lemma process_lighthouse_results_total data : total (_process_lighthouse_results w data).
Proof. apply total_try_except. intros e. apply total_modify_results. Qed.

Lemma perform_basic_analysis_total url : total (_perform_basic_analysis w url).
Proof. apply total_try_except. intros e. apply total_modify_results. Qed.

End StageFacts.

(** *** The availability flag *)

(** An analyzer built without Lighthouse has the flag off and has run nothing;
    the probe of an analyzer built with it raises nothing. *)
Lemma init_without_lighthouse (w : World) (s : state) :
  WebsiteAnalyzer_init w false s = (Return (mkAnalyzer false false), s).
Proof. reflexivity. Qed.

Lemma check_lighthouse_total (w : World) : total (_check_lighthouse w).
Proof. apply total_try_except. intros e. apply total_ret. Qed.

(** ** The pipeline of [analyze_website], stage by stage *)

(** The state a computation ends in. *)
Definition exec {A} (m : M A) (s : state) : state := snd (m s).

(** The URL the stages work on. *)
Definition effective_url (url : string) : string :=
  if negb (Str.startswith "http://" url || Str.startswith "https://" url)
  then "https://" +:+ url else url.

(** The state once [results] has been initialised. *)
Definition fresh (s : state) : state := mkState (files s) initial_results.

(** The state after the basic checks. *)
Definition after_basics (w : World) (url : string) (s : state) : state :=
  exec (_check_website_basics w (effective_url url)) (fresh s).

Definition with_priority (p : Z) (r : AnalysisResult) : AnalysisResult :=
  mkResult (performance_score r) (seo_score r) (accessibility_score r)
    (best_practices_score r) (has_ssl r) (has_mobile_viewport r) (issues r) (Some p).

(** The last step: the priority is computed and stored, and [results] returned. *)
Definition finish (s : state) : outcome AnalysisResult * state :=
  match _calculate_priority (results s) with
  | Return p =>
      (Return (with_priority p (results s)),
       mkState (files s) (with_priority p (results s)))
  | Raise e => (Raise e, s)
  end.

Definition lighthouse_unavailable_issue : string :=
  "Lighthouse not available for detailed analysis".

Section Pipeline.

Context (w : World) (self : WebsiteAnalyzer).

Lemma analyze_website_empty s :
  analyze_website w self "" s =
  (Return (mkResult 0 0 0 0 false false ["No URL provided"] None),
   mkState (files s) (mkResult 0 0 0 0 false false ["No URL provided"] None)).
Proof. reflexivity. Qed.

Lemma finish_eq s :
  (results <- get_results ;;
   p <- lift (_calculate_priority results) ;;
   set_priority p ;;
   get_results) s = finish s.
Proof.
  unfold finish, bind, get_results, lift. simpl.
  destruct (_calculate_priority (results s)); reflexivity.
Qed.

(** Without the tool: the basic checks, the note that Lighthouse is missing,
    the fallback heuristics, the priority. *)
Lemma analyze_website_fallback url s :
  url <> "" -> lighthouse_available self = false ->
  analyze_website w self url s =
  finish (exec (_perform_basic_analysis w (effective_url url))
            (exec (append_issue lighthouse_unavailable_issue) (after_basics w url s))).
Proof.
  intros Hurl Hav. unfold analyze_website.
  rewrite bind_total by apply total_modify_results.
  apply String.eqb_neq in Hurl. rewrite Hurl, Hav.
  fold (effective_url url).
  rewrite bind_total by apply check_website_basics_total.
  rewrite bind_total
    by (apply total_bind; [apply total_modify_results|intros; apply perform_basic_analysis_total]).
  rewrite finish_eq. reflexivity.
Qed.

(** With the tool: the basic checks, the tool, the normalizer when the tool's
    answer is truthy, the priority. An exception of the tool stage ends the call. *)
Lemma analyze_website_tool url s :
  url <> "" -> lighthouse_available self = true ->
  analyze_website w self url s =
  match _run_lighthouse w (effective_url url) (after_basics w url s) with
  | (Return lighthouse_results, s') =>
      finish (if Py.truthy lighthouse_results
              then exec (_process_lighthouse_results w lighthouse_results) s'
              else s')
  | (Raise e, s') => (Raise e, s')
  end.
Proof.
  intros Hurl Hav. unfold analyze_website.
  rewrite bind_total by apply total_modify_results.
  apply String.eqb_neq in Hurl. rewrite Hurl, Hav.
  fold (effective_url url).
  rewrite bind_total by apply check_website_basics_total.
  change (snd (_check_website_basics w (effective_url url)
                 (snd (modify_results (fun _ => initial_results) s))))
    with (after_basics w url s).
  unfold bind at 1. unfold bind at 1.
  destruct (_run_lighthouse w (effective_url url) (after_basics w url s)) as [[d|e] s'];
    [|reflexivity].
  destruct (Py.truthy d).
  - destruct (process_lighthouse_results_total w d s') as [[] H].
    unfold exec. destruct (_process_lighthouse_results w d s') as [o s'']. simpl in *.
    subst o. apply finish_eq.
  - apply finish_eq.
Qed.

End Pipeline.

(** ** The priority calculator *)

(** The unweighted mean of the four scores. *)
Definition mean_score (r : AnalysisResult) : Q :=
  (inject_Z (performance_score r + seo_score r + accessibility_score r + best_practices_score r)
   / 4)%Q.

(** Some recorded issue contains the marker of a website access error. *)
Definition access_error_recorded (r : AnalysisResult) : Prop :=
  exists i, In i (issues r) /\ Str.contains access_error_marker i = true.

(** The rule of the specification, on a result: 1 for an access error,
    otherwise 2 for a low mean or more than three issues, otherwise 3. *)
Definition priority_rule (r : AnalysisResult) (p : Z) : Prop :=
  (p = 1 <-> access_error_recorded r)
  /\ (p = 2 <-> ~ access_error_recorded r
                /\ ((mean_score r < 60)%Q \/ (3 < length (issues r))%nat))
  /\ (p = 3 <-> ~ access_error_recorded r
                /\ ~ ((mean_score r < 60)%Q \/ (3 < length (issues r))%nat))
  /\ (p = 1 \/ p = 2 \/ p = 3).

Definition issues_ok (r : AnalysisResult) : Prop :=
  Forall (fun i => issue_ok i = true) (issues r).

Lemma Qltb_lt x y : Py.Qltb x y = true <-> (x < y)%Q.
Proof.
  unfold Py.Qltb. rewrite negb_true_iff. split; intros H.
  - apply Qnot_le_lt. intros L. apply Qle_bool_iff in L. congruence.
  - destruct (Qle_bool y x) eqn:E; [|reflexivity].
    apply Qle_bool_iff in E. exfalso. exact (Qlt_not_le _ _ H E).
Qed.

Lemma access_error_recorded_join r :
  issues_ok r ->
  Str.contains access_error_marker (Str.join " " (issues r)) = true <-> access_error_recorded r.
Proof.
  intros H. rewrite (MarkerFacts.marker_in_join _ H), existsb_exists. reflexivity.
Qed.

Lemma calculate_priority_mean r avg :
  Py.true_div (fold_right Z.add 0
      [performance_score r; seo_score r; accessibility_score r; best_practices_score r])
    (Z.of_nat 4) = Return avg ->
  avg = mean_score r.
Proof.
  unfold Py.true_div. simpl Z.of_nat. simpl (_ =? 0).
  destruct (_ <=? _); [discriminate|]. intros [= <-].
  unfold mean_score. simpl fold_right. change (inject_Z 4) with 4%Q. do 2 f_equal. lia.
Qed.

(** The calculator follows the rule on every result whose issues start with
    a capital letter, as those of the pipeline do. *)
Lemma calculate_priority_rule r p :
  issues_ok r -> _calculate_priority r = Return p -> priority_rule r p.
Proof.
  intros Hok. unfold _calculate_priority, priority_rule.
  pose proof (access_error_recorded_join r Hok) as Hm.
  unfold access_error_marker in Hm.
  destruct (Str.contains "Error accessing website" (Str.join " " (issues r))).
  - intros [= <-]. assert (access_error_recorded r) by (apply Hm; reflexivity).
    repeat split; try tauto; try discriminate; intros [? _]; tauto.
  - assert (Hno : ~ access_error_recorded r) by (intros H; apply Hm in H; discriminate).
    destruct (Py.true_div _ _) as [avg|e] eqn:E; [|discriminate].
    apply calculate_priority_mean in E. subst avg.
    assert (Hlen : (3 <? Z.of_nat (length (issues r))) = true <-> (3 < length (issues r))%nat)
      by (rewrite Z.ltb_lt; lia).
    pose proof (Qltb_lt (mean_score r) 60%Q) as Hq.
    destruct (Py.Qltb (mean_score r) 60 || (3 <? Z.of_nat (length (issues r)))) eqn:D;
      intros [= <-].
    + apply orb_true_iff in D.
      assert ((mean_score r < 60)%Q \/ (3 < length (issues r))%nat) by tauto.
      repeat split; try tauto; try discriminate; intros; try tauto; lia.
    + apply orb_false_iff in D as [D1 D2].
      assert (~ ((mean_score r < 60)%Q \/ (3 < length (issues r))%nat)).
      { intros [H|H]; [apply Hq in H|apply Hlen in H]; congruence. }
      repeat split; try tauto; try discriminate; intros; try tauto; lia.
Qed.

(** Outside the pipeline the marker can lie across two issues, since the
    calculator searches the issues joined by spaces: the condition on the
    issues in [calculate_priority_rule] is needed. *)
Remark marker_across_two_issues :
  let r := mkResult 100 100 100 100 true true ["Server Error"; "accessing website failed"] None in
  _calculate_priority r = Return 1 /\ ~ access_error_recorded r.
Proof.
  split; [reflexivity|].
  intros (i & [<-|[<-|[]]] & H); discriminate H.
Qed.

(** The calculator reads the issues and the four scores only. *)
Lemma calculate_priority_reads r r' :
  issues r' = issues r ->
  performance_score r' = performance_score r -> seo_score r' = seo_score r ->
  accessibility_score r' = accessibility_score r ->
  best_practices_score r' = best_practices_score r ->
  _calculate_priority r' = _calculate_priority r.
Proof. intros Hi Hp Hs Ha Hb. unfold _calculate_priority. rewrite Hi, Hp, Hs, Ha, Hb. reflexivity. Qed.

Lemma mean_score_lt_60 r :
  (mean_score r < 60)%Q <->
  performance_score r + seo_score r + accessibility_score r + best_practices_score r < 240.
Proof. unfold mean_score, Qlt, Qdiv, Qmult, Qinv, inject_Z. simpl. lia. Qed.

Lemma finish_inv s r s' :
  finish s = (Return r, s') ->
  exists p, _calculate_priority (results s) = Return p
            /\ r = with_priority p (results s)
            /\ s' = mkState (files s) r.
Proof.
  unfold finish. destruct (_calculate_priority (results s)) as [p|e]; [|discriminate].
  intros [= <- <-]. eauto.
Qed.

(** ** Sample worlds, for the concrete runs below *)

Module Sample.

(** The host of a URL of the form [scheme://host/path]. *)
Fixpoint up_to_slash (s : string) : string :=
  match s with
  | EmptyString => EmptyString
  | String c t => if Ascii.eqb c "/" then EmptyString else String c (up_to_slash t)
  end.

Definition netloc (u : string) : string :=
  if Str.startswith "https://" u then up_to_slash (Str.drop 8 u)
  else if Str.startswith "http://" u then up_to_slash (Str.drop 7 u)
  else EmptyString.

Definition describe (e : exn) : string :=
  match e with
  | RequestException d | OSError d | OtherException d => d
  | KeyError k => "'" +:+ k +:+ "'"
  | TimeoutExpired => "timed out"
  | TypeError => "unsupported operand"
  | AttributeError => "object has no attribute 'get'"
  | ValueError => "cannot convert"
  | OverflowError => "result too large"
  end.

Definition show (v : json) : string :=
  match v with
  | JStr s => s
  | JNull => "None"
  | JInt n => Str.of_Z n
  | _ => "..."
  end.

(** A page served with status 200 at the URL that was asked for. *)
Definition page (url body : string) (header_names : list string) : response :=
  mkResponse 200 url body body header_names.

(** A world, given what the site answers to a GET, what running a command
    does, how creating the temporary file goes, and what [json.load] makes of
    the tool's output. No Chrome is installed unless the files say so; the HTTPS
    probe finds nothing. *)
Definition world (site : string -> outcome response) (tool : list string -> effect Z)
    (temp : outcome string) (report : outcome json) : World :=
  {| head_https := fun _ => Raise (RequestException "connection refused");
     get_basics := site;
     get_fallback := site;
     urlparse_netloc := fun u => Return (netloc u);
     str_exc := describe;
     str_value := show;
     format_1f := fun q => Str.of_Z (Qnum q / Zpos (Qden q)) +:+ ".0";
     int_of_str := fun _ => Raise ValueError;
     json_load := fun _ => report;
     environ := fun _ => None;
     path_join := fun a b => a +:+ "/" +:+ b;
     mkstemp := fun _ _ => temp;
     mkdtemp := fun fs => (Return "/tmp/profile", fs);
     popen := fun _ fs => (Return tt, fs);
     subprocess_run := tool;
     terminate := fun fs => (Return tt, fs) |}.

Definition temp_path : string := "/tmp/tmpq1w2e3.json".

(** The tool runs out of time. *)
Definition tool_times_out : list string -> effect Z := fun _ fs => (Raise TimeoutExpired, fs).

(** The tool ends without writing anything. *)
Definition tool_writes_nothing : list string -> effect Z := fun _ fs => (Return 1, fs).

(** The tool writes its report. *)
Definition tool_writes (contents : string) : list string -> effect Z :=
  fun _ fs => (Return 0, <[temp_path := contents]> fs).

Definition site_down : string -> outcome response :=
  fun _ => Raise (RequestException "Connection refused").

Definition site_serves (body : string) (header_names : list string) : string -> outcome response :=
  fun url => Return (page url body header_names).

(** No file exists, and [results] is still to be initialised. *)
Definition idle : state := mkState ∅ initial_results.

Definition with_tool : WebsiteAnalyzer := mkAnalyzer true true.
Definition without_tool : WebsiteAnalyzer := mkAnalyzer true false.

Definition all_security_headers : list string :=
  [ "strict-transport-security"; "content-security-policy"; "x-content-type-options" ].

Definition good_page : string :=
  "<html><head><title>Shop</title><meta name=viewport content=x></head><body><img src=a.png alt='Logo'></body></html>".

End Sample.

(** ** C2: the empty URL *)

(** The scenario as the specification words it: one issue, four scores of 0
    and priority 2. *)
Definition empty_url_scenario (w : World) (self : WebsiteAnalyzer) (s : state) : Prop :=
  exists r s',
    analyze_website w self "" s = (Return r, s')
    /\ issues r = ["No URL provided"]
    /\ scores (mkState (files s') r) = (0, 0, 0, 0)
    /\ priority r = Some 2.

(** C2, as stated, fails: the result of [analyze_website("")] carries no
    priority at all, since the function returns before the calculator runs. *)
Lemma empty_url_scenario_fails :
  ~ empty_url_scenario
      (Sample.world Sample.site_down Sample.tool_writes_nothing
         (Return Sample.temp_path) (Return JNull))
      Sample.with_tool Sample.idle.
Proof.
  intros (r & s' & H & _ & _ & Hp).
  rewrite analyze_website_empty in H. injection H as <- _. discriminate Hp.
Qed.

(** C2, amended: [analyze_website("")] returns a result whose issues are exactly
    ["No URL provided"], whose four scores are 0 and whose flags are false, and
    which has no priority entry; the priority rule, applied to that result,
    would give 2. *)
Theorem empty_url_result (w : World) (self : WebsiteAnalyzer) (s : state) :
  exists r s',
    analyze_website w self "" s = (Return r, s')
    /\ issues r = ["No URL provided"]
    /\ scores (mkState (files s') r) = (0, 0, 0, 0)
    /\ has_ssl r = false /\ has_mobile_viewport r = false
    /\ priority r = None
    /\ _calculate_priority r = Return 2.
Proof.
  eexists _, _. split; [apply analyze_website_empty|].
  repeat split.
Qed.

(** ** C7: the issues only grow *)

Section IssuesGrow.

Context (w : World) (self : WebsiteAnalyzer).

Lemma issues_grow_prefix s s' :
  issues_grow s s' -> issues (results s) `prefix_of` issues (results s').
Proof. intros (suffix & H & _). exists suffix. exact H. Qed.

(** The state just before the priority is computed, on each path. *)
Lemma fallback_path_grows url s :
  issues_grow (after_basics w url s)
    (exec (_perform_basic_analysis w (effective_url url))
       (exec (append_issue lighthouse_unavailable_issue) (after_basics w url s))).
Proof.
  transitivity (exec (append_issue lighthouse_unavailable_issue) (after_basics w url s)).
  - apply (issues_grow_append lighthouse_unavailable_issue). reflexivity.
  - apply perform_basic_analysis_grows.
Qed.

Lemma tool_path_grows url s d s' :
  _run_lighthouse w (effective_url url) (after_basics w url s) = (Return d, s') ->
  issues_grow (after_basics w url s)
    (if Py.truthy d then exec (_process_lighthouse_results w d) s' else s').
Proof.
  intros H.
  pose proof (run_lighthouse_grows w (effective_url url) (after_basics w url s)) as G.
  rewrite H in G. simpl in G.
  destruct (Py.truthy d); [|exact G].
  etransitivity; [exact G|apply process_lighthouse_results_grows].
Qed.

Lemma finish_issues s r s' : finish s = (Return r, s') -> issues r = issues (results s).
Proof. intros H. apply finish_inv in H as (p & _ & -> & _). reflexivity. Qed.

(** The issues of the final result extend those recorded by the basic checks,
    by issues that start with a capital letter. *)
Lemma analyze_website_grows url s r s' :
  url <> "" ->
  analyze_website w self url s = (Return r, s') ->
  issues_grow (after_basics w url s) (mkState (files s') r).
Proof.
  intros Hurl H. destruct (lighthouse_available self) eqn:Hav.
  - rewrite (analyze_website_tool w self url s Hurl Hav) in H.
    destruct (_run_lighthouse w (effective_url url) (after_basics w url s))
      as [[d|e] s1] eqn:E; [|discriminate].
    pose proof (tool_path_grows url s d s1 E) as (suffix & G & F).
    exists suffix. simpl. rewrite (finish_issues _ _ _ H). auto.
  - rewrite (analyze_website_fallback w self url s Hurl Hav) in H.
    pose proof (fallback_path_grows url s) as (suffix & G & F).
    exists suffix. simpl. rewrite (finish_issues _ _ _ H). auto.
Qed.

End IssuesGrow.

(** C7: every stage of the pipeline leaves the issues it finds in place and
    only appends to them, whether it returns or raises; and the issues of the
    final result start with the issues as they stood after the basic checks,
    in the same order. *)
Theorem issues_only_grow (w : World) (self : WebsiteAnalyzer) (url : string) :
  (forall s, issues (results s)
             `prefix_of` issues (results (exec (_check_website_basics w url) s)))
  /\ (forall s, issues (results (exec (_run_lighthouse w url) s)) = issues (results s))
  /\ (forall data s, issues (results s)
             `prefix_of` issues (results (exec (_process_lighthouse_results w data) s)))
  /\ (forall s, issues (results s)
             `prefix_of` issues (results (exec (_perform_basic_analysis w url) s)))
  /\ (forall s r s',
        url <> "" -> analyze_website w self url s = (Return r, s') ->
        issues (results (after_basics w url s)) `prefix_of` issues r).
Proof.
  repeat split; intros.
  - apply issues_grow_prefix, check_website_basics_grows.
  - unfold exec. rewrite (run_lighthouse_keeps_results w url s). reflexivity.
  - apply issues_grow_prefix, process_lighthouse_results_grows.
  - apply issues_grow_prefix, perform_basic_analysis_grows.
  - apply (issues_grow_prefix _ (mkState (files s') r)).
    apply (analyze_website_grows w self url s r s'); assumption.
Qed.

(** ** Scores between 0 and 100 *)

Definition preserves (P : state -> Prop) (s s' : state) : Prop := P s -> P s'.

#[local] Instance preserves_preorder (P : state -> Prop) : PreOrder (preserves P).
Proof. split; unfold preserves; [intros s|intros a b c]; auto. Qed.

Definition percent (n : Z) : Prop := 0 <= n <= 100.

Definition small_scores (s : state) : Prop :=
  percent (performance_score (results s)) /\ percent (seo_score (results s))
  /\ percent (accessibility_score (results s)) /\ percent (best_practices_score (results s)).

Lemma preserves_modify_results (P : state -> Prop) f :
  (forall fs r, P (mkState fs r) -> P (mkState fs (f r))) ->
  steps (preserves P) (modify_results f).
Proof. intros H [fs r] HP. apply H, HP. Qed.

#[local] Hint Extern 1 (steps (preserves small_scores) (modify_results _)) =>
  apply preserves_modify_results; unfold small_scores, percent; simpl; intros; lia : steps.
#[local] Hint Extern 1 (steps (preserves small_scores) (append_issue _)) =>
  apply preserves_modify_results; unfold small_scores, percent; simpl; intros; lia : steps.

Lemma check_website_basics_small w url :
  steps (preserves small_scores) (_check_website_basics w url).
Proof. unfold _check_website_basics. steps_structure. Qed.

Lemma perform_basic_analysis_small w url :
  steps (preserves small_scores) (_perform_basic_analysis w url).
Proof. unfold _perform_basic_analysis. steps_structure. Qed.

Lemma fresh_small s : small_scores (fresh s).
Proof. unfold small_scores, percent. simpl. lia. Qed.

(** Far from the largest float, the division raises nothing. *)
Lemma true_div_small a :
  -400 <= a <= 400 -> Py.true_div a 4 = Return (inject_Z a / inject_Z 4)%Q.
Proof.
  intros H. unfold Py.true_div. change (4 =? 0) with false. cbv iota.
  assert (L : 400 < Z.abs 4 * (2 ^ 1024 - 2 ^ 970)) by (vm_compute; reflexivity).
  destruct (Z.leb_spec (Z.abs 4 * (2 ^ 1024 - 2 ^ 970)) (Z.abs a)); [lia|reflexivity].
Qed.

(** With scores between 0 and 100 the mean is computed without overflow. *)
Lemma calculate_priority_small s :
  small_scores s -> exists p, _calculate_priority (results s) = Return p.
Proof.
  intros (Hp & Hs & Ha & Hb). unfold percent in *. unfold _calculate_priority.
  destruct (Str.contains _ _); [eauto|].
  match goal with
  | |- context [Py.true_div ?a ?b] =>
      assert (E : Py.true_div a b = Return (inject_Z a / inject_Z 4)%Q)
        by (apply true_div_small; simpl; lia);
      rewrite E
  end.
  destruct (_ || _); eauto.
Qed.

(** ** What the pipeline returns *)

Section FinalResults.

Context (w : World) (self : WebsiteAnalyzer).

Lemma after_basics_issues_ok url s : issues_ok (results (after_basics w url s)).
Proof.
  destruct (check_website_basics_grows w (effective_url url) (fresh s)) as (suffix & H & F).
  unfold issues_ok, after_basics, exec. rewrite H. exact F.
Qed.

Lemma final_issues_ok url s r s' :
  analyze_website w self url s = (Return r, s') -> issues_ok r.
Proof.
  intros H. destruct (String.eqb_spec url "") as [->|Hurl].
  - rewrite analyze_website_empty in H. injection H as <- _.
    repeat constructor.
  - destruct (analyze_website_grows w self url s r s' Hurl H) as (suffix & G & F).
    unfold issues_ok. simpl in G. rewrite G. apply Forall_app. split; [|exact F].
    apply after_basics_issues_ok.
Qed.

(** A call on a non-empty URL that returns has gone through the last step. *)
Lemma final_priority url s r s' :
  url <> "" ->
  analyze_website w self url s = (Return r, s') ->
  exists p, priority r = Some p /\ _calculate_priority r = Return p.
Proof.
  intros Hurl H.
  assert (exists s1, finish s1 = (Return r, s')) as [s1 F].
  { destruct (lighthouse_available self) eqn:Hav.
    - rewrite (analyze_website_tool w self url s Hurl Hav) in H.
      destruct (_run_lighthouse _ _ _) as [[d|e] s1]; [eauto|discriminate].
    - rewrite (analyze_website_fallback w self url s Hurl Hav) in H. eauto. }
  apply finish_inv in F as (p & C & -> & _). exists p. split; [reflexivity|].
  rewrite <- C. apply calculate_priority_reads; reflexivity.
Qed.

(** Without the tool the call returns: the scores are between 0 and 100 and
    the mean cannot overflow. *)
Lemma analyze_website_fallback_returns url s :
  url <> "" -> lighthouse_available self = false ->
  exists p,
    _calculate_priority
      (results (exec (_perform_basic_analysis w (effective_url url))
                  (exec (append_issue lighthouse_unavailable_issue) (after_basics w url s))))
    = Return p
    /\ analyze_website w self url s
       = finish (exec (_perform_basic_analysis w (effective_url url))
                   (exec (append_issue lighthouse_unavailable_issue) (after_basics w url s))).
Proof.
  intros Hurl Hav.
  set (s2 := exec (append_issue lighthouse_unavailable_issue) (after_basics w url s)).
  assert (Hsmall : small_scores (exec (_perform_basic_analysis w (effective_url url)) s2)).
  { apply perform_basic_analysis_small. unfold s2, exec, small_scores. simpl.
    apply (check_website_basics_small w (effective_url url) (fresh s)), fresh_small. }
  destruct (calculate_priority_small _ Hsmall) as [p C].
  exists p. split; [exact C|].
  apply (analyze_website_fallback w self url s Hurl Hav).
Qed.

End FinalResults.

(** ** C3: the priority of a final result *)

(** C3: on every result that [analyze_website] returns, the priority calculator
    returns 1 exactly when some recorded issue contains the marker of a website
    access error, otherwise 2 exactly when the mean of the four scores is below
    60 or there are more than three issues, and 3 otherwise; the value is 1, 2 or
    3, it is the priority stored in the result of a call on a non-empty URL, and
    it is the same on every result with these issues and these four scores. *)
Theorem priority_of_final_result (w : World) (self : WebsiteAnalyzer) (url : string)
    (s : state) (r : AnalysisResult) (s' : state) :
  analyze_website w self url s = (Return r, s') ->
  exists p,
    _calculate_priority r = Return p
    /\ (url <> "" -> priority r = Some p)
    /\ priority_rule r p
    /\ (forall r',
          issues r' = issues r ->
          performance_score r' = performance_score r -> seo_score r' = seo_score r ->
          accessibility_score r' = accessibility_score r ->
          best_practices_score r' = best_practices_score r ->
          _calculate_priority r' = Return p).
Proof.
  intros H. pose proof (final_issues_ok w self url s r s' H) as Hok.
  assert (exists p, _calculate_priority r = Return p /\ (url <> "" -> priority r = Some p))
    as (p & C & P).
  { destruct (String.eqb_spec url "") as [->|Hurl].
    - rewrite analyze_website_empty in H. injection H as <- _.
      exists 2. split; [reflexivity|congruence].
    - destruct (final_priority w self url s r s' Hurl H) as (p & P & C). eauto. }
  exists p. split; [exact C|]. split; [exact P|].
  split; [exact (calculate_priority_rule r p Hok C)|].
  intros r' Hi Hp Hs Ha Hb. rewrite <- C. apply calculate_priority_reads; assumption.
Qed.

(** A run for C3: the site is down and the tool is not available. *)
Definition site_down_result : AnalysisResult :=
  mkResult 0 0 0 0 true false
    [ "Error accessing website: Connection refused";
      "Lighthouse not available for detailed analysis";
      "Error during basic analysis: Connection refused" ]
    (Some 1).

Lemma priority_of_final_result_witness :
  let w := Sample.world Sample.site_down Sample.tool_writes_nothing
             (Return Sample.temp_path) (Return JNull) in
  analyze_website w Sample.without_tool "example.com" Sample.idle
  = (Return site_down_result, mkState ∅ site_down_result)
  /\ exists p, _calculate_priority site_down_result = Return p
               /\ priority site_down_result = Some p
               /\ priority_rule site_down_result p.
Proof.
  intros w.
  assert (H : analyze_website w Sample.without_tool "example.com" Sample.idle
              = (Return site_down_result, mkState ∅ site_down_result))
    by (vm_compute; reflexivity).
  split; [exact H|].
  destruct (priority_of_final_result w Sample.without_tool "example.com" Sample.idle
              site_down_result (mkState ∅ site_down_result) H) as (p & C & P & Rule & _).
  exists p. split; [exact C|]. split; [apply P; discriminate|exact Rule].
Defined.

(** ** C10: the note that Lighthouse is not available *)

(** C10: on a non-empty URL, an analyzer whose availability flag is false
    returns a result whose issues contain the note that Lighthouse is not
    available, right after the issues of the basic checks; so the list is not
    empty, and with three other issues the priority is not 3. *)
Theorem lighthouse_unavailable_recorded (w : World) (self : WebsiteAnalyzer) (url : string)
    (s : state) :
  url <> "" -> lighthouse_available self = false ->
  exists r s',
    analyze_website w self url s = (Return r, s')
    /\ In lighthouse_unavailable_issue (issues r)
    /\ issues r <> []
    /\ exists after,
         issues r = issues (results (after_basics w url s))
                    ++ lighthouse_unavailable_issue :: after
         /\ ((3 <= length (issues (results (after_basics w url s))) + length after)%nat ->
             priority r = Some 1 \/ priority r = Some 2).
Proof.
  intros Hurl Hav.
  destruct (analyze_website_fallback_returns w self url s Hurl Hav) as (p & C & E).
  set (s1 := after_basics w url s) in *.
  set (s2 := exec (append_issue lighthouse_unavailable_issue) s1) in *.
  set (s3 := exec (_perform_basic_analysis w (effective_url url)) s2) in *.
  unfold finish in E. rewrite C in E.
  destruct (perform_basic_analysis_grows w (effective_url url) s2) as (after & G & _).
  fold (exec (_perform_basic_analysis w (effective_url url)) s2) in G. fold s3 in G.
  assert (I : issues (with_priority p (results s3))
              = issues (results s1) ++ lighthouse_unavailable_issue :: after).
  { simpl. rewrite G. unfold s2, exec. simpl. rewrite <- app_assoc. reflexivity. }
  eexists _, _. split; [exact E|]. split; [|split].
  - rewrite I. apply in_or_app. right. left. reflexivity.
  - rewrite I. intros N. apply app_eq_nil in N as [_ N]. discriminate.
  - exists after. split; [exact I|]. intros L.
    assert (Rule : priority_rule (with_priority p (results s3)) p).
    { apply calculate_priority_rule.
      - apply (final_issues_ok w self url s _ _ E).
      - rewrite <- C. apply calculate_priority_reads; reflexivity. }
    destruct Rule as (_ & _ & R3 & [->| [->| ->]]); simpl; auto.
    exfalso. destruct R3 as [R3 _]. destruct (R3 eq_refl) as [_ N]. apply N. right.
    rewrite I, length_app. simpl. lia.
Qed.

(** A run for C10: the site answers, no tool. *)
Lemma lighthouse_unavailable_recorded_witness :
  let w := Sample.world (Sample.site_serves Sample.good_page Sample.all_security_headers)
             Sample.tool_writes_nothing (Return Sample.temp_path) (Return JNull) in
  exists r s',
    analyze_website w Sample.without_tool "example.com" Sample.idle = (Return r, s')
    /\ In lighthouse_unavailable_issue (issues r)
    /\ issues r <> [].
Proof.
  intros w.
  destruct (lighthouse_unavailable_recorded w Sample.without_tool "example.com" Sample.idle)
    as (r & s' & E & I & N & _); [discriminate|reflexivity|].
  exists r, s'. auto.
Defined.

(** ** C6: the temporary output file *)

Section TempFile.

Context (w : World).

(** The [finally] block of [_run_lighthouse]. *)
Definition clean_up (output_path : string) : M unit :=
  present <- path_exists output_path ;;
  if present then unlink output_path else ret tt.

Lemma clean_up_removes output_path s :
  exists s', clean_up output_path s = (Return tt, s')
             /\ files s' !! output_path = None
             /\ results s' = results s.
Proof.
  unfold clean_up, bind, path_exists, unlink, ret.
  destruct (files s !! output_path) eqn:E; rewrite ?E.
  - eexists. split; [reflexivity|]. simpl. split; [apply lookup_delete_eq|reflexivity].
  - eexists. split; [reflexivity|]. auto.
Qed.

(** Whatever the guarded block does, once it has caught its exceptions the
    whole [try ... finally] returns and the file is gone. *)
Lemma try_finally_clean_up {A} (m : M A) output_path s :
  total m ->
  exists a s', try_finally m (clean_up output_path) s = (Return a, s')
               /\ files s' !! output_path = None.
Proof.
  intros Hm. unfold try_finally. destruct (Hm s) as [a Ha].
  destruct (m s) as [o s1]. simpl in Ha. subst o.
  destruct (clean_up_removes output_path s1) as (s2 & -> & Hf & _). eauto.
Qed.

Lemma run_lighthouse_outcome url s :
  match _run_lighthouse w url s with
  | (Return _, s') =>
      exists output_path,
        mkstemp w ".json" (files s) = Return output_path /\ files s' !! output_path = None
  | (Raise e, s') => mkstemp w ".json" (files s) = Raise e /\ s' = s
  end.
Proof.
  unfold _run_lighthouse. unfold bind at 1. unfold new_temp_file.
  destruct (mkstemp w ".json" (files s)) as [output_path|e]; [|auto].
  match goal with
  | |- context [try_finally ?m ?f ?s1] =>
      destruct (try_finally_clean_up m output_path s1) as (a & s' & E & Hf);
        [|change f with (clean_up output_path); rewrite E; eauto]
  end.
  apply total_try_except. intros e. destruct e; apply total_ret.
Qed.

End TempFile.

(** C6: [_run_lighthouse] ends in one of two ways. Either creating the
    temporary file failed, and then there is no file and the files are as they
    were; or the function returns, whatever the subprocesses did (wrote a report,
    wrote nothing, ran out of time, raised anything else), and then the
    temporary file does not exist. The later stages do not touch the files, so
    the file does not exist when [analyze_website] returns either. *)
Theorem temp_file_removed (w : World) (self : WebsiteAnalyzer) (url : string) (s : state) :
  match _run_lighthouse w url s with
  | (Return _, s') =>
      exists output_path,
        mkstemp w ".json" (files s) = Return output_path /\ files s' !! output_path = None
  | (Raise e, s') => mkstemp w ".json" (files s) = Raise e /\ s' = s
  end
  /\ (forall r s',
        url <> "" -> lighthouse_available self = true ->
        analyze_website w self url s = (Return r, s') ->
        exists output_path,
          mkstemp w ".json" (files s) = Return output_path /\ files s' !! output_path = None).
Proof.
  split; [apply run_lighthouse_outcome|].
  intros r s' Hurl Hav H.
  rewrite (analyze_website_tool w self url s Hurl Hav) in H.
  pose proof (run_lighthouse_outcome w (effective_url url) (after_basics w url s)) as O.
  assert (Hb : files (after_basics w url s) = files s)
    by apply (check_website_basics_keeps_files w (effective_url url) (fresh s)).
  rewrite Hb in O.
  destruct (_run_lighthouse w (effective_url url) (after_basics w url s)) as [[d|e] s1];
    [|discriminate].
  destruct O as (output_path & Hm & Hf). exists output_path. split; [exact Hm|].
  apply finish_inv in H as (p & _ & _ & ->). simpl.
  destruct (Py.truthy d); [|exact Hf].
  unfold exec. rewrite (process_lighthouse_results_keeps_files w d s1). exact Hf.
Qed.

(** A run for C6: the tool runs out of time. *)
Lemma temp_file_removed_witness :
  let w := Sample.world Sample.site_down Sample.tool_times_out
             (Return Sample.temp_path) (Return JNull) in
  _run_lighthouse w "https://example.com" Sample.idle = (Return JNull, Sample.idle)
  /\ files (snd (_run_lighthouse w "https://example.com" Sample.idle)) !! Sample.temp_path = None.
Proof.
  intros w.
  assert (E : _run_lighthouse w "https://example.com" Sample.idle = (Return JNull, Sample.idle))
    by (vm_compute; reflexivity).
  split; [exact E|].
  assert (O := proj1 (temp_file_removed w Sample.with_tool "https://example.com" Sample.idle)).
  destruct O as (output_path & Hm & Hf).
  injection Hm as <-. exact Hf.
Defined.

(** ** C5: exceptions that leave [analyze_website] *)

(** C5: the code at the input that breaks the claim. The temporary file is
    created before the [try] of [_run_lighthouse]: when creating it fails, the
    exception leaves [analyze_website]. *)
Theorem analyze_website_raises (w : World) (self : WebsiteAnalyzer) (url : string)
    (s : state) (e : exn) :
  url <> "" -> lighthouse_available self = true ->
  mkstemp w ".json" (files s) = Raise e ->
  fst (analyze_website w self url s) = Raise e.
Proof.
  intros Hurl Hav Hm.
  rewrite (analyze_website_tool w self url s Hurl Hav).
  pose proof (run_lighthouse_outcome w (effective_url url) (after_basics w url s)) as O.
  assert (Hb : files (after_basics w url s) = files s)
    by apply (check_website_basics_keeps_files w (effective_url url) (fresh s)).
  rewrite Hb, Hm in O.
  destruct (_run_lighthouse w (effective_url url) (after_basics w url s)) as [[d|e'] s1].
  - destruct O as (? & ? & _). discriminate.
  - destruct O as [[= ->] _]. reflexivity.
Qed.

(** A run for C5: no temporary directory can be used. *)
Lemma analyze_website_raises_witness :
  fst (analyze_website
         (Sample.world (Sample.site_serves Sample.good_page Sample.all_security_headers)
            Sample.tool_writes_nothing
            (Raise (OSError "No usable temporary directory found")) (Return JNull))
         Sample.with_tool "example.com" Sample.idle)
  = Raise (OSError "No usable temporary directory found").
Proof.
  apply analyze_website_raises; [discriminate|reflexivity|reflexivity].
Defined.

(** The exceptions that can leave [analyze_website] are these two: the failure
    to create the temporary file, and the overflow of the mean when the report
    gave scores beyond the range of a float. *)
Lemma analyze_website_raise_causes (w : World) (self : WebsiteAnalyzer) (url : string)
    (s : state) (e : exn) (s' : state) :
  analyze_website w self url s = (Raise e, s') ->
  lighthouse_available self = true
  /\ (mkstemp w ".json" (files s) = Raise e \/ e = OverflowError).
Proof.
  intros H. destruct (String.eqb_spec url "") as [->|Hurl].
  { rewrite analyze_website_empty in H. discriminate. }
  assert (F : forall s1, finish s1 = (Raise e, s') -> e = OverflowError).
  { intros s1. unfold finish, _calculate_priority.
    destruct (Str.contains _ _); [discriminate|].
    unfold Py.true_div. simpl (Z.of_nat _ =? 0).
    destruct (_ <=? _); [|destruct (_ || _); discriminate].
    intros [= <- _]. reflexivity. }
  destruct (lighthouse_available self) eqn:Hav.
  - split; [reflexivity|].
    rewrite (analyze_website_tool w self url s Hurl Hav) in H.
    pose proof (run_lighthouse_outcome w (effective_url url) (after_basics w url s)) as O.
    assert (Hb : files (after_basics w url s) = files s)
      by apply (check_website_basics_keeps_files w (effective_url url) (fresh s)).
    rewrite Hb in O.
    destruct (_run_lighthouse w (effective_url url) (after_basics w url s)) as [[d|e'] s1].
    + right. eapply F, H.
    + injection H as <- <-. left. apply O.
  - exfalso.
    destruct (analyze_website_fallback_returns w self url s Hurl Hav) as (p & C & E).
    unfold finish in E. rewrite C in E. congruence.
Qed.

(** ** C4: the scores the normalizer writes *)

(** [int(score * 100)] *)
Definition percent_of_score (w : World) (score : json) : outcome Z :=
  match Py.mul100 score with
  | Return p => int_of w p
  | Raise e => Raise e
  end.

(** What the [categories] section says about one category: nothing, or the
    outcome of [int(categories[name]['score'] * 100)]. *)
Definition category_percent (w : World) (categories : list (string * json)) (name : string)
  : option (outcome Z) :=
  match Py.lookup name categories with
  | None => None
  | Some category =>
      Some match Py.getitem category "score" with
           | Return score => percent_of_score w score
           | Raise e => Raise e
           end
  end.

(** The category is absent, or its score can be read as a number. *)
Definition category_readable (w : World) (categories : list (string * json)) (name : string)
  : Prop :=
  forall e, category_percent w categories name <> Some (Raise e).

(** The value of a score field after the normalizer, given its value before. *)
Definition normalized (w : World) (categories : list (string * json)) (name : string)
    (previous : Z) : Z :=
  match category_percent w categories name with
  | Some (Return n) => n
  | _ => previous
  end.

Section Normalizer.

Context (w : World).

Definition apply_category (categories : list (string * json)) (name : string)
    (set_field : Z -> M unit) (s : state) : state :=
  match category_percent w categories name with
  | Some (Return n) => exec (set_field n) s
  | _ => s
  end.

Lemma category_score_run categories name set_field s :
  category_readable w categories name ->
  (forall n, total (set_field n)) ->
  category_score w (JDict categories) name set_field s
  = (Return tt, apply_category categories name set_field s).
Proof.
  intros Hr Ht. unfold category_readable in Hr.
  unfold category_score, apply_category, category_percent, percent_of_score in *.
  unfold bind, lift, Py.contains. simpl.
  destruct (Py.lookup name categories) as [category|]; [|reflexivity].
  simpl. rewrite ?(ltac:(reflexivity) : Py.getitem (JDict categories) name
                     = match Py.lookup name categories with
                       | Some x => Return x | None => Raise (KeyError name) end).
  destruct (Py.getitem category "score") as [score|e]; [|exfalso; eapply Hr; reflexivity].
  destruct (Py.mul100 score) as [p|e]; [|exfalso; eapply Hr; reflexivity].
  destruct (int_of w p) as [n|e]; [|exfalso; eapply Hr; reflexivity].
  unfold exec. destruct (Ht n s) as [[] E]. destruct (set_field n s) as [o s'].
  simpl in *. subst o. reflexivity.
Qed.

Lemma try_except_bind_return {A B} (m : M A) (k : A -> M B) h s a s' :
  m s = (Return a, s') -> try_except (bind m k) h s = try_except (k a) h s'.
Proof. intros E. unfold try_except, bind. rewrite E. reflexivity. Qed.

Lemma normalizer_run data categories s :
  Py.get data "categories" (JDict []) = Return (JDict categories) ->
  (forall name,
     In name ["performance"; "accessibility"; "best-practices"; "seo"] ->
     category_readable w categories name) ->
  scores (exec (_process_lighthouse_results w data) s)
  = scores (apply_category categories "seo" set_seo_score
             (apply_category categories "best-practices" set_best_practices_score
               (apply_category categories "accessibility" set_accessibility_score
                 (apply_category categories "performance" set_performance_score s)))).
Proof.
  intros Hget Hr. unfold exec, _process_lighthouse_results.
  rewrite (try_except_bind_return _ _ _ s (JDict categories) s)
    by (unfold lift; rewrite Hget; reflexivity).
  repeat (erewrite try_except_bind_return;
          [|apply category_score_run;
            [apply Hr; simpl; tauto|intros n; apply total_modify_results]]).
  match goal with
  | |- scores (snd (try_except ?m ?h ?s4)) = _ =>
      assert (K : steps (keeps scores) (try_except m h)) by steps_structure;
      apply (K s4)
  end.
Qed.

End Normalizer.

(** C4, as stated, fails: the normalizer drops the fraction of the product
    instead of rounding it. A performance score of 0.29 gives 28, since
    0.29 * 100 is 28.999999999999996 in floating point, and [round] gives 29. *)
Lemma normalizer_does_not_round :
  let w := Sample.world Sample.site_down Sample.tool_writes_nothing
             (Return Sample.temp_path) (Return JNull) in
  let report := JDict [("categories",
                  JDict [("performance", JDict [("score", JFloat 0.29)])])] in
  Return (performance_score (results (exec (_process_lighthouse_results w report) Sample.idle)))
  <> Py.round_of_float (0.29 * 100)%float.
Proof. vm_compute. discriminate. Qed.

(** The order in which the normalizer reads the categories. *)
Definition category_order : list string :=
  ["performance"; "accessibility"; "best-practices"; "seo"].

(** The categories read before [name]. *)
Fixpoint read_before (name : string) (order : list string) : list string :=
  match order with
  | [] => []
  | n :: rest => if String.eqb n name then [] else n :: read_before name rest
  end.

(** [int(categories[name]['score'] * 100)] raises. *)
Definition category_fails (w : World) (categories : list (string * json)) (name : string)
  : bool :=
  match category_percent w categories name with
  | Some (Raise _) => true
  | _ => false
  end.

(** The normalizer gets as far as the category [name]: none of the categories
    read before it fails. *)
Definition category_reached (w : World) (categories : list (string * json)) (name : string)
  : bool :=
  forallb (fun n => negb (category_fails w categories n)) (read_before name category_order).

(** The value of a score field after the normalizer, given its value before,
    on every report. *)
Definition field_after (w : World) (categories : list (string * json)) (name : string)
    (previous : Z) : Z :=
  if category_reached w categories name then normalized w categories name previous
  else previous.

Section NormalizerOnEveryReport.

Context (w : World).

Lemma category_score_outcome categories name set_field s :
  (forall n, total (set_field n)) ->
  category_score w (JDict categories) name set_field s
  = match category_percent w categories name with
    | None => (Return tt, s)
    | Some (Return n) => (Return tt, exec (set_field n) s)
    | Some (Raise e) => (Raise e, s)
    end.
Proof.
  intros Ht. unfold category_score, category_percent, percent_of_score.
  unfold bind, lift, Py.contains. simpl.
  destruct (Py.lookup name categories) as [category|]; [|reflexivity].
  simpl.
  destruct (Py.getitem category "score") as [score|e]; [|reflexivity].
  destruct (Py.mul100 score) as [p|e]; [|reflexivity].
  destruct (int_of w p) as [n|e]; [|reflexivity].
  unfold exec. destruct (Ht n s) as [[] E]. destruct (set_field n s) as [o s'].
  simpl in *. subst o. reflexivity.
Qed.

Lemma try_except_bind_raise {A B} (m : M A) (k : A -> M B) h s e s' :
  m s = (Raise e, s') -> try_except (bind m k) h s = h e s'.
Proof. intros E. unfold try_except, bind. rewrite E. reflexivity. Qed.

(** The state after the normalizer when the category [name] is the first to
    fail: the categories before it are applied and the error is recorded. *)
Definition error_issue (e : exn) : string :=
  "Error processing Lighthouse results: " +:+ str_exc w e.

Lemma category_reached_equations categories :
  category_reached w categories "performance" = true
  /\ category_reached w categories "accessibility"
     = negb (category_fails w categories "performance")
  /\ category_reached w categories "best-practices"
     = negb (category_fails w categories "performance")
       && negb (category_fails w categories "accessibility")
  /\ category_reached w categories "seo"
     = negb (category_fails w categories "performance")
       && negb (category_fails w categories "accessibility")
       && negb (category_fails w categories "best-practices").
Proof.
  unfold category_reached. change (read_before "performance" category_order) with (@nil string).
  change (read_before "accessibility" category_order) with ["performance"].
  change (read_before "best-practices" category_order) with ["performance"; "accessibility"].
  change (read_before "seo" category_order)
    with ["performance"; "accessibility"; "best-practices"].
  cbn [forallb]. rewrite !andb_true_r, !andb_assoc. auto.
Qed.

Lemma normalizer_fields data categories s :
  Py.get data "categories" (JDict []) = Return (JDict categories) ->
  scores (exec (_process_lighthouse_results w data) s)
  = (field_after w categories "performance" (performance_score (results s)),
     field_after w categories "seo" (seo_score (results s)),
     field_after w categories "accessibility" (accessibility_score (results s)),
     field_after w categories "best-practices" (best_practices_score (results s)))
  /\ (forall name e,
        In name category_order ->
        category_reached w categories name = true ->
        category_percent w categories name = Some (Raise e) ->
        issues (results (exec (_process_lighthouse_results w data) s))
        = issues (results s) ++ [error_issue e]).
Proof.
  intros Hget.
  unfold exec, _process_lighthouse_results.
  rewrite (try_except_bind_return _ _ _ s (JDict categories) s)
    by (unfold lift; rewrite Hget; reflexivity).
  destruct (category_reached_equations categories) as (Q1 & Q2 & Q3 & Q4).
  unfold field_after. rewrite Q1, Q2, Q3, Q4.
  assert (R1 := fun s => category_score_outcome categories "performance"
                          set_performance_score s (fun n => total_modify_results _)).
  assert (R2 := fun s => category_score_outcome categories "accessibility"
                          set_accessibility_score s (fun n => total_modify_results _)).
  assert (R3 := fun s => category_score_outcome categories "best-practices"
                          set_best_practices_score s (fun n => total_modify_results _)).
  assert (R4 := fun s => category_score_outcome categories "seo"
                          set_seo_score s (fun n => total_modify_results _)).
  unfold category_fails, normalized in *.
  destruct (category_percent w categories "performance") as [[n1|e1]|] eqn:E1;
    destruct (category_percent w categories "accessibility") as [[n2|e2]|] eqn:E2;
    destruct (category_percent w categories "best-practices") as [[n3|e3]|] eqn:E3;
    destruct (category_percent w categories "seo") as [[n4|e4]|] eqn:E4.
  all: repeat first
         [ erewrite try_except_bind_return by first [apply R1|apply R2|apply R3|apply R4]
         | erewrite try_except_bind_raise by first [apply R1|apply R2|apply R3|apply R4] ].
  all: clear R1 R2 R3 R4.
  all: split;
    [ cbn [negb andb]
    | intros name e [<-| [<-| [<-| [<-|[]]]]] Hr Hp;
      rewrite ?Q1, ?Q2, ?Q3, ?Q4 in Hr; cbn [negb andb] in Hr;
      try discriminate Hr; rewrite ?E1, ?E2, ?E3, ?E4 in Hp; try discriminate Hp;
      injection Hp as <- ].
  all: try match goal with
       | |- scores (snd (try_except ?m ?h ?s4)) = _ =>
           let K := fresh "K" in
           assert (K : steps (keeps scores) (try_except m h)) by steps_structure;
           transitivity (scores s4); [exact (K s4)|]; clear K
       end.
  all: unfold scores, exec, error_issue, append_issue, set_performance_score,
         set_accessibility_score, set_best_practices_score, set_seo_score, modify_results;
       simpl; reflexivity.
Qed.

Lemma field_after_readable categories name previous :
  (forall n, In n category_order -> category_readable w categories n) ->
  field_after w categories name previous = normalized w categories name previous.
Proof.
  intros Hr. unfold field_after.
  assert (R : forall l, (forall n, In n l -> In n category_order) ->
                        forallb (fun n => negb (category_fails w categories n)) l = true).
  { induction l as [|n l IH]; intros Hl; [reflexivity|].
    simpl. rewrite IH by (intros; apply Hl; right; assumption).
    unfold category_fails. pose proof (Hr n (Hl n (or_introl eq_refl))) as Hn.
    unfold category_readable in Hn.
    destruct (category_percent w categories n) as [[?|e]|]; try reflexivity.
    exfalso. exact (Hn e eq_refl). }
  destruct (category_reached w categories name) eqn:E; [reflexivity|].
  unfold normalized. destruct (category_percent w categories name) as [[n|e]|]; try reflexivity.
  exfalso. unfold category_reached in E. rewrite R in E; [discriminate E|].
  clear. unfold category_order. generalize ["performance"; "accessibility"; "best-practices"; "seo"].
  induction l as [|m l IH]; simpl; [tauto|].
  destruct (String.eqb m name); simpl; [tauto|]. intros n [<-|H]; auto.
Qed.

End NormalizerOnEveryReport.

(** A float that is a number: neither [nan] nor an infinity. *)
Definition finite_float (f : float) : bool :=
  match Prim2SF f with
  | S754_infinity _ | S754_nan => false
  | _ => true
  end.

(** [int] of a float returns exactly on the finite ones. *)
Lemma int_of_float_returns (f : float) :
  finite_float f = true <-> exists n, Py.int_of_float f = Return n.
Proof.
  unfold finite_float, Py.int_of_float.
  destruct (Prim2SF f); split; try discriminate; eauto; intros [n H]; discriminate H.
Qed.

(** The percentage of a category whose score is a number. *)
Lemma category_percent_number (w : World) categories name category :
  Py.lookup name categories = Some category ->
  (forall n, Py.getitem category "score" = Return (JInt n) ->
             category_percent w categories name = Some (Return (n * 100)))
  /\ (forall f, Py.getitem category "score" = Return (JFloat f) ->
                category_percent w categories name
                = Some (Py.int_of_float (f * 100)%float)).
Proof.
  intros L. unfold category_percent. rewrite L.
  split; intros x ->; reflexivity.
Qed.

(** C4, amended: for a report whose [categories] section is a dictionary (or is
    missing) the normalizer reads the four categories in the order performance,
    accessibility, best-practices, seo. A category that is absent leaves its
    field as it was; a category whose [int(score * 100)] has a value sets its
    field to it, the product with its fraction dropped: for an integer score the
    product itself, for a float score the truncated double-precision product,
    which exists exactly when that product is finite. The first category whose
    [int(score * 100)] raises ends the normalisation: its field and the fields of
    the categories after it stay as they were, the fields set before it stay
    set, and the issue of the generic handler is appended. When no category
    raises, every field is the one of its category alone. *)
Theorem normalizer_scores (w : World) (data : json) (categories : list (string * json))
    (s : state) :
  Py.get data "categories" (JDict []) = Return (JDict categories) ->
  let before := results s in
  let after := results (exec (_process_lighthouse_results w data) s) in
  (performance_score after = field_after w categories "performance" (performance_score before)
   /\ accessibility_score after
      = field_after w categories "accessibility" (accessibility_score before)
   /\ best_practices_score after
      = field_after w categories "best-practices" (best_practices_score before)
   /\ seo_score after = field_after w categories "seo" (seo_score before))
  /\ (forall name e,
        In name category_order ->
        category_reached w categories name = true ->
        category_percent w categories name = Some (Raise e) ->
        issues after
        = issues before ++ ["Error processing Lighthouse results: " +:+ str_exc w e])
  /\ ((forall name, In name category_order -> category_readable w categories name) ->
      performance_score after
      = normalized w categories "performance" (performance_score before)
      /\ accessibility_score after
         = normalized w categories "accessibility" (accessibility_score before)
      /\ best_practices_score after
         = normalized w categories "best-practices" (best_practices_score before)
      /\ seo_score after = normalized w categories "seo" (seo_score before))
  /\ (forall name category,
        Py.lookup name categories = Some category ->
        (forall n, Py.getitem category "score" = Return (JInt n) ->
                   category_percent w categories name = Some (Return (n * 100)))
        /\ (forall f, Py.getitem category "score" = Return (JFloat f) ->
                      category_percent w categories name
                      = Some (Py.int_of_float (f * 100)%float)
                      /\ (finite_float (f * 100)%float = true
                          <-> exists n, Py.int_of_float (f * 100)%float = Return n))).
Proof.
  intros Hget before after.
  destruct (normalizer_fields w data categories s Hget) as [F I].
  unfold scores in F. fold after before in F. injection F as P S A B.
  split; [auto|]. split; [exact I|]. split.
  - intros Hr. rewrite <- !(field_after_readable w categories _ _ Hr). auto.
  - intros name category L.
    destruct (category_percent_number w categories name category L) as [N F].
    split; [exact N|]. intros f Hf. split; [exact (F f Hf)|apply int_of_float_returns].
Qed.

(** The scenario of the specification: performance 0.9, seo 0.3, the other two
    categories absent, on a fresh result; and a report whose performance score
    is too large for [int(score * 100)], with the same seo score. *)
Lemma normalizer_scores_witness :
  let w := Sample.world Sample.site_down Sample.tool_writes_nothing
             (Return Sample.temp_path) (Return JNull) in
  let categories := [("performance", JDict [("score", JFloat 0.9)]);
                     ("seo", JDict [("score", JFloat 0.3)])] in
  let after :=
    results (exec (_process_lighthouse_results w (JDict [("categories", JDict categories)]))
               Sample.idle) in
  let too_large := [("performance", JDict [("score", JFloat 1e307)]);
                    ("seo", JDict [("score", JFloat 0.3)])] in
  let stopped :=
    results (exec (_process_lighthouse_results w (JDict [("categories", JDict too_large)]))
               Sample.idle) in
  (performance_score after = 90 /\ seo_score after = 30
   /\ accessibility_score after = 0 /\ best_practices_score after = 0)
  /\ (performance_score stopped = 0 /\ seo_score stopped = 0
      /\ issues stopped = ["Error processing Lighthouse results: result too large"]).
Proof.
  intros w categories after too_large stopped. split.
  - destruct (normalizer_scores w (JDict [("categories", JDict categories)]) categories
                Sample.idle eq_refl) as ((P & A & B & S) & _).
    fold after in P, A, B, S. rewrite P, A, B, S. vm_compute. auto.
  - destruct (normalizer_scores w (JDict [("categories", JDict too_large)]) too_large
                Sample.idle eq_refl) as ((P & _ & _ & S) & I & _).
    fold stopped in P, S, I. rewrite P, S.
    rewrite (I "performance" OverflowError) by (vm_compute; auto).
    vm_compute. auto.
Defined.

(** ** The fallback heuristics on a page that was fetched *)

Section Fallback.

Context (w : World).

Definition double_quoted_alt : string := " alt=" +:+ Str.dquote.

(** The test of the alt-text check, as the code evaluates it: an image tag,
    and no double-quoted [alt] attribute. The second disjunct of the source,
    [' alt=' not in html], adds nothing: a page without [ alt=] has no
    double-quoted [ alt=] either. *)
Definition alt_text_flagged (html : string) : bool :=
  Str.contains "<img " html && negb (Str.contains double_quoted_alt html).

Lemma startswith_trans a b s :
  Str.startswith a b = true -> Str.startswith b s = true -> Str.startswith a s = true.
Proof.
  revert b s; induction a as [|c a IH]; intros b s Hab Hbs; [reflexivity|].
  destruct b as [|d b]; [discriminate|]. destruct s as [|e s]; [discriminate|].
  simpl in *. apply andb_true_iff in Hab as [Hcd Hab]. apply andb_true_iff in Hbs as [Hde Hbs].
  apply Ascii.eqb_eq in Hcd, Hde. subst. rewrite Ascii.eqb_refl. simpl. eauto.
Qed.

Lemma contains_prefix a b s :
  Str.startswith a b = true -> Str.contains b s = true -> Str.contains a s = true.
Proof.
  intros Hab. induction s as [|c s IH]; simpl; intros H.
  - apply orb_true_iff in H as [H|H]; [|discriminate].
    rewrite (startswith_trans a b _ Hab H). reflexivity.
  - apply orb_true_iff in H as [H|H].
    + rewrite (startswith_trans a b _ Hab H). reflexivity.
    + rewrite (IH H). apply orb_true_r.
Qed.

Lemma alt_condition html :
  Str.contains "<img " html
  && (negb (Str.contains double_quoted_alt html) || negb (Str.contains " alt=" html))
  = alt_text_flagged html.
Proof.
  unfold alt_text_flagged. f_equal.
  destruct (Str.contains double_quoted_alt html) eqn:E; [|reflexivity].
  rewrite (contains_prefix " alt=" double_quoted_alt html); [reflexivity|reflexivity|exact E].
Qed.

Lemma bind_lift_return {A B} (a : A) (k : A -> M B) : bind (lift (Return a)) k = k a.
Proof. reflexivity. Qed.

(** On a page that was fetched, each score is one of the two values of its
    heuristic, and the accessibility score is 40 exactly when the alt-text test
    fires. *)
Lemma perform_basic_analysis_scores url response s :
  get_fallback w url = Return response ->
  let after := results (exec (_perform_basic_analysis w url) s) in
  (performance_score after = 50 \/ performance_score after = 70)
  /\ (seo_score after = 40 \/ seo_score after = 60)
  /\ accessibility_score after
     = (if alt_text_flagged (Str.lower (text response)) then 40 else 50)
  /\ (best_practices_score after = 40 \/ best_practices_score after = 60).
Proof.
  intros H after. subst after.
  unfold _perform_basic_analysis, exec. rewrite H, bind_lift_return. cbv zeta.
  fold double_quoted_alt. rewrite alt_condition.
  destruct (1000000 <? _);
    destruct (negb (Str.contains "<title>" _) || Str.contains "<title></title>" _);
    destruct (negb (Str.contains _ _) && negb (Str.contains "meta content=" _));
    destruct (alt_text_flagged _);
    destruct (filter _ security_headers); simpl; auto.
Qed.

(** The alt-text issue is recorded exactly when the test fires. *)
Lemma perform_basic_analysis_alt_issue url response s :
  get_fallback w url = Return response ->
  ~ In "Images may be missing alt text" (issues (results s)) ->
  In "Images may be missing alt text" (issues (results (exec (_perform_basic_analysis w url) s)))
  <-> alt_text_flagged (Str.lower (text response)) = true.
Proof.
  intros H Hnot.
  unfold _perform_basic_analysis, exec. rewrite H, bind_lift_return. cbv zeta.
  fold double_quoted_alt. rewrite alt_condition.
  destruct (1000000 <? _);
    destruct (negb (Str.contains "<title>" _) || Str.contains "<title></title>" _);
    destruct (negb (Str.contains _ _) && negb (Str.contains "meta content=" _));
    destruct (alt_text_flagged _);
    destruct (filter _ security_headers); simpl;
    rewrite ?in_app_iff; simpl; split; intros G; try reflexivity; try discriminate;
    intuition (try discriminate).
Qed.

End Fallback.

(** ** C1: when the fallback heuristics run *)






(** ** C8: the alt-text check *)

(** C8: the code at a page whose image has a single-quoted [alt] attribute: the
    lowercased text contains [<img] and contains [alt=], and still the
    accessibility score is 40 and the issue is recorded. *)
Theorem single_quoted_alt_is_flagged :
  let body := "<html><head><title>Shop</title></head><body><img src=logo.png alt='Logo'></body></html>" in
  let w := Sample.world (Sample.site_serves body Sample.all_security_headers)
             Sample.tool_writes_nothing (Return Sample.temp_path) (Return JNull) in
  let after := results (exec (_perform_basic_analysis w "https://example.com") Sample.idle) in
  Str.contains "<img" (Str.lower body) = true
  /\ Str.contains "alt=" (Str.lower body) = true
  /\ accessibility_score after = 40
  /\ In "Images may be missing alt text" (issues after).
Proof. vm_compute. repeat split; auto. Qed.

(** ** C9: the postcode extractor *)

Module RegexFacts.
Import Regex.

Lemma append_assoc (a b c : string) : (a +:+ b) +:+ c = a +:+ (b +:+ c).
Proof.
  induction a as [|x a IH]; [reflexivity|].
  change (String x ((a +:+ b) +:+ c) = String x (a +:+ (b +:+ c))).
  rewrite IH. reflexivity.
Qed.

(** Every entry of the matcher is what is left after a string of the pattern. *)
Lemma rep_sound (r : re) (step : string -> list string) :
  (forall s rest, In rest (step s) -> exists m, s = m +:+ rest /\ matches r m) ->
  forall hi lo s rest,
    In rest (rep step lo hi s) -> exists m, s = m +:+ rest /\ matches (Rep r lo hi) m.
Proof.
  intros Hstep. induction hi as [|hi IH]; intros lo s rest H.
  - destruct lo; simpl in H; [|contradiction].
    destruct H as [<-|[]]. exists EmptyString. split; [reflexivity|constructor].
  - simpl in H. apply in_app_or in H as [H|H].
    + apply in_flat_map in H as (mid & H1 & H2).
      apply Hstep in H1 as (m1 & -> & M1).
      apply IH in H2 as (m2 & -> & M2).
      exists (m1 +:+ m2). split; [symmetry; apply append_assoc|].
      constructor; assumption.
    + destruct lo; [|contradiction]. destruct H as [<-|[]].
      exists EmptyString. split; [reflexivity|constructor].
Qed.

Lemma match_re_sound (r : re) :
  forall s rest, In rest (match_re r s) -> exists m, s = m +:+ rest /\ matches r m.
Proof.
  induction r as [p|r1 IH1 r2 IH2|r IH lo hi]; intros s rest H.
  - destruct s as [|c t]; simpl in H; [contradiction|].
    destruct (p c) eqn:E; [|contradiction]. destruct H as [<-|[]].
    exists (String c EmptyString). split; [reflexivity|constructor; exact E].
  - simpl in H. apply in_flat_map in H as (mid & H1 & H2).
    apply IH1 in H1 as (m1 & -> & M1). apply IH2 in H2 as (m2 & -> & M2).
    exists (m1 +:+ m2). split; [symmetry; apply append_assoc|constructor; assumption].
  - apply (rep_sound r (match_re r) IH hi lo s rest H).
Qed.

(** Every string of the pattern at the start of the text is found. *)
Lemma match_re_complete (r : re) (m : string) :
  matches r m -> forall rest, In rest (match_re r (m +:+ rest)).
Proof.
  induction 1 as [p c Hp|r1 r2 s1 s2 _ IH1 _ IH2|r hi|r lo hi s1 s2 _ IH1 _ IH2]; intros rest.
  - simpl. rewrite Hp. left. reflexivity.
  - cbn [match_re]. apply in_flat_map. exists (s2 +:+ rest). split; [|apply IH2].
    rewrite append_assoc. apply IH1.
  - cbn [match_re]. destruct hi; simpl; [left; reflexivity|].
    apply in_or_app. right. left. reflexivity.
  - cbn [match_re rep]. apply in_or_app. left. apply in_flat_map. exists (s2 +:+ rest).
    split; [rewrite append_assoc; apply IH1|apply IH2].
Qed.


Lemma occurs_search_some (r : re) (s : string) : occurs r s -> search r s <> None.
Proof.
  intros (before & m & after & -> & M).
  induction before as [|c b IH]; simpl.
  - pose proof (match_re_complete r m M after) as H.
    destruct (m +:+ after); simpl; destruct (match_re r _); try discriminate; contradiction.
  - destruct (match_re r _); [exact IH|discriminate].
Qed.


Lemma append_nil_r (a : string) : a +:+ EmptyString = a.
Proof.
  induction a as [|x a IH]; [reflexivity|].
  change (String x (a +:+ EmptyString) = String x a). rewrite IH. reflexivity.
Qed.

(** A string that the matcher consumes whole is a string of the pattern. *)
Lemma match_re_whole (r : re) (s : string) : In EmptyString (match_re r s) -> matches r s.
Proof.
  intros H. apply match_re_sound in H as (m & E & M).
  rewrite append_nil_r in E. subst m. exact M.
Qed.

End RegexFacts.

(** The postcode of the scenarios, spaced and unspaced, has the shape of the
    pattern; a postcode in small letters has not (the text is uppercased first). *)
Example postcode_shapes :
  Regex.matches uk_postcode "SW1A 1AA" /\ Regex.matches uk_postcode "SW1A1AA"
  /\ Regex.matches uk_postcode "M1 1AA" /\ ~ Regex.matches uk_postcode "sw1a 1aa".
Proof.
  repeat split; try (apply RegexFacts.match_re_whole; vm_compute; tauto).
  intros M. apply RegexFacts.match_re_complete with (rest := EmptyString) in M.
  vm_compute in M. exact M.
Qed.



(** * Further properties of the analyzer *)

(** ** The basic checks, seen from the final result *)

Definition flags (s : state) : bool * bool :=
  (has_ssl (results s), has_mobile_viewport (results s)).

Lemma bind_lift_raise {A B} (e : exn) (k : A -> M B) : bind (lift (Raise e)) k = lift (Raise e).
Proof. reflexivity. Qed.

(** A total computation followed by an exception, under a handler. *)
Lemma try_except_total_then_raise {B} (m : M unit) (e : exn) (h : exn -> M B) s :
  total m -> try_except (bind m (fun _ => lift (Raise e))) h s = h e (exec m s).
Proof.
  intros Hm. unfold try_except, bind, exec, lift. destruct (Hm s) as [[] E].
  destruct (m s) as [o s1]. simpl in E. subst o. reflexivity.
Qed.

(** Two total computations in a row, under a handler. *)
Lemma try_except_total_then_total (m m2 : M unit) (h : exn -> M unit) s :
  total m -> total m2 ->
  try_except (bind m (fun _ => m2)) h s = (Return tt, exec m2 (exec m s)).
Proof.
  intros Hm Hm2. unfold try_except, bind, exec. destruct (Hm s) as [[] E].
  destruct (m s) as [o s1]. simpl in E. subst o. simpl.
  destruct (Hm2 s1) as [[] E]. destruct (m2 s1) as [o s2]. simpl in E. subst o. reflexivity.
Qed.

Section BasicChecks.

Context (w : World).

Lemma total_if {A} (b : bool) (m1 m2 : M A) : total m1 -> total m2 -> total (if b then m1 else m2).
Proof. destruct b; auto. Qed.

(** The SSL flag after the basic checks. *)
Lemma check_website_basics_has_ssl url s :
  has_ssl (results (exec (_check_website_basics w url) s)) = Str.startswith "https://" url.
Proof.
  unfold exec, _check_website_basics.
  erewrite try_except_bind_return by reflexivity.
  match goal with
  | |- has_ssl (results (snd (try_except ?m ?h ?s1))) = _ =>
      assert (K : steps (keeps (fun s => has_ssl (results s))) (try_except m h))
        by steps_structure;
      exact (K s1)
  end.
Qed.

(** When the page cannot be fetched the issue with the marker is the last one
    the basic checks record. *)
Lemma check_website_basics_unreachable url s detail :
  get_basics w url = Raise (RequestException detail) ->
  exists before,
    issues (results (exec (_check_website_basics w url) s))
    = before ++ ["Error accessing website: " +:+ str_exc w (RequestException detail)].
Proof.
  intros H. unfold exec, _check_website_basics.
  erewrite try_except_bind_return by reflexivity.
  erewrite try_except_bind_return by reflexivity.
  rewrite H, bind_lift_raise.
  rewrite try_except_total_then_raise.
  - eexists. reflexivity.
  - apply total_if; [|apply total_ret].
    apply total_bind; [apply total_modify_results|intros _].
    apply total_try_except. intros _. apply total_ret.
Qed.

(** A status of 400 or more ends the basic checks: its issue is the last
    one, and the viewport flag is not touched. *)
Lemma check_website_basics_http_error url s response :
  get_basics w url = Return response ->
  400 <= status_code response ->
  exists s1,
    has_mobile_viewport (results s1) = has_mobile_viewport (results s)
    /\ exec (_check_website_basics w url) s
       = exec (append_issue ("Website returns HTTP status "
                             +:+ Str.of_Z (status_code response))) s1.
Proof.
  intros H Hst. apply Z.leb_le in Hst. unfold exec, _check_website_basics.
  erewrite try_except_bind_return by reflexivity.
  erewrite try_except_bind_return by reflexivity.
  rewrite H, bind_lift_return. cbv beta. rewrite Hst.
  rewrite try_except_total_then_total.
  - eexists. split; [|reflexivity].
    match goal with
    | |- has_mobile_viewport (results (exec ?m ?s1)) = _ =>
        assert (K : steps (keeps (fun s => has_mobile_viewport (results s))) m)
          by steps_structure;
        exact (K s1)
    end.
  - apply total_if; [|apply total_ret].
    apply total_bind; [apply total_modify_results|intros _].
    apply total_try_except. intros _. apply total_ret.
  - apply total_modify_results.
Qed.

End BasicChecks.

Lemma keeps_exec {X A} (part : state -> X) (m : M A) s :
  steps (keeps part) m -> part (exec m s) = part s.
Proof. intros K. exact (K s). Qed.

Section ResultOfBasics.

Context (w : World) (self : WebsiteAnalyzer).

Lemma process_lighthouse_results_keeps_flags data :
  steps (keeps flags) (_process_lighthouse_results w data).
Proof. unfold _process_lighthouse_results. steps_structure. Qed.

Lemma perform_basic_analysis_keeps_flags url :
  steps (keeps flags) (_perform_basic_analysis w url).
Proof. unfold _perform_basic_analysis. steps_structure. Qed.

Lemma finish_flags s r s' : finish s = (Return r, s') -> flags (mkState (files s') r) = flags s.
Proof. intros H. apply finish_inv in H as (p & _ & -> & _). reflexivity. Qed.

(** The two flags of the final result are those of the basic checks. *)
Lemma analyze_website_flags url s r s' :
  url <> "" ->
  analyze_website w self url s = (Return r, s') ->
  flags (mkState (files s') r) = flags (after_basics w url s).
Proof.
  intros Hurl H. destruct (lighthouse_available self) eqn:Hav.
  - rewrite (analyze_website_tool w self url s Hurl Hav) in H.
    pose proof (run_lighthouse_keeps_results w (effective_url url) (after_basics w url s)) as K.
    destruct (_run_lighthouse w (effective_url url) (after_basics w url s))
      as [[d|e] s1]; [|discriminate].
    unfold keeps in K. simpl in K.
    rewrite (finish_flags _ _ _ H).
    destruct (Py.truthy d).
    + rewrite (keeps_exec flags _ s1 (process_lighthouse_results_keeps_flags d)).
      unfold flags. rewrite K. reflexivity.
    + unfold flags. rewrite K. reflexivity.
  - rewrite (analyze_website_fallback w self url s Hurl Hav) in H.
    rewrite (finish_flags _ _ _ H).
    rewrite (keeps_exec flags _ _ (perform_basic_analysis_keeps_flags (effective_url url))).
    reflexivity.
Qed.

Lemma startswith_http_not_https url :
  Str.startswith "http://" url = true -> Str.startswith "https://" url = false.
Proof.
  intros H.
  destruct url as [|c1 [|c2 [|c3 [|c4 [|c5 u]]]]]; cbn [Str.startswith] in H;
    rewrite ?andb_false_r in H; try discriminate H.
  repeat (apply andb_true_iff in H as [? H]).
  repeat match goal with E : Ascii.eqb _ _ = true |- _ => apply Ascii.eqb_eq in E; subst end.
  reflexivity.
Qed.

Lemma startswith_https_not_http url :
  Str.startswith "https://" url = true -> Str.startswith "http://" url = false.
Proof.
  intros H. destruct (Str.startswith "http://" url) eqn:E; [|reflexivity].
  rewrite (startswith_http_not_https url E) in H. discriminate.
Qed.

(** The SSL flag in terms of the URL as the caller gave it. *)
Lemma effective_url_https url :
  Str.startswith "https://" (effective_url url) = negb (Str.startswith "http://" url).
Proof.
  unfold effective_url.
  destruct (Str.startswith "http://" url) eqn:E1.
  - simpl. apply startswith_http_not_https, E1.
  - destruct (Str.startswith "https://" url) eqn:E2; simpl; [exact E2|reflexivity].
Qed.

(** The final issues contain those of the basic checks. *)
Lemma basic_issue_in_result url s r s' issue :
  url <> "" ->
  analyze_website w self url s = (Return r, s') ->
  In issue (issues (results (after_basics w url s))) -> In issue (issues r).
Proof.
  intros Hurl H I.
  destruct (analyze_website_grows w self url s r s' Hurl H) as (suffix & G & _).
  simpl in G. rewrite G. apply in_or_app. left. exact I.
Qed.

End ResultOfBasics.

(** X1: a URL given without a scheme is analysed as an [https://] URL, so the
    result of a call on a non-empty URL has [has_ssl] false exactly when the
    URL was given with [http://]. *)
Theorem ssl_flag_of_result (w : World) (self : WebsiteAnalyzer) (url : string)
    (s : state) (r : AnalysisResult) (s' : state) :
  url <> "" ->
  analyze_website w self url s = (Return r, s') ->
  has_ssl r = negb (Str.startswith "http://" url).
Proof.
  intros Hurl H.
  pose proof (analyze_website_flags w self url s r s' Hurl H) as F.
  unfold flags in F. simpl in F. injection F as -> _.
  unfold after_basics. rewrite check_website_basics_has_ssl. apply effective_url_https.
Qed.

Lemma ssl_flag_of_result_witness :
  has_ssl site_down_result = negb (Str.startswith "http://" "example.com").
Proof.
  apply (ssl_flag_of_result
           (Sample.world Sample.site_down Sample.tool_writes_nothing
              (Return Sample.temp_path) (Return JNull))
           Sample.without_tool "example.com" Sample.idle site_down_result
           (mkState ∅ site_down_result)); [discriminate|vm_compute; reflexivity].
Defined.

(** X2: when the request for the page raises a [RequestException], the result
    of the call, whenever there is one, has priority 1, whatever the later
    stages find. *)
Theorem unreachable_site_priority (w : World) (self : WebsiteAnalyzer) (url : string)
    (s : state) (r : AnalysisResult) (s' : state) (detail : string) :
  url <> "" ->
  get_basics w (effective_url url) = Raise (RequestException detail) ->
  analyze_website w self url s = (Return r, s') ->
  priority r = Some 1.
Proof.
  intros Hurl G H.
  destruct (check_website_basics_unreachable w (effective_url url) (fresh s) detail G)
    as (before & I).
  assert (R : access_error_recorded r).
  { exists ("Error accessing website: " +:+ str_exc w (RequestException detail)).
    split; [|reflexivity].
    apply (basic_issue_in_result w self url s r s'); [assumption..|].
    unfold after_basics. rewrite I. apply in_or_app. right. left. reflexivity. }
  destruct (final_priority w self url s r s' Hurl H) as (p & P & C).
  pose proof (calculate_priority_rule r p (final_issues_ok w self url s r s' H) C)
    as (R1 & _).
  rewrite P. f_equal. apply R1, R.
Qed.

Lemma unreachable_site_priority_witness : priority site_down_result = Some 1.
Proof.
  apply (unreachable_site_priority
           (Sample.world Sample.site_down Sample.tool_writes_nothing
              (Return Sample.temp_path) (Return JNull))
           Sample.without_tool "example.com" Sample.idle site_down_result
           (mkState ∅ site_down_result) "Connection refused");
    [discriminate|reflexivity|vm_compute; reflexivity].
Defined.

(** X3: when the page answers with a status of 400 or more, the basic checks
    stop there: the result records the status, and its viewport flag stays
    false, whatever the body of the answer contains. *)
Theorem http_error_stops_basic_checks (w : World) (self : WebsiteAnalyzer) (url : string)
    (s : state) (r : AnalysisResult) (s' : state) (response : response) :
  url <> "" ->
  get_basics w (effective_url url) = Return response ->
  400 <= status_code response ->
  analyze_website w self url s = (Return r, s') ->
  has_mobile_viewport r = false
  /\ In ("Website returns HTTP status " +:+ Str.of_Z (status_code response)) (issues r).
Proof.
  intros Hurl G Hst H.
  destruct (check_website_basics_http_error w (effective_url url) (fresh s) response G Hst)
    as (s1 & V & E).
  split.
  - pose proof (analyze_website_flags w self url s r s' Hurl H) as F.
    unfold flags in F. simpl in F. injection F as _ ->.
    unfold after_basics. rewrite E. simpl. rewrite V. reflexivity.
  - apply (basic_issue_in_result w self url s r s'); [assumption..|].
    unfold after_basics. rewrite E. simpl. apply in_or_app. right. left. reflexivity.
Qed.

Definition not_found_result : AnalysisResult :=
  mkResult 70 40 50 40 true false
    [ "Website returns HTTP status 404";
      "Lighthouse not available for detailed analysis";
      "Missing page title";
      "Missing meta description";
      "Missing security headers: Strict-Transport-Security, Content-Security-Policy, X-Content-Type-Options" ]
    (Some 2).

Lemma http_error_stops_basic_checks_witness :
  has_mobile_viewport not_found_result = false
  /\ In "Website returns HTTP status 404" (issues not_found_result).
Proof.
  apply (http_error_stops_basic_checks
           (Sample.world
              (fun url => Return (mkResponse 404 url "<meta name=viewport>" "" []))
              Sample.tool_writes_nothing (Return Sample.temp_path) (Return JNull))
           Sample.without_tool "example.com" Sample.idle not_found_result
           (mkState ∅ not_found_result)
           (mkResponse 404 "https://example.com" "<meta name=viewport>" "" []));
    [discriminate|reflexivity|simpl; lia|vm_compute; reflexivity].
Defined.

(** ** The fallback heuristics, seen from the final result *)

Section FallbackResult.

Context (w : World) (self : WebsiteAnalyzer).

(** When the page cannot be fetched again, the fallback records one issue and
    nothing else. *)
Lemma perform_basic_analysis_failed url e s :
  get_fallback w url = Raise e ->
  exec (_perform_basic_analysis w url) s
  = exec (append_issue ("Error during basic analysis: " +:+ str_exc w e)) s.
Proof.
  intros H. unfold exec, _perform_basic_analysis. rewrite H, bind_lift_raise. reflexivity.
Qed.

Lemma after_basics_scores url s : scores (after_basics w url s) = (0, 0, 0, 0).
Proof.
  unfold after_basics.
  rewrite (keeps_exec scores _ _ (check_website_basics_keeps_scores w (effective_url url))).
  reflexivity.
Qed.

Lemma filter_nil_forallb {A} (f : A -> bool) (l : list A) :
  filter (fun x => negb (f x)) l = [] <-> forallb f l = true.
Proof.
  induction l as [|x l IH]; [simpl; tauto|].
  rewrite filter_cons. simpl. destruct (f x); simpl.
  - first [exact IH | rewrite decide_False by (intros []); exact IH].
  - first [split; discriminate | rewrite decide_True by exact I; split; discriminate].
Qed.

(** The state before the priority is computed, without the tool. *)
Definition fallback_state (url : string) (s : state) : state :=
  exec (_perform_basic_analysis w (effective_url url))
    (exec (append_issue lighthouse_unavailable_issue) (after_basics w url s)).

Lemma fallback_result url s r s' :
  url <> "" -> lighthouse_available self = false ->
  analyze_website w self url s = (Return r, s') ->
  exists p,
    _calculate_priority (results (fallback_state url s)) = Return p
    /\ r = with_priority p (results (fallback_state url s)).
Proof.
  intros Hurl Hav H.
  rewrite (analyze_website_fallback w self url s Hurl Hav) in H.
  apply finish_inv in H as (p & C & -> & _). eauto.
Qed.

End FallbackResult.

(** The title and meta-description tests of the fallback. *)
Definition title_missing (html : string) : bool :=
  negb (Str.contains "<title>" html) || Str.contains "<title></title>" html.

Definition meta_description_missing (html : string) : bool :=
  negb (Str.contains ("meta name=" +:+ Str.dquote +:+ "description" +:+ Str.dquote) html)
  && negb (Str.contains "meta content=" html).

(** X4: on a page the fallback can fetch, the performance score is 50 for a
    body of more than 1,000,000 bytes and 70 otherwise; the SEO score is 40 when
    the title test or the meta-description test fails (also when both do: the
    second assignment repeats the first) and 60 otherwise; the best-practices
    score is 60 when the three security headers are all present, compared
    without regard to case, and 40 otherwise. *)
Theorem fallback_heuristic_scores (w : World) (url : string) (response : response)
    (s : state) :
  get_fallback w url = Return response ->
  let html := Str.lower (text response) in
  let after := results (exec (_perform_basic_analysis w url) s) in
  performance_score after
  = (if 1000000 <? Z.of_nat (String.length (content response)) then 50 else 70)
  /\ seo_score after
     = (if title_missing html || meta_description_missing html then 40 else 60)
  /\ best_practices_score after
     = (if forallb (fun h => header_in h (headers response)) security_headers
        then 60 else 40).
Proof.
  intros H html after. subst after html.
  unfold _perform_basic_analysis, exec. rewrite H, bind_lift_return. cbv zeta.
  fold (title_missing (Str.lower (text response))).
  fold (meta_description_missing (Str.lower (text response))).
  pose proof (filter_nil_forallb (fun h => header_in h (headers response)) security_headers)
    as F.
  destruct (forallb _ security_headers).
  - rewrite (proj2 F eq_refl).
    destruct (1000000 <? _); destruct (title_missing _);
      destruct (meta_description_missing _); destruct (_ && _); simpl; auto.
  - destruct (filter _ security_headers) as [|h l]; [destruct F as [F _]; discriminate F; reflexivity|].
    destruct (1000000 <? _); destruct (title_missing _);
      destruct (meta_description_missing _); destruct (_ && _); simpl; auto.
Qed.

Lemma fallback_heuristic_scores_witness :
  let w := Sample.world (Sample.site_serves Sample.good_page Sample.all_security_headers)
             Sample.tool_writes_nothing (Return Sample.temp_path) (Return JNull) in
  let after := results (exec (_perform_basic_analysis w "https://example.com") Sample.idle) in
  performance_score after = 70 /\ seo_score after = 40 /\ best_practices_score after = 60.
Proof.
  intros w after.
  destruct (fallback_heuristic_scores w "https://example.com"
              (Sample.page "https://example.com" Sample.good_page Sample.all_security_headers)
              Sample.idle eq_refl) as (P & S & B).
  fold after in P, S, B. rewrite P, S, B. vm_compute. auto.
Defined.

(** X5: without the tool, a result of priority 3 has the four scores at the
    best values of the heuristics, 70, 60, 50 and 60, and at most three issues,
    the note about Lighthouse among them: one failed heuristic is enough for
    priority 2. *)
Theorem fallback_priority_3 (w : World) (self : WebsiteAnalyzer) (url : string)
    (s : state) (r : AnalysisResult) (s' : state) :
  url <> "" -> lighthouse_available self = false ->
  analyze_website w self url s = (Return r, s') ->
  priority r = Some 3 ->
  performance_score r = 70 /\ seo_score r = 60 /\ accessibility_score r = 50
  /\ best_practices_score r = 60 /\ (length (issues r) <= 3)%nat.
Proof.
  intros Hurl Hav H P3.
  destruct (final_priority w self url s r s' Hurl H) as (p & P & C).
  assert (p = 3) as -> by congruence.
  pose proof (calculate_priority_rule r 3 (final_issues_ok w self url s r s' H) C)
    as (_ & _ & R3 & _).
  destruct (proj1 R3 eq_refl) as [_ N].
  assert (Hsum : 240 <= performance_score r + seo_score r + accessibility_score r
                        + best_practices_score r).
  { destruct (Z.lt_ge_cases (performance_score r + seo_score r + accessibility_score r
                             + best_practices_score r) 240) as [L|G]; [|exact G].
    exfalso. apply N. left. apply mean_score_lt_60, L. }
  assert (Hlen : (length (issues r) <= 3)%nat).
  { destruct (Nat.le_gt_cases (length (issues r)) 3) as [L|G]; [exact L|].
    exfalso. apply N. right. exact G. }
  destruct (fallback_result w self url s r s' Hurl Hav H) as (q & _ & ->).
  simpl in *. unfold fallback_state in *.
  destruct (get_fallback w (effective_url url)) as [response|e] eqn:G.
  - destruct (perform_basic_analysis_scores w (effective_url url) response
                (exec (append_issue lighthouse_unavailable_issue) (after_basics w url s)) G)
      as (Pf & Sf & Af & Bf).
    simpl in Pf, Sf, Af, Bf.
    destruct (alt_text_flagged _); lia.
  - exfalso.
    rewrite (perform_basic_analysis_failed w (effective_url url) e _ G) in Hsum.
    pose proof (after_basics_scores w url s) as Z0. unfold scores in Z0.
    injection Z0 as Z1 Z2 Z3 Z4. simpl in Hsum. lia.
Qed.

Definition best_page_result : AnalysisResult :=
  mkResult 70 60 50 60 true true ["Lighthouse not available for detailed analysis"] (Some 3).

Lemma fallback_priority_3_witness :
  performance_score best_page_result = 70 /\ seo_score best_page_result = 60
  /\ accessibility_score best_page_result = 50 /\ best_practices_score best_page_result = 60
  /\ (length (issues best_page_result) <= 3)%nat.
Proof.
  apply (fallback_priority_3
           (Sample.world
              (Sample.site_serves
                 "<html><head><title>Shop</title><meta content=x name=viewport></head></html>"
                 Sample.all_security_headers)
              Sample.tool_writes_nothing (Return Sample.temp_path) (Return JNull))
           Sample.without_tool "example.com" Sample.idle best_page_result
           (mkState ∅ best_page_result));
    [discriminate|reflexivity|vm_compute; reflexivity|reflexivity].
Defined.

(** X6: without the tool, when the page cannot be fetched again by the
    fallback, the four scores of the result are 0, its last issue is the error
    of the fallback, and its priority is 1 or 2. *)
Theorem fallback_fetch_failure (w : World) (self : WebsiteAnalyzer) (url : string)
    (s : state) (r : AnalysisResult) (s' : state) (e : exn) :
  url <> "" -> lighthouse_available self = false ->
  get_fallback w (effective_url url) = Raise e ->
  analyze_website w self url s = (Return r, s') ->
  scores (mkState (files s') r) = (0, 0, 0, 0)
  /\ (exists before,
        issues r = before ++ ["Error during basic analysis: " +:+ str_exc w e])
  /\ (priority r = Some 1 \/ priority r = Some 2).
Proof.
  intros Hurl Hav G H.
  destruct (final_priority w self url s r s' Hurl H) as (p & P & C).
  pose proof (calculate_priority_rule r p (final_issues_ok w self url s r s' H) C)
    as (_ & _ & R3 & D).
  destruct (fallback_result w self url s r s' Hurl Hav H) as (q & _ & E).
  unfold fallback_state in E.
  rewrite (perform_basic_analysis_failed w (effective_url url) e _ G) in E.
  pose proof (after_basics_scores w url s) as Z0. unfold scores in Z0.
  injection Z0 as Z1 Z2 Z3 Z4.
  assert (Hs : scores (mkState (files s') r) = (0, 0, 0, 0)).
  { subst r. unfold scores. simpl. rewrite Z1, Z2, Z3, Z4. reflexivity. }
  split; [exact Hs|]. split.
  - subst r. simpl. eexists. reflexivity.
  - rewrite P. destruct D as [->| [->| ->]]; auto.
    exfalso. destruct (proj1 R3 eq_refl) as [_ N]. apply N. left.
    apply mean_score_lt_60. unfold scores in Hs. simpl in Hs.
    injection Hs as -> -> -> ->. lia.
Qed.

Lemma fallback_fetch_failure_witness :
  scores (mkState ∅ site_down_result) = (0, 0, 0, 0)
  /\ (exists before,
        issues site_down_result
        = before ++ ["Error during basic analysis: Connection refused"])
  /\ (priority site_down_result = Some 1 \/ priority site_down_result = Some 2).
Proof.
  apply (fallback_fetch_failure
           (Sample.world Sample.site_down Sample.tool_writes_nothing
              (Return Sample.temp_path) (Return JNull))
           Sample.without_tool "example.com" Sample.idle site_down_result
           (mkState ∅ site_down_result) (RequestException "Connection refused"));
    [discriminate|reflexivity|reflexivity|vm_compute; reflexivity].
Defined.

(** ** The normalizer on reports that are not as expected *)

(** A computation that raises from every state. *)
Definition raises {A} (m : M A) : Prop := forall s, exists e, fst (m s) = Raise e.

Lemma raises_bind_l {A B} (m : M A) (k : A -> M B) : raises m -> raises (bind m k).
Proof.
  intros H s. destruct (H s) as [e E]. exists e. unfold bind.
  destruct (m s) as [o s1]. simpl in E. subst o. reflexivity.
Qed.

Lemma raises_bind_r {A B} (m : M A) (k : A -> M B) :
  (forall a, raises (k a)) -> raises (bind m k).
Proof.
  intros H s. unfold bind. destruct (m s) as [[a|e] s1]; [apply H|].
  exists e. reflexivity.
Qed.

Lemma try_except_raises {A} (m : M A) (h : exn -> M A) s :
  raises m -> exists e s1, try_except m h s = h e s1.
Proof.
  intros H. destruct (H s) as [e E]. unfold try_except.
  destruct (m s) as [o s1]. simpl in E. subst o. eauto.
Qed.

(** The audits the normalizer looks at. *)
Definition inspected_audits : list string :=
  [ "largest-contentful-paint"; "total-blocking-time"; "cumulative-layout-shift";
    "meta-description"; "document-title"; "color-contrast"; "image-alt";
    "is-on-https"; "doctype" ].

Section NormalizerEdges.

Context (w : World).

Lemma audit_issue_raises audits name audit score err message :
  Py.lookup name audits = Some (JDict audit) ->
  Py.lookup "score" audit = Some score ->
  Py.lt_half score = Raise err ->
  raises (audit_issue (JDict audits) name message).
Proof.
  intros Ha Hs He s. exists err.
  unfold audit_issue, bind, lift, Py.contains, Py.getitem, Py.get.
  rewrite Ha. simpl. rewrite Hs, He. reflexivity.
Qed.

Lemma process_lighthouse_results_raises d audits name audit score err :
  Py.lookup "audits" d = Some (JDict audits) ->
  In name inspected_audits ->
  Py.lookup name audits = Some (JDict audit) ->
  Py.lookup "score" audit = Some score ->
  Py.lt_half score = Raise err ->
  forall s, exists e s1,
    _process_lighthouse_results w (JDict d) s
    = append_issue ("Error processing Lighthouse results: " +:+ str_exc w e) s1.
Proof.
  intros Hd Hin Ha Hs He s. unfold _process_lighthouse_results.
  apply try_except_raises.
  do 5 (apply raises_bind_r; intros ?).
  cbn [Py.get]. rewrite Hd, bind_lift_return.
  unfold inspected_audits in Hin. simpl in Hin.
  repeat destruct Hin as [<-|Hin]; try contradiction;
    repeat first
      [ solve [apply raises_bind_l; eapply audit_issue_raises; eassumption]
      | solve [eapply audit_issue_raises; eassumption]
      | apply raises_bind_r; intros ? ].
Qed.

End NormalizerEdges.

(** X7: an audit that is present with a score that cannot be compared with a
    number, such as the [null] that Lighthouse writes for an audit that does not
    apply, makes the normalizer stop: the last issue of the results is then
    the one generic error of the normalizer. *)
Theorem audit_without_number_is_an_error (w : World) (d audits audit : list (string * json))
    (name : string) (score : json) (err : exn) (s : state) :
  Py.lookup "audits" d = Some (JDict audits) ->
  In name inspected_audits ->
  Py.lookup name audits = Some (JDict audit) ->
  Py.lookup "score" audit = Some score ->
  Py.lt_half score = Raise err ->
  exists before e,
    issues (results (exec (_process_lighthouse_results w (JDict d)) s))
    = before ++ ["Error processing Lighthouse results: " +:+ str_exc w e].
Proof.
  intros Hd Hin Ha Hs He.
  destruct (process_lighthouse_results_raises w d audits name audit score err
              Hd Hin Ha Hs He s) as (e & s1 & E).
  exists (issues (results s1)), e. unfold exec. rewrite E. reflexivity.
Qed.

Lemma audit_without_number_is_an_error_witness :
  let w := Sample.world Sample.site_down Sample.tool_writes_nothing
             (Return Sample.temp_path) (Return JNull) in
  let audits := [("image-alt", JDict [("score", JNull)])] in
  exists before e,
    issues (results (exec (_process_lighthouse_results w (JDict [("audits", JDict audits)]))
                       Sample.idle))
    = before ++ ["Error processing Lighthouse results: " +:+ Sample.describe e].
Proof.
  intros w audits.
  apply (audit_without_number_is_an_error w [("audits", JDict audits)] audits
           [("score", JNull)] "image-alt" JNull TypeError Sample.idle);
    [reflexivity|simpl; tauto|reflexivity|reflexivity|reflexivity].
Defined.

(** X8: a report without a [categories] and without an [audits] section
    changes nothing; a report that is not a dictionary at all (a list, a
    number, a string) only adds the generic error of the normalizer. *)
Theorem normalizer_on_foreign_reports (w : World) (data : json) (s : state) :
  match data with
  | JDict d =>
      Py.lookup "categories" d = None -> Py.lookup "audits" d = None ->
      exec (_process_lighthouse_results w data) s = s
  | _ =>
      exec (_process_lighthouse_results w data) s
      = exec (append_issue ("Error processing Lighthouse results: "
                            +:+ str_exc w AttributeError)) s
  end.
Proof.
  destruct data; try reflexivity.
  intros Hc Ha. unfold exec, _process_lighthouse_results. cbn [Py.get].
  rewrite Hc, Ha. destruct s. reflexivity.
Qed.

(** A report that only carries the version of the tool. *)
Lemma normalizer_on_foreign_reports_witness :
  exec (_process_lighthouse_results
          (Sample.world Sample.site_down Sample.tool_writes_nothing
             (Return Sample.temp_path) (Return JNull))
          (JDict [("lighthouseVersion", JStr "11.4.0")])) Sample.idle
  = Sample.idle.
Proof.
  apply (normalizer_on_foreign_reports
           (Sample.world Sample.site_down Sample.tool_writes_nothing
              (Return Sample.temp_path) (Return JNull))
           (JDict [("lighthouseVersion", JStr "11.4.0")]) Sample.idle); reflexivity.
Defined.

(** ** The Chrome process when the tool run raises *)

(** The same computation, state by state. *)
Definition same_run {A} (m m' : M A) : Prop := forall s, m s = m' s.

Lemma same_run_refl {A} (m : M A) : same_run m m.
Proof. intros s. reflexivity. Qed.

Lemma same_run_bind {A B} (m m' : M A) (k k' : A -> M B) :
  same_run m m' -> (forall a, same_run (k a) (k' a)) -> same_run (bind m k) (bind m' k').
Proof.
  intros Hm Hk s. unfold bind. rewrite (Hm s).
  destruct (m' s) as [[a|e] s1]; [apply Hk|reflexivity].
Qed.

Lemma same_run_try_except {A} (m m' : M A) (h h' : exn -> M A) :
  same_run m m' -> (forall e, same_run (h e) (h' e)) ->
  same_run (try_except m h) (try_except m' h').
Proof.
  intros Hm Hh s. unfold try_except. rewrite (Hm s).
  destruct (m' s) as [[a|e] s1]; [reflexivity|apply Hh].
Qed.

Lemma same_run_try_finally {A} (m m' : M A) (f f' : M unit) :
  same_run m m' -> same_run f f' -> same_run (try_finally m f) (try_finally m' f').
Proof.
  intros Hm Hf s. unfold try_finally. rewrite (Hm s).
  destruct (m' s) as [o s1]. rewrite (Hf s1). reflexivity.
Qed.

(** What follows a computation that raises is never run. *)
Lemma same_run_after_raise {A B} (m : M A) (k k' : A -> M B) :
  raises m -> same_run (bind m k) (bind m k').
Proof.
  intros H s. unfold bind. destruct (H s) as [e E].
  destruct (m s) as [o s1]. simpl in E. subst o. reflexivity.
Qed.

(** The world with another behaviour of [chrome_process.terminate]. *)
Definition with_terminate (w : World) (t : effect unit) : World :=
  mkWorld (head_https w) (get_basics w) (get_fallback w) (urlparse_netloc w) (str_exc w)
    (str_value w) (format_1f w) (int_of_str w) (json_load w) (environ w) (path_join w)
    (mkstemp w) (mkdtemp w) (popen w) (subprocess_run w) t.

(** X9: when the run of the tool through [npx] raises (it runs out of time,
    or [npx] is missing), [chrome_process.terminate()] is not reached: the
    outcome of [_run_lighthouse] and the files it leaves are the same whatever
    terminating Chrome would have done. *)
Theorem chrome_not_terminated_when_npx_raises (w : World) (t : effect unit) (url : string)
    (s : state) :
  (forall args fs, exists e fs', subprocess_run w ("npx" :: args) fs = (Raise e, fs')) ->
  _run_lighthouse (with_terminate w t) url s = _run_lighthouse w url s.
Proof.
  intros H. revert s. change (same_run (_run_lighthouse (with_terminate w t) url)
                                       (_run_lighthouse w url)).
  unfold _run_lighthouse.
  apply same_run_bind; [apply same_run_refl|intros output_path].
  apply same_run_try_finally; [|apply same_run_refl].
  apply same_run_try_except; [|intros e; apply same_run_refl].
  apply same_run_bind; [apply same_run_refl|intros chrome_path].
  apply same_run_bind; [|intros ?; apply same_run_refl].
  destruct chrome_path as [chrome_path|]; [|apply same_run_refl].
  apply same_run_bind; [apply same_run_refl|intros user_data_dir].
  apply same_run_try_except; [|intros e; apply same_run_refl].
  apply same_run_bind; [apply same_run_refl|intros _].
  apply same_run_after_raise.
  intros s. unfold run_effect. cbn [subprocess_run with_terminate].
  match goal with
  | |- context [subprocess_run w ("npx" :: ?args) ?fs] =>
      destruct (H args fs) as (e & fs' & ->)
  end.
  exists e. reflexivity.
Qed.

(** A run for X9: Chrome is installed, the tool runs out of time, and
    terminating Chrome would have left a trace in the files. *)
Lemma chrome_not_terminated_when_npx_raises_witness :
  let w := Sample.world Sample.site_down Sample.tool_times_out
             (Return Sample.temp_path) (Return JNull) in
  let s := mkState {["/usr/bin/chromium" := "ELF"]} initial_results in
  _run_lighthouse (with_terminate w (fun fs => (Return tt, <["/tmp/terminated" := ""]> fs)))
    "https://example.com" s
  = _run_lighthouse w "https://example.com" s.
Proof.
  intros w s. apply chrome_not_terminated_when_npx_raises.
  intros args fs. exists TimeoutExpired, fs. reflexivity.
Defined.

(** When the run through [npx] returns, terminating Chrome is reached: its
    effect shows in the files. *)
Remark chrome_terminated_when_npx_returns :
  let w := Sample.world Sample.site_down Sample.tool_writes_nothing
             (Return Sample.temp_path) (Return JNull) in
  let s := mkState {["/usr/bin/chromium" := "ELF"]} initial_results in
  files (exec (_run_lighthouse
                 (with_terminate w (fun fs => (Return tt, <["/tmp/terminated" := ""]> fs)))
                 "https://example.com") s) !! "/tmp/terminated" = Some ""
  /\ files (exec (_run_lighthouse w "https://example.com") s) !! "/tmp/terminated" = None.
Proof. vm_compute. auto. Qed.

(** * Further properties of the helpers *)

(** Every character of the string satisfies the test. *)
Fixpoint all_chars (p : ascii -> bool) (s : string) : bool :=
  match s with
  | EmptyString => true
  | String c t => p c && all_chars p t
  end.

Module LocationFacts.
Import Regex RegexFacts.

Lemma all_chars_app p a b : all_chars p (a +:+ b) = all_chars p a && all_chars p b.
Proof.
  induction a as [|c a IH]; [reflexivity|].
  change (all_chars p (String c (a +:+ b)) = all_chars p (String c a) && all_chars p b).
  simpl. rewrite IH. apply andb_assoc.
Qed.

Lemma all_chars_weaken (p q : ascii -> bool) s :
  (forall c, p c = true -> q c = true) -> all_chars p s = true -> all_chars q s = true.
Proof.
  intros H. induction s as [|c s IH]; simpl; [reflexivity|].
  intros E. apply andb_true_iff in E as [E1 E2]. rewrite (H c E1), (IH E2). reflexivity.
Qed.

Lemma length_app (a b : string) :
  String.length (a +:+ b) = (String.length a + String.length b)%nat.
Proof.
  induction a as [|c a IH]; [reflexivity|].
  change (S (String.length (a +:+ b)) = S (String.length a + String.length b)).
  rewrite IH. reflexivity.
Qed.

(** A blank text strips to nothing, and only a blank text does. *)
Lemma lstrip_blank s : lstrip s = EmptyString <-> all_chars is_whitespace s = true.
Proof.
  induction s as [|c s IH]; simpl; [tauto|].
  destruct (is_whitespace c); simpl; [exact IH|]. split; discriminate.
Qed.

Lemma rstrip_blank s : rstrip s = EmptyString <-> all_chars is_whitespace s = true.
Proof.
  induction s as [|c s IH]; simpl; [tauto|].
  destruct (rstrip s) eqn:E.
  - destruct (is_whitespace c); simpl; [|split; discriminate].
    split; intros _; [apply IH|]; reflexivity.
  - split; [discriminate|]. intros H. apply andb_true_iff in H as [_ H].
    apply IH in H. discriminate.
Qed.

Lemma lstrip_suffix s : exists blanks, s = blanks +:+ lstrip s /\ all_chars is_whitespace blanks = true.
Proof.
  induction s as [|c s (b & E & B)]; [exists EmptyString; auto|].
  simpl. destruct (is_whitespace c) eqn:W.
  - exists (String c b). simpl. rewrite W, B. split; [|reflexivity].
    change (String c s = String c (b +:+ lstrip s)). rewrite <- E. reflexivity.
  - exists EmptyString. auto.
Qed.

Lemma strip_blank s : strip s = EmptyString <-> all_chars is_whitespace s = true.
Proof.
  unfold strip. rewrite rstrip_blank.
  destruct (lstrip_suffix s) as (b & E & B).
  split; intros H.
  - rewrite E, all_chars_app, B, H. reflexivity.
  - rewrite E, all_chars_app in H. apply andb_true_iff in H. tauto.
Qed.

(** The strings of a repeated class. *)
Lemma matches_rep_class p lo hi m :
  matches (Rep (Class p) lo hi) m ->
  all_chars p m = true /\ (lo <= String.length m <= hi)%nat.
Proof.
  remember (Rep (Class p) lo hi) as r eqn:E. intros M. revert lo hi E.
  induction M as [q c Hq|r1 r2 s1 s2 _ _ _ _|r hi'|r lo' hi' s1 s2 M1 _ M2 IH2];
    intros lo hi E; try discriminate.
  - injection E as _ <- _. simpl. split; [reflexivity|lia].
  - injection E as -> <- <-.
    inversion M1 as [q c Hc| | |]; subst.
    destruct (IH2 (Nat.pred lo') hi' eq_refl) as [A L].
    change (String c EmptyString +:+ s2) with (String c s2).
    simpl. rewrite Hc, A. split; [reflexivity|lia].
Qed.

Lemma rep_class_matches p hi m :
  all_chars p m = true -> (String.length m <= hi)%nat -> matches (Rep (Class p) 0 hi) m.
Proof.
  revert hi. induction m as [|c m IH]; intros hi A L; [constructor|].
  simpl in A, L. apply andb_true_iff in A as [Ac Am].
  destruct hi as [|hi]; [lia|].
  apply (matches_rep_more (Class p) 0 hi (String c EmptyString) m).
  - constructor. exact Ac.
  - apply IH; [exact Am|lia].
Qed.

Lemma rep1_class_matches p hi m :
  m <> EmptyString -> all_chars p m = true -> (String.length m <= hi)%nat ->
  matches (Rep (Class p) 1 hi) m.
Proof.
  destruct m as [|c m]; [congruence|]. intros _ A L.
  simpl in A, L. apply andb_true_iff in A as [Ac Am].
  destruct hi as [|hi]; [lia|].
  apply (matches_rep_more (Class p) 1 hi (String c EmptyString) m).
  - constructor. exact Ac.
  - apply rep_class_matches; [exact Am|lia].
Qed.

(** What an anchored match means. *)
Lemma match_anchored_spec r s :
  match_anchored r s = true <->
  matches r s \/ exists m, s = m +:+ newline /\ matches r m.
Proof.
  unfold match_anchored. rewrite existsb_exists. split.
  - intros (rest & I & E). apply match_re_sound in I as (m & -> & M).
    unfold at_end in E. apply orb_true_iff in E as [E|E]; apply String.eqb_eq in E; subst rest.
    + left. rewrite append_nil_r. exact M.
    + right. eauto.
  - intros [M|(m & -> & M)].
    + exists EmptyString. split; [|reflexivity].
      pose proof (match_re_complete r s M EmptyString) as I.
      rewrite append_nil_r in I. exact I.
    + exists newline. split; [|reflexivity]. apply match_re_complete, M.
Qed.

(** The pattern of names accepts the non-empty texts made of its class. *)
Lemma match_anchored_name s :
  match_anchored (name_pattern (String.length s)) s = true <->
  s <> EmptyString /\ all_chars name_char s = true.
Proof.
  rewrite match_anchored_spec. unfold name_pattern. split.
  - intros [M|(m & E & M)]; apply matches_rep_class in M as [A L].
    + split; [|exact A]. intros ->. simpl in L. lia.
    + split; [rewrite E; destruct m; discriminate|].
      rewrite E, all_chars_app, A. reflexivity.
  - intros [N A]. left. apply rep1_class_matches; [assumption..|lia].
Qed.

Lemma lower_char_letter c :
  Str.is_lower (Str.lower_char c) = true -> Str.is_lower c || Str.is_upper c = true.
Proof.
  unfold Str.lower_char. destruct (Str.is_upper c) eqn:U; [intros _; apply orb_true_r|].
  intros ->. reflexivity.
Qed.

(** A text whose lowercase form is made of small letters is made of letters. *)
Lemma lower_letters s :
  all_chars Str.is_lower (Str.lower s) = true ->
  all_chars (fun c => Str.is_lower c || Str.is_upper c) s = true.
Proof.
  induction s as [|c s IH]; [reflexivity|].
  change (Str.lower (String c s)) with (String (Str.lower_char c) (Str.lower s)).
  simpl. intros H. apply andb_true_iff in H as [Hc Hs].
  rewrite (lower_char_letter c Hc), (IH Hs). reflexivity.
Qed.

Lemma lower_length s : String.length (Str.lower s) = String.length s.
Proof.
  induction s as [|c s IH]; [reflexivity|].
  change (S (String.length (Str.lower s)) = S (String.length s)). rewrite IH. reflexivity.
Qed.

(** The listed places are made of at least three small letters, so a text
    found in the list passes the test on names as well. *)
Lemma major_location_is_name s :
  existsb (String.eqb (Str.lower s)) major_uk_locations = true ->
  (3 <= String.length s)%nat /\ all_chars name_char s = true.
Proof.
  intros H. apply existsb_exists in H as (city & I & E). apply String.eqb_eq in E.
  assert (G : forallb (fun c => (3 <=? String.length c)%nat && all_chars Str.is_lower c)
                major_uk_locations = true) by reflexivity.
  rewrite forallb_forall in G. specialize (G city I).
  apply andb_true_iff in G as [G1 G2]. apply Nat.leb_le in G1. rewrite <- E in G1, G2.
  rewrite lower_length in G1. split; [exact G1|].
  apply (all_chars_weaken (fun c => Str.is_lower c || Str.is_upper c)); [|apply lower_letters, G2].
  intros c Hc. unfold name_char. rewrite Hc. reflexivity.
Qed.

End LocationFacts.

(** The uppercased text has the shape of a postcode, up to a newline after it. *)
Definition postcode_like (text : string) : Prop :=
  Regex.matches uk_postcode text
  \/ exists m, text = m +:+ newline /\ Regex.matches uk_postcode m.

(** X10: [validate_uk_location] accepts exactly the texts that are not blank
    and that either have the shape of a postcode when uppercased or consist of
    three or more letters, whitespace characters, hyphens and apostrophes. The
    list of major places never decides: every text found in it passes the last
    test too. *)
Theorem validate_uk_location_accepts (location : string) :
  validate_uk_location location = true <->
  all_chars is_whitespace location = false
  /\ (postcode_like (Str.upper location)
      \/ ((3 <= String.length location)%nat /\ all_chars name_char location = true)).
Proof.
  unfold validate_uk_location, postcode_like.
  rewrite <- LocationFacts.match_anchored_spec.
  pose proof (LocationFacts.strip_blank location) as B.
  pose proof (LocationFacts.match_anchored_name location) as N.
  pose proof (LocationFacts.major_location_is_name location) as C.
  destruct (existsb (String.eqb (Str.lower location)) major_uk_locations).
  all: destruct (match_anchored uk_postcode (Str.upper location)).
  all: destruct (match_anchored (name_pattern _) location).
  all: destruct (Nat.leb_spec 3 (String.length location)) as [L|L].
  all: destruct (String.eqb_spec (strip location) EmptyString) as [E|E].
  all: destruct (String.eqb_spec location EmptyString) as [Hne|Hne].
  all: destruct (all_chars is_whitespace location) eqn:W.
  all: cbn [orb andb].
  all: try (split; [reflexivity|discriminate]).
  all: try (exfalso; apply E, B; reflexivity).
  all: try (apply B in E; discriminate E).
  all: try (subst location; discriminate W).
  all: try (split; [discriminate|intros [D _]; discriminate D]).
  all: try (split; [intros _|reflexivity]; split; [reflexivity|]; tauto).
  all: try (split; [intros _|reflexivity]; split; [reflexivity|]; right; apply C; reflexivity).
  all: try (split; [intros _|reflexivity]; split; [reflexivity|]; right; split; [exact L|apply N; reflexivity]).
  all: split; [discriminate|]; intros [_ [D|[L' A]]]; [discriminate D|]; try lia.
  all: try (destruct C as [C1 _]; [reflexivity|lia]).
  all: assert (F : false = true) by (apply N; split; assumption); discriminate F.
Qed.

(** ** The form of the extracted postcode *)

(** The pattern with the space made mandatory:
    [[A-Z]{1,2}[0-9][A-Z0-9]? [0-9][A-Z]{2}] *)
Definition spaced_postcode : Regex.re :=
  Regex.Seq (Regex.Rep (Regex.Class Str.is_upper) 1 2)
 (Regex.Seq (Regex.Class Str.is_digit)
 (Regex.Seq (Regex.Rep (Regex.Class upper_or_digit) 0 1)
 (Regex.Seq (Regex.Class is_space)
 (Regex.Seq (Regex.Class Str.is_digit)
            (Regex.Rep (Regex.Class Str.is_upper) 2 2))))).

(** The spacing step of [extract_postcode], on the matched text. *)
Definition respace (postcode : string) : string :=
  if negb (Str.contains " " postcode) then
    Str.take (String.length postcode - 3) postcode
    +:+ " " +:+ Str.drop (String.length postcode - 3) postcode
  else postcode.

Module PostcodeFacts.
Import Regex RegexFacts LocationFacts.

Lemma matches_seq_inv r1 r2 m :
  matches (Seq r1 r2) m -> exists s1 s2, m = s1 +:+ s2 /\ matches r1 s1 /\ matches r2 s2.
Proof. inversion 1; subst; eauto. Qed.

Lemma matches_class_inv p m : matches (Class p) m -> exists c, m = String c EmptyString /\ p c = true.
Proof. inversion 1; subst; eauto. Qed.

Lemma take_app_length (m rest : string) :
  Str.take (String.length (m +:+ rest) - String.length rest) (m +:+ rest) = m.
Proof.
  rewrite length_app.
  replace (String.length m + String.length rest - String.length rest)%nat
    with (String.length m) by lia.
  induction m as [|c m IH]; [destruct rest; reflexivity|].
  change (String c (Str.take (String.length m) (m +:+ rest)) = String c m).
  rewrite IH. reflexivity.
Qed.

(** What [search] returns is a string of the pattern, found in the text. *)
Lemma search_some_group (r : re) (s g : string) :
  search r s = Some g -> exists before after, s = before +:+ g +:+ after /\ matches r g.
Proof.
  induction s as [|c t IH]; simpl.
  - destruct (match_re r EmptyString) as [|rest l] eqn:E; [discriminate|].
    destruct (match_re_sound r EmptyString rest) as (m & Hs & M); [rewrite E; left; reflexivity|].
    destruct m; [|discriminate]. destruct rest; [|discriminate].
    intros [= <-]. exists EmptyString, EmptyString. auto.
  - destruct (match_re r (String c t)) as [|rest l] eqn:E.
    + intros H. destruct (IH H) as (before & after & -> & M).
      exists (String c before), after. auto.
    + destruct (match_re_sound r (String c t) rest) as (m & Hs & M); [rewrite E; left; reflexivity|].
      change (Some (Str.take (String.length (String c t) - String.length rest) (String c t)) = Some g
              -> exists before after, String c t = before +:+ g +:+ after /\ matches r g).
      rewrite Hs, take_app_length. intros [= <-]. exists EmptyString, rest. auto.
Qed.

Lemma extract_postcode_some text p :
  extract_postcode text = Some p ->
  exists before m after,
    Str.upper text = before +:+ m +:+ after /\ matches uk_postcode m /\ p = respace m.
Proof.
  unfold extract_postcode. destruct (String.eqb text EmptyString); [discriminate|].
  destruct (search uk_postcode (Str.upper text)) as [m|] eqn:E; [|discriminate].
  apply search_some_group in E as (before & after & E & M).
  intros H. exists before, m, after. split; [exact E|]. split; [exact M|].
  unfold respace. destruct (negb (Str.contains " " m)); congruence.
Qed.

(** The classes of the pattern exclude one another where they should. *)
Lemma upper_kind c :
  Str.is_upper c = true ->
  Str.is_digit c = false /\ is_space c = false /\ upper_or_digit c = true
  /\ Str.upper_char c = c /\ Ascii.eqb " " c = false.
Proof.
  destruct c as [[] [] [] [] [] [] [] []]; vm_compute; intros H; try discriminate H;
    repeat split.
Qed.

Lemma digit_kind c :
  Str.is_digit c = true ->
  Str.is_upper c = false /\ is_space c = false /\ upper_or_digit c = true
  /\ Str.upper_char c = c /\ Ascii.eqb " " c = false.
Proof.
  destruct c as [[] [] [] [] [] [] [] []]; vm_compute; intros H; try discriminate H;
    repeat split.
Qed.

Lemma upper_or_digit_kind c :
  upper_or_digit c = true ->
  is_space c = false /\ Str.upper_char c = c /\ Ascii.eqb " " c = false.
Proof.
  destruct c as [[] [] [] [] [] [] [] []]; vm_compute; intros H; try discriminate H;
    repeat split.
Qed.

Lemma space_kind c : is_space c = true -> c = " "%char.
Proof. apply Ascii.eqb_eq. Qed.

(** The strings of the pattern, spelled out. *)
Lemma postcode_shape m :
  matches uk_postcode m ->
  exists u d x sp d2 a b,
    m = u +:+ String d (x +:+ sp +:+ String d2 (String a (String b EmptyString)))
    /\ (all_chars Str.is_upper u = true /\ (1 <= String.length u <= 2)%nat)
    /\ Str.is_digit d = true
    /\ (all_chars upper_or_digit x = true /\ (String.length x <= 1)%nat)
    /\ (all_chars is_space sp = true /\ (String.length sp <= 1)%nat)
    /\ Str.is_digit d2 = true /\ Str.is_upper a = true /\ Str.is_upper b = true.
Proof.
  unfold uk_postcode. intros M.
  apply matches_seq_inv in M as (u & m1 & -> & U & M).
  apply matches_seq_inv in M as (d' & m2 & -> & D & M).
  apply matches_seq_inv in M as (x & m3 & -> & X & M).
  apply matches_seq_inv in M as (sp & m4 & -> & S & M).
  apply matches_seq_inv in M as (d2' & uu & -> & D2 & UU).
  apply matches_class_inv in D as (d & -> & D), D2 as (d2 & -> & D2).
  apply matches_rep_class in U, X, S, UU. destruct UU as [UU L].
  destruct uu as [|a [|b [|c uu]]]; simpl in L; try lia.
  simpl in UU. rewrite andb_true_r in UU. apply andb_true_iff in UU as [A B].
  exists u, d, x, sp, d2, a, b. repeat split; try tauto.
Qed.

Ltac kinds :=
  repeat match goal with
  | H : Str.is_upper ?c = true |- _ =>
      let K := fresh in pose proof (upper_kind c H) as K; revert H;
      destruct K as (? & ? & ? & ? & ?)
  | H : Str.is_digit ?c = true |- _ =>
      let K := fresh in pose proof (digit_kind c H) as K; revert H;
      destruct K as (? & ? & ? & ? & ?)
  | H : upper_or_digit ?c = true |- _ =>
      let K := fresh in pose proof (upper_or_digit_kind c H) as K; revert H;
      destruct K as (? & ? & ?)
  end; intros.

Lemma append_cons c (a b : string) : String c a +:+ b = String c (a +:+ b).
Proof. reflexivity. Qed.

Lemma append_nil_l (b : string) : EmptyString +:+ b = b.
Proof. reflexivity. Qed.

Lemma space_facts :
  Str.is_upper " " = false /\ Str.is_digit " " = false /\ upper_or_digit " " = false
  /\ is_space " " = true /\ Str.upper_char " " = " "%char.
Proof. repeat split. Qed.

Ltac evaluate :=
  repeat (progress (cbn [search match_re rep flat_map app Nat.pred String.length Nat.sub
                         Str.take Str.drop Str.contains Str.startswith Str.upper Str.map
                         negb andb orb String.eqb];
                    rewrite ?append_cons, ?append_nil_l, ?Ascii.eqb_refl;
                    repeat match goal with
                    | H : _ = _ |- _ => rewrite !H
                    end)).

(** The spacing step on a string of the pattern: the space goes before the last
    three characters unless it is there, the result has the spaced shape and
    is a fixed point of the extraction. *)
Lemma respace_match m :
  matches uk_postcode m ->
  exists outward sp inward,
    m = outward +:+ sp +:+ inward
    /\ (sp = EmptyString \/ sp = " ")
    /\ String.length inward = 3%nat
    /\ respace m = outward +:+ " " +:+ inward
    /\ matches spaced_postcode (respace m)
    /\ extract_postcode (respace m) = Some (respace m).
Proof.
  intros M. apply postcode_shape in M
    as (u & d & x & sp & d2 & a & b & -> & [U LU] & D & [X LX] & [S LS] & D2 & A & B).
  destruct u as [|u1 [|u2 [|u3 u]]]; simpl in LU; try lia;
  destruct x as [|x1 [|x2 x]]; simpl in LX; try lia;
  destruct sp as [|s1 [|s2 sp]]; simpl in LS; try lia;
  simpl in U, X, S; rewrite ?andb_true_r in U, X, S;
  repeat match goal with
  | H : _ && _ = true |- _ => apply andb_true_iff in H as [? ?]
  | H : is_space _ = true |- _ => apply space_kind in H; subst
  end;
  match goal with
  | |- exists o s i, ?m = _ /\ _ =>
      exists (Str.take (String.length (respace m) - 4) (respace m)),
             (if Str.contains " " m then " " else EmptyString),
             (Str.drop (String.length m - 3) m)
  end;
  unfold respace, extract_postcode, uk_postcode; kinds;
  destruct space_facts as (? & ? & ? & ? & ?); evaluate.
  all: repeat split; try reflexivity; try (left; reflexivity); try (right; reflexivity).
  all: try (apply match_re_whole; unfold spaced_postcode; evaluate).
  all: try (left; reflexivity).
Qed.

End PostcodeFacts.

(** X11: a postcode that [extract_postcode] returns has the spaced shape
    [[A-Z]{1,2}[0-9][A-Z0-9]? [0-9][A-Z]{2}], and it is read off the uppercased
    text: its two halves stand there next to one another or with one space
    between them, the second half being the last three characters. *)
Theorem extract_postcode_form (text p : string) :
  extract_postcode text = Some p ->
  Regex.matches spaced_postcode p
  /\ exists before outward sp inward after,
       Str.upper text = before +:+ (outward +:+ sp +:+ inward) +:+ after
       /\ (sp = EmptyString \/ sp = " ")
       /\ String.length inward = 3%nat
       /\ p = outward +:+ " " +:+ inward.
Proof.
  intros H. apply PostcodeFacts.extract_postcode_some in H as (before & m & after & E & M & ->).
  destruct (PostcodeFacts.respace_match m M) as (outward & sp & inward & Em & Hsp & L & R & C & _).
  split; [exact C|]. exists before, outward, sp, inward, after.
  rewrite <- Em. auto.
Qed.

(** A postcode in small letters, unspaced, inside a sentence. *)
Lemma extract_postcode_form_witness :
  extract_postcode "visit us at sw1a1aa today" = Some "SW1A 1AA"
  /\ Regex.matches spaced_postcode "SW1A 1AA".
Proof.
  split; [reflexivity|].
  apply (extract_postcode_form "visit us at sw1a1aa today" "SW1A 1AA"). reflexivity.
Defined.

(** X12: extraction is idempotent: a postcode that [extract_postcode] returns
    is returned unchanged when it is given to [extract_postcode] again. *)
Theorem extract_postcode_idempotent (text p : string) :
  extract_postcode text = Some p -> extract_postcode p = Some p.
Proof.
  intros H. apply PostcodeFacts.extract_postcode_some in H as (before & m & after & E & M & ->).
  destruct (PostcodeFacts.respace_match m M) as (outward & sp & inward & _ & _ & _ & _ & _ & I).
  exact I.
Qed.

Lemma extract_postcode_idempotent_witness :
  extract_postcode "office: m11aa, Manchester" = Some "M1 1AA"
  /\ extract_postcode "M1 1AA" = Some "M1 1AA".
Proof.
  split; [reflexivity|].
  apply (extract_postcode_idempotent "office: m11aa, Manchester" "M1 1AA"). reflexivity.
Defined.

(** X13: a location that has the shape of a postcode when uppercased is
    accepted by [validate_uk_location], and [extract_postcode] finds a postcode
    in it. *)
Theorem validated_postcode_is_extracted (location : string) :
  postcode_like (Str.upper location) ->
  validate_uk_location location = true
  /\ exists p, extract_postcode location = Some p /\ Regex.matches spaced_postcode p.
Proof.
  intros P.
  assert (O : Regex.occurs uk_postcode (Str.upper location)).
  { destruct P as [M|(m & E & M)].
    - exists EmptyString, (Str.upper location), EmptyString.
      split; [|exact M]. rewrite RegexFacts.append_nil_r. reflexivity.
    - exists EmptyString, m, newline. split; [exact E|exact M]. }
  assert (N : forall m, Regex.matches uk_postcode m ->
              all_chars (fun c => negb (Str.is_upper c)) m = false).
  { intros m M. apply PostcodeFacts.postcode_shape in M
      as (u & d & x & sp & d2 & a & b & -> & [Uu LU] & _).
    destruct u as [|u1 u]; simpl in LU; [lia|]. simpl in Uu.
    apply andb_true_iff in Uu as [Uu _].
    rewrite PostcodeFacts.append_cons. simpl. rewrite Uu. reflexivity. }
  assert (W : all_chars is_whitespace location = false).
  { destruct (all_chars is_whitespace location) eqn:W; [|reflexivity]. exfalso.
    assert (U : all_chars (fun c => negb (Str.is_upper c)) (Str.upper location) = true).
    { clear P O. induction location as [|c s IH]; [reflexivity|].
      change (negb (Str.is_upper (Str.upper_char c))
              && all_chars (fun c => negb (Str.is_upper c)) (Str.upper s) = true).
      simpl in W. apply andb_true_iff in W as [Wc Ws]. rewrite (IH Ws), andb_true_r.
      revert Wc. clear. destruct c as [[] [] [] [] [] [] [] []]; vm_compute; congruence. }
    destruct P as [M|(m & E & M)].
    - rewrite (N _ M) in U. discriminate U.
    - rewrite E, LocationFacts.all_chars_app, (N _ M) in U. discriminate U. }
  assert (Ne : location <> EmptyString) by (intros ->; discriminate W).
  split.
  - unfold validate_uk_location.
    destruct (String.eqb_spec location EmptyString) as [->|_]; [congruence|].
    destruct (String.eqb_spec (strip location) EmptyString) as [B|_].
    + apply LocationFacts.strip_blank in B. congruence.
    + cbn [orb]. rewrite (proj2 (LocationFacts.match_anchored_spec _ _) P). reflexivity.
  - unfold extract_postcode.
    destruct (String.eqb_spec location EmptyString) as [->|_]; [congruence|].
    destruct (Regex.search uk_postcode (Str.upper location)) as [g|] eqn:S.
    + apply PostcodeFacts.search_some_group in S as (before & after & _ & M).
      destruct (PostcodeFacts.respace_match g M) as (? & ? & ? & _ & _ & _ & _ & C & _).
      exists (respace g). split; [|exact C].
      unfold respace. destruct (negb (Str.contains " " g)); reflexivity.
    + exfalso. exact (RegexFacts.occurs_search_some _ _ O S).
Qed.

Lemma validated_postcode_is_extracted_witness :
  validate_uk_location "sw1a 1aa" = true
  /\ exists p, extract_postcode "sw1a 1aa" = Some p /\ Regex.matches spaced_postcode p.
Proof.
  apply (validated_postcode_is_extracted "sw1a 1aa").
  left. apply RegexFacts.match_re_whole. vm_compute. auto.
Defined.

(** ** The formatted business type *)

(** A word: not empty, no whitespace in it. *)
Definition is_word (w : string) : bool :=
  negb (String.eqb w EmptyString) && all_chars (fun c => negb (is_whitespace c)) w.

(** A word as the formatter leaves it: capitalised, and not a common word. *)
Definition formatted_word (w : string) : Prop :=
  is_word w = true /\ capitalize w = w /\ is_common w = false.

Module FormatFacts.
Import LocationFacts.

Lemma whitespace_upper_char c : is_whitespace (Str.upper_char c) = is_whitespace c.
Proof. destruct c as [[] [] [] [] [] [] [] []]; reflexivity. Qed.

Lemma whitespace_lower_char c : is_whitespace (Str.lower_char c) = is_whitespace c.
Proof. destruct c as [[] [] [] [] [] [] [] []]; reflexivity. Qed.

Lemma lower_upper_char c : Str.lower_char (Str.upper_char c) = Str.lower_char c.
Proof. destruct c as [[] [] [] [] [] [] [] []]; reflexivity. Qed.

Lemma lower_lower_char c : Str.lower_char (Str.lower_char c) = Str.lower_char c.
Proof. destruct c as [[] [] [] [] [] [] [] []]; reflexivity. Qed.

Lemma upper_upper_char c : Str.upper_char (Str.upper_char c) = Str.upper_char c.
Proof. destruct c as [[] [] [] [] [] [] [] []]; reflexivity. Qed.

Lemma lower_lower s : Str.lower (Str.lower s) = Str.lower s.
Proof.
  induction s as [|c s IH]; [reflexivity|].
  change (String (Str.lower_char (Str.lower_char c)) (Str.lower (Str.lower s))
          = String (Str.lower_char c) (Str.lower s)).
  rewrite lower_lower_char, IH. reflexivity.
Qed.

Lemma lower_capitalize w : Str.lower (capitalize w) = Str.lower w.
Proof.
  destruct w as [|c t]; [reflexivity|].
  change (String (Str.lower_char (Str.upper_char c)) (Str.lower (Str.lower t))
          = String (Str.lower_char c) (Str.lower t)).
  rewrite lower_upper_char, lower_lower. reflexivity.
Qed.

Lemma capitalize_capitalize w : capitalize (capitalize w) = capitalize w.
Proof.
  destruct w as [|c t]; [reflexivity|].
  unfold capitalize. rewrite upper_upper_char, lower_lower. reflexivity.
Qed.

Lemma is_common_capitalize w : is_common (capitalize w) = is_common w.
Proof. unfold is_common. rewrite lower_capitalize. reflexivity. Qed.

Lemma no_whitespace_lower s :
  all_chars (fun c => negb (is_whitespace c)) (Str.lower s)
  = all_chars (fun c => negb (is_whitespace c)) s.
Proof.
  induction s as [|c s IH]; [reflexivity|].
  change (negb (is_whitespace (Str.lower_char c))
          && all_chars (fun c => negb (is_whitespace c)) (Str.lower s)
          = negb (is_whitespace c) && all_chars (fun c => negb (is_whitespace c)) s).
  rewrite whitespace_lower_char, IH. reflexivity.
Qed.

Lemma is_word_capitalize w : is_word (capitalize w) = is_word w.
Proof.
  destruct w as [|c t]; [reflexivity|].
  unfold is_word, capitalize. cbn [String.eqb negb andb all_chars].
  rewrite whitespace_upper_char, no_whitespace_lower. reflexivity.
Qed.

Lemma is_word_cons c t :
  is_word (String c t) = negb (is_whitespace c) && all_chars (fun c => negb (is_whitespace c)) t.
Proof. reflexivity. Qed.

(** [split] returns words. *)
Lemma split_words s : Forall (fun w => is_word w = true) (split s).
Proof.
  induction s as [|c t IH]; [constructor|].
  cbn [split]. destruct (is_whitespace c) eqn:W; [exact IH|].
  destruct (starts_word t).
  - destruct (split t) as [|w ws]; constructor.
    + rewrite is_word_cons, W. reflexivity.
    + constructor.
    + inversion IH as [|? ? Hw _]; subst. rewrite is_word_cons, W.
      apply andb_true_iff in Hw as [_ Hw]. exact Hw.
    + inversion IH; assumption.
  - constructor; [rewrite is_word_cons, W; reflexivity|exact IH].
Qed.

(** A word followed by a gap is the first word of the text. *)
Lemma split_word_app w rest :
  is_word w = true -> starts_word rest = false -> split (w +:+ rest) = w :: split rest.
Proof.
  intros Hw Hr. induction w as [|c w IH]; [discriminate Hw|].
  rewrite is_word_cons in Hw. apply andb_true_iff in Hw as [Hc Hw].
  apply negb_true_iff in Hc.
  change (split (String c (w +:+ rest)) = String c w :: split rest).
  cbn [split]. rewrite Hc.
  destruct w as [|d w].
  - change (EmptyString +:+ rest) with rest. rewrite Hr. reflexivity.
  - assert (Hd : is_word (String d w) = true) by (rewrite is_word_cons; exact Hw).
    rewrite (IH Hd).
    change (starts_word (String d w +:+ rest)) with (negb (is_whitespace d)).
    simpl in Hw. apply andb_true_iff in Hw as [-> _]. reflexivity.
Qed.

(** Joining words with single spaces and splitting again gives the words back. *)
Lemma split_join ws :
  Forall (fun w => is_word w = true) ws -> split (Str.join " " ws) = ws.
Proof.
  unfold Str.join. induction 1 as [|w ws Hw Hws IH]; [reflexivity|].
  destruct ws as [|v ws].
  - cbn [String.concat]. rewrite <- (RegexFacts.append_nil_r w) at 1.
    apply (split_word_app w EmptyString Hw). reflexivity.
  - change (String.concat " " (w :: v :: ws)) with (w +:+ String " " (String.concat " " (v :: ws))).
    rewrite (split_word_app w _ Hw) by reflexivity.
    change (split (String " " (String.concat " " (v :: ws)))) with (split (String.concat " " (v :: ws))).
    rewrite IH. reflexivity.
Qed.

Lemma join_words_not_empty w ws :
  is_word w = true -> Str.join " " (w :: ws) <> EmptyString.
Proof.
  destruct w as [|c t]; [discriminate|]. intros _. unfold Str.join.
  destruct ws; discriminate.
Qed.

Lemma filter_all {A} (f : A -> bool) l : Forall (fun x => f x = true) l -> List.filter f l = l.
Proof. induction 1 as [|x l Hx _ IH]; simpl; [reflexivity|]. rewrite Hx, IH. reflexivity. Qed.

Lemma map_fixed {A} (f : A -> A) l : Forall (fun x => f x = x) l -> List.map f l = l.
Proof. induction 1 as [|x l Hx _ IH]; simpl; [reflexivity|]. rewrite Hx, IH. reflexivity. Qed.

(** The formatter on words that are formatted already. *)
Lemma format_formatted ws :
  ws <> [] -> Forall formatted_word ws ->
  format_business_type (Str.join " " ws) = Str.join " " ws.
Proof.
  intros Hne F.
  assert (W : Forall (fun w => is_word w = true) ws)
    by (eapply List.Forall_impl; [|exact F]; intros w (H & _); exact H).
  unfold format_business_type. rewrite (split_join ws W).
  rewrite filter_all
    by (eapply List.Forall_impl; [|exact F]; intros w (_ & _ & H); cbn beta; rewrite H; reflexivity).
  rewrite map_fixed by (eapply List.Forall_impl; [|exact F]; intros w (_ & H & _); exact H).
  destruct ws as [|w ws]; [congruence|].
  inversion W as [|? ? Hw _]; subst.
  destruct (String.eqb_spec (Str.join " " (w :: ws)) EmptyString) as [E|_]; [|reflexivity].
  exfalso. exact (join_words_not_empty w ws Hw E).
Qed.

(** What the formatter returns: formatted words joined by single spaces. *)
Lemma format_words s :
  exists ws, ws <> [] /\ Forall formatted_word ws /\ format_business_type s = Str.join " " ws.
Proof.
  assert (B : exists ws, ws <> [] /\ Forall formatted_word ws
                         /\ "Business" = Str.join " " ws).
  { exists ["Business"]. split; [discriminate|]. split; [|reflexivity].
    constructor; [|constructor]. repeat split. }
  unfold format_business_type.
  destruct (String.eqb s EmptyString); [exact B|].
  pose proof (split_words s) as W.
  set (fw := List.filter (fun w => negb (is_common w)) (split s)).
  assert (F : Forall (fun w => is_word w = true /\ is_common w = false) fw).
  { apply List.Forall_forall. intros w I. apply filter_In in I as [I C].
    rewrite List.Forall_forall in W. split; [apply W, I|apply negb_true_iff, C]. }
  destruct fw as [|w fw]; [exact B|].
  exists (List.map capitalize (w :: fw)). split; [discriminate|]. split; [|reflexivity].
  apply List.Forall_forall. intros v I. apply in_map_iff in I as (u & <- & I).
  rewrite List.Forall_forall in F. destruct (F u I) as [Hw Hc].
  split; [rewrite is_word_capitalize; exact Hw|].
  split; [apply capitalize_capitalize|rewrite is_common_capitalize; exact Hc].
Qed.

End FormatFacts.

(** X14: what [format_business_type] returns is never empty; it consists of
    words separated by single spaces, without whitespace at either end, and
    each word is capitalised and is not one of the common words. *)
Theorem format_business_type_shape (business_type : string) :
  format_business_type business_type <> EmptyString
  /\ Str.join " " (split (format_business_type business_type))
     = format_business_type business_type
  /\ Forall formatted_word (split (format_business_type business_type)).
Proof.
  destruct (FormatFacts.format_words business_type) as (ws & Hne & F & ->).
  assert (W : Forall (fun w => is_word w = true) ws)
    by (eapply List.Forall_impl; [|exact F]; intros w (H & _); exact H).
  rewrite (FormatFacts.split_join ws W). split; [|split; [reflexivity|exact F]].
  destruct ws as [|w ws]; [congruence|]. inversion W; subst.
  apply FormatFacts.join_words_not_empty. assumption.
Qed.

(** A character of the ASCII range. *)
Definition is_ascii (c : ascii) : bool := (nat_of_ascii c <? 128)%nat.

Module FormatAscii.
Import LocationFacts.

Lemma is_ascii_upper_char c : is_ascii (Str.upper_char c) = is_ascii c.
Proof. destruct c as [[] [] [] [] [] [] [] []]; reflexivity. Qed.

Lemma is_ascii_lower_char c : is_ascii (Str.lower_char c) = is_ascii c.
Proof. destruct c as [[] [] [] [] [] [] [] []]; reflexivity. Qed.

Lemma is_ascii_lower s : all_chars is_ascii (Str.lower s) = all_chars is_ascii s.
Proof.
  induction s as [|c s IH]; [reflexivity|].
  change (is_ascii (Str.lower_char c) && all_chars is_ascii (Str.lower s)
          = is_ascii c && all_chars is_ascii s).
  rewrite is_ascii_lower_char, IH. reflexivity.
Qed.

Lemma is_ascii_capitalize w : all_chars is_ascii (capitalize w) = all_chars is_ascii w.
Proof.
  destruct w as [|c t]; [reflexivity|].
  unfold capitalize. cbn [all_chars]. rewrite is_ascii_upper_char, is_ascii_lower. reflexivity.
Qed.

(** The words of a text are made of its characters. *)
Lemma split_all_chars p s :
  all_chars p s = true -> Forall (fun w => all_chars p w = true) (split s).
Proof.
  induction s as [|c t IH]; [constructor|].
  cbn [all_chars]. intros H. apply andb_true_iff in H as [Hc Ht].
  specialize (IH Ht). cbn [split].
  destruct (is_whitespace c); [exact IH|].
  destruct (starts_word t).
  - destruct (split t) as [|w ws]; constructor.
    + simpl. rewrite Hc. reflexivity.
    + constructor.
    + inversion IH as [|? ? Hw _]; subst. simpl. rewrite Hc, Hw. reflexivity.
    + inversion IH; assumption.
  - constructor; [simpl; rewrite Hc; reflexivity|exact IH].
Qed.

Lemma join_all_chars p ws :
  p " "%char = true -> Forall (fun w => all_chars p w = true) ws ->
  all_chars p (Str.join " " ws) = true.
Proof.
  intros Hp. unfold Str.join. induction 1 as [|w ws Hw Hws IH]; [reflexivity|].
  destruct ws as [|v ws]; [exact Hw|].
  change (String.concat " " (w :: v :: ws)) with (w +:+ String " " (String.concat " " (v :: ws))).
  rewrite all_chars_app, Hw. cbn [all_chars andb]. rewrite Hp, IH. reflexivity.
Qed.

(** Formatting an ASCII text gives an ASCII text. *)
Lemma format_ascii s :
  all_chars is_ascii s = true -> all_chars is_ascii (format_business_type s) = true.
Proof.
  intros H. unfold format_business_type.
  destruct (String.eqb s EmptyString); [reflexivity|].
  pose proof (split_all_chars is_ascii s H) as W.
  set (fw := List.filter (fun w => negb (is_common w)) (split s)).
  assert (F : Forall (fun w => all_chars is_ascii w = true) fw).
  { apply List.Forall_forall. intros w I. apply filter_In in I as [I _].
    rewrite List.Forall_forall in W. exact (W w I). }
  destruct fw as [|w fw]; [reflexivity|].
  apply join_all_chars; [reflexivity|].
  apply List.Forall_forall. intros v I. apply in_map_iff in I as (u & <- & I).
  rewrite List.Forall_forall in F. rewrite is_ascii_capitalize. exact (F u I).
Qed.

End FormatAscii.

(** X15: on ASCII text formatting is idempotent: the formatted business type
    is ASCII text again, and formatting it a second time changes nothing. *)
Theorem format_business_type_idempotent (business_type : string) :
  all_chars is_ascii business_type = true ->
  all_chars is_ascii (format_business_type business_type) = true
  /\ format_business_type (format_business_type business_type)
     = format_business_type business_type.
Proof.
  intros H. split; [exact (FormatAscii.format_ascii business_type H)|].
  destruct (FormatFacts.format_words business_type) as (ws & Hne & F & ->).
  apply FormatFacts.format_formatted; assumption.
Qed.

Lemma format_business_type_idempotent_witness :
  all_chars is_ascii "  plumbing AND heating services " = true
  /\ format_business_type "  plumbing AND heating services " = "Plumbing Heating Services"
  /\ format_business_type "Plumbing Heating Services" = "Plumbing Heating Services".
Proof.
  split; [reflexivity|]. split; [reflexivity|].
  change (format_business_type (format_business_type "  plumbing AND heating services ")
          = format_business_type "  plumbing AND heating services ").
  apply (format_business_type_idempotent "  plumbing AND heating services "). reflexivity.
Defined.

(** ** Facts about the pattern engine *)

(** Whether the text begins with a character of the class. *)
Definition begins_with (p : ascii -> bool) (s : string) : bool :=
  match s with
  | String c _ => p c
  | EmptyString => false
  end.

(** Whether the text ends with a character of the class. *)
Fixpoint ends_with (p : ascii -> bool) (s : string) : bool :=
  match s with
  | EmptyString => false
  | String c EmptyString => p c
  | String _ t => ends_with p t
  end.

(** Some substring of [s] is denoted by [r]. *)
Definition found_in (r : Rx.rx) (s : string) : Prop :=
  exists before m after, s = before +:+ m +:+ after /\ Rx.denotes r m.

Module RxFacts.
Import Rx RegexFacts LocationFacts PostcodeFacts.

Lemma repeat_from_sound (r : rx) (step : position -> list position) :
  (forall pos pos', In pos' (step pos) -> exists m, snd pos = m +:+ snd pos' /\ denotes r m) ->
  forall hi lo pos pos',
    In pos' (repeat_from step lo hi pos) ->
    exists m, snd pos = m +:+ snd pos' /\ denotes (Rpt r lo hi) m.
Proof.
  intros Hstep. induction hi as [|hi IH]; intros lo pos pos' H.
  - destruct lo; simpl in H; [|contradiction].
    destruct H as [<-|[]]. exists EmptyString. split; [reflexivity|constructor].
  - simpl in H. apply in_app_or in H as [H|H].
    + apply in_flat_map in H as (mid & H1 & H2).
      apply Hstep in H1 as (m1 & E1 & M1).
      apply IH in H2 as (m2 & E2 & M2).
      exists (m1 +:+ m2). split; [rewrite E1, E2; symmetry; apply append_assoc|].
      constructor; assumption.
    + destruct lo; [|contradiction]. destruct H as [<-|[]].
      exists EmptyString. split; [reflexivity|constructor].
Qed.

(** Every entry of the matcher is the position after a string of the pattern. *)
Lemma run_sound (r : rx) :
  forall pos pos', In pos' (run r pos) -> exists m, snd pos = m +:+ snd pos' /\ denotes r m.
Proof.
  induction r as [p|r1 IH1 r2 IH2|r1 IH1 r2 IH2|r IH lo hi| |]; intros [pv s] pos' H.
  - destruct s as [|c t]; simpl in H; [contradiction|].
    destruct (p c) eqn:E; [|contradiction]. destruct H as [<-|[]].
    exists (String c EmptyString). split; [reflexivity|constructor; exact E].
  - simpl in H. apply in_flat_map in H as (mid & H1 & H2).
    apply IH1 in H1 as (m1 & E1 & M1). apply IH2 in H2 as (m2 & E2 & M2).
    exists (m1 +:+ m2). split; [rewrite E1, E2; symmetry; apply append_assoc|].
    constructor; assumption.
  - simpl in H. apply in_app_or in H as [H|H].
    + apply IH1 in H as (m & E & M). exists m. split; [exact E|apply denotes_alt_l, M].
    + apply IH2 in H as (m & E & M). exists m. split; [exact E|apply denotes_alt_r, M].
  - apply (repeat_from_sound r (run r) IH hi lo _ _ H).
  - simpl in H. destruct pv; [contradiction|]. destruct H as [<-|[]].
    exists EmptyString. split; [reflexivity|constructor].
  - simpl in H. destruct (xorb _ _); [|contradiction]. destruct H as [<-|[]].
    exists EmptyString. split; [reflexivity|constructor].
Qed.

(** A pattern without assertions finds each of its strings in every context. *)
Lemma run_complete (r : rx) (m : string) :
  denotes r m -> plain r = true ->
  forall prev rest, exists prev', In (prev', rest) (run r (prev, m +:+ rest)).
Proof.
  induction 1 as [p c Hp|r1 r2 s1 s2 _ IH1 _ IH2|r1 r2 s _ IH|r1 r2 s _ IH
                  |r hi|r lo hi s1 s2 _ IH1 _ IH2| |]; intros P prev rest;
    try discriminate P.
  - exists (Some c). simpl. rewrite Hp. left. reflexivity.
  - simpl in P. apply andb_true_iff in P as [P1 P2].
    destruct (IH1 P1 prev (s2 +:+ rest)) as [p1 I1].
    destruct (IH2 P2 p1 rest) as [p2 I2].
    exists p2. cbn [run]. apply in_flat_map. exists (p1, s2 +:+ rest).
    rewrite append_assoc. split; assumption.
  - simpl in P. apply andb_true_iff in P as [P1 _].
    destruct (IH P1 prev rest) as [p1 I1]. exists p1. cbn [run].
    apply in_or_app. left. exact I1.
  - simpl in P. apply andb_true_iff in P as [_ P2].
    destruct (IH P2 prev rest) as [p1 I1]. exists p1. cbn [run].
    apply in_or_app. right. exact I1.
  - exists prev. cbn [run]. destruct hi; simpl; [left; reflexivity|].
    apply in_or_app. right. left. reflexivity.
  - simpl in P. destruct (IH1 P prev (s2 +:+ rest)) as [p1 I1].
    destruct (IH2 P p1 rest) as [p2 I2]. exists p2.
    cbn [run repeat_from]. apply in_or_app. left. apply in_flat_map.
    exists (p1, s2 +:+ rest). rewrite append_assoc. split; assumption.
Qed.

(** What [find_from] returns: a string of the pattern, found in the text, the
    first entry of the matcher where it starts; and for a pattern without
    assertions no string of the pattern starts before it. *)
Lemma find_from_some (r : rx) (s g : string) :
  forall prev, find_from r prev s = Some g ->
  exists before after,
    s = before +:+ g +:+ after
    /\ denotes r g
    /\ (exists prev' prev'', hd_error (run r (prev', g +:+ after)) = Some (prev'', after))
    /\ (plain r = true ->
        forall b m a, s = b +:+ m +:+ a -> denotes r m ->
                      (String.length before <= String.length b)%nat).
Proof.
  induction s as [|c t IH]; intros prev; simpl.
  - destruct (run r (prev, EmptyString)) as [|[pv rest] l] eqn:E; [discriminate|].
    destruct (run_sound r (prev, EmptyString) (pv, rest)) as (m & Hs & M);
      [rewrite E; left; reflexivity|].
    simpl in Hs. destruct m; [|discriminate]. destruct rest; [|discriminate].
    intros [= <-]. exists EmptyString, EmptyString. split; [reflexivity|].
    split; [exact M|]. split; [|intros; simpl; lia].
    exists prev, pv. change (EmptyString +:+ EmptyString) with EmptyString.
    rewrite E. reflexivity.
  - destruct (run r (prev, String c t)) as [|[pv rest] l] eqn:E.
    + intros H. destruct (IH _ H) as (before & after & -> & M & Hd & L).
      exists (String c before), after. split; [reflexivity|]. split; [exact M|].
      split; [exact Hd|]. intros P b m a Eb Mm.
      destruct b as [|c' b].
      * exfalso. change (EmptyString +:+ m +:+ a) with (m +:+ a) in Eb.
        destruct (run_complete r m Mm P prev a) as [pv I].
        rewrite <- Eb, E in I. exact I.
      * injection Eb as _ Eb. simpl. apply le_n_S. exact (L P b m a Eb Mm).
    + destruct (run_sound r (prev, String c t) (pv, rest)) as (m & Hs & M);
        [rewrite E; left; reflexivity|].
      simpl in Hs.
      change (Some (Str.take (String.length (String c t) - String.length rest) (String c t)) = Some g
              -> exists before after,
                String c t = before +:+ g +:+ after /\ denotes r g
                /\ (exists prev' prev'', hd_error (run r (prev', g +:+ after)) = Some (prev'', after))
                /\ (plain r = true ->
                    forall b m a, String c t = b +:+ m +:+ a -> denotes r m ->
                                  (String.length before <= String.length b)%nat)).
      rewrite Hs, take_app_length. intros [= <-]. exists EmptyString, rest.
      split; [reflexivity|]. split; [exact M|]. split; [|intros; simpl; lia].
      exists prev, pv. rewrite <- Hs, E. reflexivity.
Qed.

(** A pattern without assertions is found wherever one of its strings is. *)
Lemma found_in_find (r : rx) (s : string) :
  plain r = true -> found_in r s -> forall prev, find_from r prev s <> None.
Proof.
  intros P (before & m & after & -> & M).
  induction before as [|c b IH]; intros prev; simpl.
  - destruct (run_complete r m M P prev after) as [pv I].
    change (EmptyString +:+ m +:+ after) with (m +:+ after).
    destruct (m +:+ after); simpl; destruct (run r _) as [|[? ?] ?];
      try discriminate; contradiction.
  - change (String c b +:+ m +:+ after) with (String c (b +:+ m +:+ after)).
    cbn [find_from].
    destruct (run r _) as [|[? ?] ?]; [apply IH|discriminate].
Qed.

Lemma find_from_found_in (r : rx) (s g : string) prev :
  find_from r prev s = Some g -> found_in r s.
Proof.
  intros H. apply find_from_some in H as (before & after & E & M & _).
  exists before, g, after. auto.
Qed.

(** The first entry of a concatenation continues some entry of its left part. *)
Lemma hd_flat_map {A B} (f : A -> list B) (l : list A) (x : B) :
  hd_error (flat_map f l) = Some x -> exists y, In y l /\ hd_error (f y) = Some x.
Proof.
  induction l as [|y l IH]; simpl; [discriminate|].
  destruct (f y) as [|z fy] eqn:E; simpl.
  - intros H. destruct (IH H) as (y' & I & Hy). exists y'. auto.
  - intros [= ->]. exists y. rewrite E. auto.
Qed.

Lemma hd_run_cat (r1 r2 : rx) pos pos' :
  hd_error (run (Cat r1 r2) pos) = Some pos' ->
  exists mid, In mid (run r1 pos) /\ hd_error (run r2 mid) = Some pos'.
Proof. apply hd_flat_map. Qed.

Lemma repeat_from_zero_not_nil step hi pos : repeat_from step 0 hi pos <> [].
Proof.
  destruct hi; simpl; [discriminate|].
  destruct (flat_map _ _); discriminate.
Qed.

(** A greedy repetition of a class takes every character of the class that is
    there, when its bound allows. *)
Lemma repeat_class_greedy (p : ascii -> bool) :
  forall hi lo prev s pos',
    hd_error (repeat_from (run (Chr p)) lo hi (prev, s)) = Some pos' ->
    (String.length s <= hi)%nat ->
    begins_with p (snd pos') = false.
Proof.
  induction hi as [|hi IH]; intros lo prev s pos' H L.
  - destruct s; [|simpl in L; lia]. destruct lo; simpl in H; [|discriminate].
    injection H as <-. reflexivity.
  - cbn [repeat_from] in H. destruct s as [|c t].
    + simpl in H. destruct lo; [|discriminate]. injection H as <-. reflexivity.
    + change (run (Chr p) (prev, String c t)) with (if p c then [(Some c, t)] else [])
        in H.
      destruct (p c) eqn:E.
      * cbn [flat_map] in H. rewrite app_nil_r in H.
        destruct (repeat_from (run (Chr p)) (Nat.pred lo) hi (Some c, t)) as [|x l] eqn:R.
        -- destruct lo; [|simpl in H; discriminate H].
           exfalso. exact (repeat_from_zero_not_nil _ _ _ R).
        -- simpl in H. injection H as ->. apply (IH (Nat.pred lo) (Some c) t pos').
           ++ rewrite R. reflexivity.
           ++ simpl in L. lia.
      * simpl in H. destruct lo; [|discriminate]. injection H as <-. simpl. exact E.
Qed.

(** The strings of a repeated class. *)
Lemma denotes_rpt_chr p lo hi m :
  denotes (Rpt (Chr p) lo hi) m ->
  all_chars p m = true /\ (lo <= String.length m <= hi)%nat.
Proof.
  remember (Rpt (Chr p) lo hi) as r eqn:E. intros M. revert lo hi E.
  induction M as [q c Hq|r1 r2 s1 s2 _ _ _ _|r1 r2 s _ _|r1 r2 s _ _
                  |r hi'|r lo' hi' s1 s2 M1 _ M2 IH2| |];
    intros lo hi E; try discriminate.
  - injection E as _ <- _. simpl. split; [reflexivity|lia].
  - injection E as -> <- <-.
    inversion M1 as [q c Hc| | | | | | |]; subst.
    destruct (IH2 (Nat.pred lo') hi' eq_refl) as [A L].
    rewrite append_cons, append_nil_l.
    simpl. rewrite Hc, A. split; [reflexivity|lia].
Qed.

Lemma rpt_chr_denotes p m :
  all_chars p m = true ->
  forall lo hi, (lo <= String.length m <= hi)%nat -> denotes (Rpt (Chr p) lo hi) m.
Proof.
  induction m as [|c m IH]; intros A lo hi L.
  - simpl in L. replace lo with 0%nat by lia. constructor.
  - simpl in A, L. apply andb_true_iff in A as [Ac Am].
    destruct hi as [|hi]; [lia|].
    apply (denotes_rpt_more (Chr p) lo hi (String c EmptyString) m).
    + constructor. exact Ac.
    + apply IH; [exact Am|lia].
Qed.

Lemma denotes_cat_inv r1 r2 m :
  denotes (Cat r1 r2) m -> exists s1 s2, m = s1 +:+ s2 /\ denotes r1 s1 /\ denotes r2 s2.
Proof. inversion 1; subst; eauto. Qed.

Lemma denotes_alt_inv r1 r2 m : denotes (Alt r1 r2) m -> denotes r1 m \/ denotes r2 m.
Proof. inversion 1; subst; auto. Qed.

Lemma denotes_chr_inv p m : denotes (Chr p) m -> exists c, m = String c EmptyString /\ p c = true.
Proof. inversion 1; subst; eauto. Qed.

Lemma denotes_lit_inv c m : denotes (lit c) m -> m = String c EmptyString.
Proof.
  intros H. apply denotes_chr_inv in H as (d & -> & E).
  apply Ascii.eqb_eq in E. subst. reflexivity.
Qed.

Lemma denotes_bol_inv m : denotes Bol m -> m = EmptyString.
Proof. inversion 1; reflexivity. Qed.

Lemma denotes_wordb_inv m : denotes Wordb m -> m = EmptyString.
Proof. inversion 1; reflexivity. Qed.

Lemma denotes_opt_lit_inv c m : denotes (opt (lit c)) m -> m = EmptyString \/ m = String c EmptyString.
Proof.
  intros H. apply denotes_rpt_chr in H as [A L].
  destruct m as [|d [|e m]]; simpl in L; try lia; [left; reflexivity|right].
  simpl in A. rewrite andb_true_r in A. apply Ascii.eqb_eq in A. subst. reflexivity.
Qed.

End RxFacts.

(** ** The extracted email address *)

(** The shape [local@domain.tld]. *)
Definition is_email (e : string) : Prop :=
  exists loc domain tld,
    e = loc +:+ "@" +:+ domain +:+ "." +:+ tld
    /\ loc <> EmptyString /\ all_chars email_local loc = true
    /\ domain <> EmptyString /\ all_chars email_domain domain = true
    /\ (2 <= String.length tld)%nat /\ all_chars is_letter tld = true.

Module EmailFacts.
Import Rx RegexFacts LocationFacts PostcodeFacts RxFacts.

Lemma not_empty_length (s : string) : s <> EmptyString <-> (1 <= String.length s)%nat.
Proof. destruct s; simpl; split; intros; try congruence; lia. Qed.

Lemma email_denotes n e : denotes (email_pattern n) e -> is_email e.
Proof.
  unfold email_pattern. cbn [cat]. intros M.
  apply denotes_cat_inv in M as (loc & m1 & -> & L & M).
  apply denotes_cat_inv in M as (at' & m2 & -> & A & M).
  apply denotes_cat_inv in M as (domain & m3 & -> & D & M).
  apply denotes_cat_inv in M as (dot & tld & -> & P & T).
  apply denotes_lit_inv in A, P. subst.
  apply denotes_rpt_chr in L as [L1 L2], D as [D1 D2], T as [T1 T2].
  exists loc, domain, tld. split; [reflexivity|].
  rewrite !not_empty_length. intuition lia.
Qed.

Lemma is_email_denotes n e : is_email e -> (String.length e <= n)%nat -> denotes (email_pattern n) e.
Proof.
  intros (loc & domain & tld & -> & L1 & L2 & D1 & D2 & T1 & T2) Len.
  apply not_empty_length in L1, D1. rewrite !length_app in Len. simpl in Len.
  unfold email_pattern. cbn [cat].
  constructor; [apply rpt_chr_denotes; [exact L2|lia]|].
  apply (denotes_cat (lit "@") _ "@"); [constructor; reflexivity|].
  constructor; [apply rpt_chr_denotes; [exact D2|lia]|].
  apply (denotes_cat (lit ".") _ "."); [constructor; reflexivity|].
  apply rpt_chr_denotes; [exact T2|lia].
Qed.

Lemma email_pattern_plain n : plain (email_pattern n) = true.
Proof. reflexivity. Qed.

Lemma ends_with_split p s :
  ends_with p s = true -> exists b c, s = b +:+ String c EmptyString /\ p c = true.
Proof.
  induction s as [|c s IH]; [discriminate|].
  destruct s as [|d s].
  - simpl. intros H. exists EmptyString, c. auto.
  - intros H. destruct (IH H) as (b & x & E & Hx). exists (String c b), x.
    rewrite E. auto.
Qed.

Lemma hd_run_cat_length (r1 r2 : rx) pos pos' :
  hd_error (run (Cat r1 r2) pos) = Some pos' ->
  exists mid, (String.length (snd mid) <= String.length (snd pos))%nat
              /\ hd_error (run r2 mid) = Some pos'.
Proof.
  intros H. apply hd_run_cat in H as (mid & I & H). exists mid. split; [|exact H].
  apply run_sound in I as (m & -> & _). rewrite length_app. lia.
Qed.

(** One more character of the local part in front of an address. *)
Lemma is_email_cons c e : email_local c = true -> is_email e -> is_email (String c e).
Proof.
  intros Hc (loc & domain & tld & -> & L1 & L2 & R).
  exists (String c loc), domain, tld. split; [reflexivity|].
  split; [discriminate|]. split; [simpl; rewrite Hc, L2; reflexivity|exact R].
Qed.

End EmailFacts.

(** X16: an address that [extract_email] returns has the shape
    [local@domain.tld] and stands in the text; it is the first address of the
    text (none starts before it), and it is not cut short at either end: no
    character of a local part stands before it and no letter after it. *)
Theorem extract_email_form (text e : string) :
  extract_email text = Some e ->
  is_email e
  /\ exists before after,
       text = before +:+ e +:+ after
       /\ ends_with email_local before = false
       /\ begins_with is_letter after = false
       /\ (forall b e' a, text = b +:+ e' +:+ a -> is_email e' ->
                          (String.length before <= String.length b)%nat).
Proof.
  unfold extract_email. destruct (String.eqb text EmptyString); [discriminate|].
  unfold Rx.find. intros H.
  apply RxFacts.find_from_some in H as (before & after & E & M & (p1 & p2 & Hd) & L).
  assert (Left : forall b e' a, text = b +:+ e' +:+ a -> is_email e' ->
                                (String.length before <= String.length b)%nat).
  { intros b e' a Eb He. apply (L eq_refl b e' a Eb).
    apply EmailFacts.is_email_denotes; [exact He|].
    rewrite Eb, !LocationFacts.length_app. lia. }
  pose proof (EmailFacts.email_denotes _ _ M) as Em.
  split; [exact Em|]. exists before, after. split; [exact E|].
  split; [|split; [|exact Left]].
  - destruct (ends_with email_local before) eqn:W; [|reflexivity]. exfalso.
    apply EmailFacts.ends_with_split in W as (b & c & Eb & Hc).
    assert (Le : (String.length before <= String.length b)%nat).
    { apply (Left b (String c e) after); [|apply EmailFacts.is_email_cons; assumption].
      rewrite E, Eb, RegexFacts.append_assoc. reflexivity. }
    rewrite Eb, LocationFacts.length_app in Le. simpl in Le. lia.
  - unfold email_pattern in Hd. cbn [Rx.cat] in Hd.
    apply EmailFacts.hd_run_cat_length in Hd as (m1 & L1 & Hd).
    apply EmailFacts.hd_run_cat_length in Hd as (m2 & L2 & Hd).
    apply EmailFacts.hd_run_cat_length in Hd as (m3 & L3 & Hd).
    apply EmailFacts.hd_run_cat_length in Hd as ([p4 m4] & L4 & Hd).
    apply (RxFacts.repeat_class_greedy is_letter _ 2 p4 m4 (p2, after) Hd).
    simpl in L1, L4. rewrite E, !LocationFacts.length_app.
    rewrite LocationFacts.length_app in L1. lia.
Qed.

Lemma extract_email_form_witness :
  extract_email "write to john.doe@example.co.uk." = Some "john.doe@example.co.uk"
  /\ is_email "john.doe@example.co.uk".
Proof.
  split; [reflexivity|].
  apply (extract_email_form "write to john.doe@example.co.uk." "john.doe@example.co.uk").
  reflexivity.
Defined.

(** X17: [extract_email] answers [None] exactly on the texts without a
    substring of the shape [local@domain.tld]. *)
Theorem extract_email_none (text : string) :
  extract_email text = None
  <-> ~ exists before e after, text = before +:+ e +:+ after /\ is_email e.
Proof.
  unfold extract_email. split.
  - intros H (before & e & after & E & He).
    destruct (String.eqb_spec text EmptyString) as [T|_].
    + destruct He as (loc & ? & ? & -> & L & _). rewrite T in E.
      destruct before; [|discriminate E]. destruct loc; [congruence|discriminate E].
    + revert H. apply RxFacts.found_in_find; [reflexivity|].
      exists before, e, after. split; [exact E|].
      apply EmailFacts.is_email_denotes; [exact He|].
      rewrite E, !LocationFacts.length_app. lia.
  - intros N. destruct (String.eqb text EmptyString); [reflexivity|].
    destruct (Rx.find _ text) as [g|] eqn:F; [|reflexivity]. exfalso. apply N.
    apply RxFacts.find_from_found_in in F as (before & m & after & E & M).
    exists before, m, after. split; [exact E|]. exact (EmailFacts.email_denotes _ _ M).
Qed.

(** ** The extracted phone number *)

(** The patterns that can decide: the two patterns for mobile numbers are
    left out. *)
Definition deciding_patterns : list Rx.rx :=
  [grouped_number 4 3 3; grouped_number 3 3 4; grouped_number 2 4 4; bare_number].

(** The characters of a returned number. *)
Definition phone_char (c : ascii) : bool :=
  Str.is_digit c || is_whitespace c || existsb (Ascii.eqb c) ["+"; "("; ")"]%char.

Definition phone_start (c : ascii) : bool :=
  Str.is_digit c || existsb (Ascii.eqb c) ["+"; "("]%char.

(** The number of digits in a text. *)
Fixpoint digits (s : string) : nat :=
  match s with
  | EmptyString => 0%nat
  | String c t => ((if Str.is_digit c then 1 else 0) + digits t)%nat
  end.

(** *** Reading properties of the matched strings off a pattern *)

Definition all_ascii : list ascii := List.map ascii_of_nat (seq 0 256).

(** Every character of the class [p] is in the class [q]. *)
Definition subclass (p q : ascii -> bool) : bool :=
  forallb (fun c => implb (p c) (q c)) all_ascii.

Definition not_digit (c : ascii) : bool := negb (Str.is_digit c).

(** Bounds on the number of digits in a string of the pattern. *)
Fixpoint digit_bounds (r : Rx.rx) : nat * nat :=
  match r with
  | Rx.Chr p =>
      if subclass p Str.is_digit then (1, 1)%nat
      else if subclass p not_digit then (0, 0)%nat else (0, 1)%nat
  | Rx.Cat r1 r2 =>
      let '(lo1, hi1) := digit_bounds r1 in
      let '(lo2, hi2) := digit_bounds r2 in
      (lo1 + lo2, hi1 + hi2)%nat
  | Rx.Alt r1 r2 =>
      let '(lo1, hi1) := digit_bounds r1 in
      let '(lo2, hi2) := digit_bounds r2 in
      (Nat.min lo1 lo2, Nat.max hi1 hi2)
  | Rx.Rpt r lo hi =>
      let '(lo1, hi1) := digit_bounds r in (lo * lo1, hi * hi1)%nat
  | Rx.Bol | Rx.Wordb => (0, 0)%nat
  end.

(** Every class of the pattern is within [q]. *)
Fixpoint classes_within (q : ascii -> bool) (r : Rx.rx) : bool :=
  match r with
  | Rx.Chr p => subclass p q
  | Rx.Cat r1 r2 | Rx.Alt r1 r2 => classes_within q r1 && classes_within q r2
  | Rx.Rpt r _ _ => classes_within q r
  | Rx.Bol | Rx.Wordb => true
  end.

(** The pattern may match the empty string. *)
Fixpoint nullable (r : Rx.rx) : bool :=
  match r with
  | Rx.Chr _ => false
  | Rx.Cat r1 r2 => nullable r1 && nullable r2
  | Rx.Alt r1 r2 => nullable r1 || nullable r2
  | Rx.Rpt r lo _ => (lo =? 0)%nat || nullable r
  | Rx.Bol | Rx.Wordb => true
  end.

(** Every class that can match the first character is within [q]. *)
Fixpoint first_within (q : ascii -> bool) (r : Rx.rx) : bool :=
  match r with
  | Rx.Chr p => subclass p q
  | Rx.Cat r1 r2 => first_within q r1 && (negb (nullable r1) || first_within q r2)
  | Rx.Alt r1 r2 => first_within q r1 && first_within q r2
  | Rx.Rpt r _ _ => first_within q r
  | Rx.Bol | Rx.Wordb => true
  end.

(** Every class that can match the last character is within [q]. *)
Fixpoint last_within (q : ascii -> bool) (r : Rx.rx) : bool :=
  match r with
  | Rx.Chr p => subclass p q
  | Rx.Cat r1 r2 => last_within q r2 && (negb (nullable r2) || last_within q r1)
  | Rx.Alt r1 r2 => last_within q r1 && last_within q r2
  | Rx.Rpt r _ _ => last_within q r
  | Rx.Bol | Rx.Wordb => true
  end.

Module PhoneFacts.
Import Rx RegexFacts LocationFacts PostcodeFacts RxFacts.

Lemma all_ascii_complete c : In c all_ascii.
Proof.
  unfold all_ascii. apply in_map_iff. exists (nat_of_ascii c).
  split; [apply ascii_nat_embedding|]. apply in_seq.
  pose proof (nat_ascii_bounded c). lia.
Qed.

Lemma subclass_spec p q : subclass p q = true -> forall c, p c = true -> q c = true.
Proof.
  unfold subclass. rewrite forallb_forall. intros H c Hp.
  specialize (H c (all_ascii_complete c)). rewrite Hp in H. exact H.
Qed.

Lemma digits_app a b : digits (a +:+ b) = (digits a + digits b)%nat.
Proof.
  induction a as [|c a IH]; [reflexivity|].
  rewrite append_cons. simpl. rewrite IH. lia.
Qed.

Lemma denotes_digit_bounds r m :
  denotes r m -> (fst (digit_bounds r) <= digits m <= snd (digit_bounds r))%nat.
Proof.
  induction 1 as [p c Hp|r1 r2 s1 s2 _ IH1 _ IH2|r1 r2 s _ IH|r1 r2 s _ IH
                  |r hi|r lo hi s1 s2 _ IH1 _ IH2| |]; cbn [digit_bounds] in *.
  - simpl. destruct (subclass p Str.is_digit) eqn:S1.
    + rewrite (subclass_spec _ _ S1 c Hp). simpl. lia.
    + destruct (subclass p not_digit) eqn:S2.
      * pose proof (subclass_spec _ _ S2 c Hp) as N. unfold not_digit in N.
        apply negb_true_iff in N. rewrite N. simpl. lia.
      * destruct (Str.is_digit c); simpl; lia.
  - destruct (digit_bounds r1), (digit_bounds r2). rewrite digits_app. simpl in *. lia.
  - destruct (digit_bounds r1), (digit_bounds r2). simpl in *. lia.
  - destruct (digit_bounds r1), (digit_bounds r2). simpl in *. lia.
  - destruct (digit_bounds r). simpl. lia.
  - destruct (digit_bounds r). rewrite digits_app. destruct lo; simpl in *; nia.
  - simpl. lia.
  - simpl. lia.
Qed.

Lemma denotes_classes_within q r m :
  denotes r m -> classes_within q r = true -> all_chars q m = true.
Proof.
  induction 1 as [p c Hp|r1 r2 s1 s2 _ IH1 _ IH2|r1 r2 s _ IH|r1 r2 s _ IH
                  |r hi|r lo hi s1 s2 _ IH1 _ IH2| |]; cbn [classes_within]; intros C;
    try reflexivity.
  - simpl. rewrite (subclass_spec _ _ C c Hp). reflexivity.
  - apply andb_true_iff in C as [C1 C2]. rewrite all_chars_app, IH1, IH2; auto.
  - apply andb_true_iff in C as [C1 C2]. auto.
  - apply andb_true_iff in C as [C1 C2]. auto.
  - rewrite all_chars_app, IH1, IH2; auto.
Qed.

Lemma append_empty (a b : string) : a +:+ b = EmptyString -> a = EmptyString /\ b = EmptyString.
Proof. destruct a; [auto|discriminate]. Qed.

Lemma denotes_nullable r m : denotes r m -> m = EmptyString -> nullable r = true.
Proof.
  induction 1 as [p c Hp|r1 r2 s1 s2 _ IH1 _ IH2|r1 r2 s _ IH|r1 r2 s _ IH
                  |r hi|r lo hi s1 s2 _ IH1 _ IH2| |]; cbn [nullable]; intros E;
    try reflexivity.
  - discriminate E.
  - apply append_empty in E as [E1 E2]. rewrite IH1, IH2; auto.
  - rewrite IH; auto.
  - rewrite IH; auto. apply orb_true_r.
  - apply append_empty in E as [E1 E2]. rewrite (IH1 E1). apply orb_true_r.
Qed.

Lemma begins_with_app p a b :
  begins_with p (a +:+ b) = match a with EmptyString => begins_with p b | _ => begins_with p a end.
Proof. destruct a; reflexivity. Qed.

Lemma ends_with_cons p c t :
  t <> EmptyString -> ends_with p (String c t) = ends_with p t.
Proof. destruct t; [congruence|reflexivity]. Qed.

Lemma ends_with_app p a b :
  ends_with p (a +:+ b) = match b with EmptyString => ends_with p a | _ => ends_with p b end.
Proof.
  destruct b as [|d b]; [rewrite append_nil_r; reflexivity|].
  induction a as [|c a IH]; [reflexivity|].
  rewrite append_cons, ends_with_cons; [exact IH|].
  intros E. apply append_empty in E as [_ E]. discriminate E.
Qed.

Lemma denotes_first_within q r m :
  denotes r m -> first_within q r = true -> m = EmptyString \/ begins_with q m = true.
Proof.
  induction 1 as [p c Hp|r1 r2 s1 s2 M1 IH1 _ IH2|r1 r2 s _ IH|r1 r2 s _ IH
                  |r hi|r lo hi s1 s2 _ IH1 _ IH2| |]; cbn [first_within]; intros C;
    try (left; reflexivity).
  - right. simpl. exact (subclass_spec _ _ C c Hp).
  - apply andb_true_iff in C as [C1 C2]. rewrite begins_with_app.
    destruct s1 as [|c s1].
    + rewrite (denotes_nullable _ _ M1 eq_refl) in C2. simpl in C2.
      rewrite append_nil_l. auto.
    + right. destruct (IH1 C1) as [E|E]; [discriminate E|exact E].
  - apply andb_true_iff in C as [C1 C2]. auto.
  - apply andb_true_iff in C as [C1 C2]. auto.
  - rewrite begins_with_app. destruct s1 as [|c s1]; [rewrite append_nil_l; auto|].
    right. destruct (IH1 C) as [E|E]; [discriminate E|exact E].
Qed.

Lemma denotes_last_within q r m :
  denotes r m -> last_within q r = true -> m = EmptyString \/ ends_with q m = true.
Proof.
  induction 1 as [p c Hp|r1 r2 s1 s2 _ IH1 M2 IH2|r1 r2 s _ IH|r1 r2 s _ IH
                  |r hi|r lo hi s1 s2 _ IH1 _ IH2| |]; cbn [last_within]; intros C;
    try (left; reflexivity).
  - right. simpl. exact (subclass_spec _ _ C c Hp).
  - apply andb_true_iff in C as [C2 C1]. rewrite ends_with_app.
    destruct s2 as [|c s2].
    + rewrite (denotes_nullable _ _ M2 eq_refl) in C1. simpl in C1.
      rewrite append_nil_r. auto.
    + right. destruct (IH2 C2) as [E|E]; [discriminate E|exact E].
  - apply andb_true_iff in C as [C1 C2]. auto.
  - apply andb_true_iff in C as [C1 C2]. auto.
  - rewrite ends_with_app. destruct s2 as [|c s2]; [rewrite append_nil_r; auto|].
    right. destruct (IH2 C) as [E|E]; [discriminate E|exact E].
Qed.

Lemma first_match_some patterns text g :
  first_match patterns text = Some g -> exists p, In p patterns /\ find p text = Some g.
Proof.
  induction patterns as [|p ps IH]; simpl; [discriminate|].
  destruct (find p text) as [g'|] eqn:F.
  - intros [= <-]. exists p. auto.
  - intros H. destruct (IH H) as (q & I & Fq). exists q. auto.
Qed.

End PhoneFacts.

Module DeadPatterns.
Import Rx RegexFacts LocationFacts PostcodeFacts RxFacts PhoneFacts.

Lemma run_whole (r : rx) prev prev' (s : string) :
  In (prev', EmptyString) (run r (prev, s)) -> denotes r s.
Proof.
  intros H. apply run_sound in H as (m & E & M). simpl in E.
  rewrite append_nil_r in E. subst m. exact M.
Qed.

Lemma found_in_context r b m a : found_in r m -> found_in r (b +:+ m +:+ a).
Proof.
  intros (b' & m' & a' & -> & M). exists (b +:+ b'), m', (a' +:+ a). split; [|exact M].
  rewrite !append_assoc. reflexivity.
Qed.

Lemma digit_facts d :
  Str.is_digit d = true ->
  is_whitespace d = false /\ Ascii.eqb ")" d = false /\ Ascii.eqb "(" d = false
  /\ Ascii.eqb "+" d = false.
Proof.
  destruct d as [[] [] [] [] [] [] [] []]; vm_compute; intros H; try discriminate H;
    repeat split.
Qed.

Lemma whitespace_facts s :
  is_whitespace s = true ->
  Str.is_digit s = false /\ Ascii.eqb ")" s = false /\ Ascii.eqb "(" s = false
  /\ Ascii.eqb "+" s = false /\ Ascii.eqb "0" s = false.
Proof.
  destruct s as [[] [] [] [] [] [] [] []]; vm_compute; intros H; try discriminate H;
    repeat split.
Qed.

(** Take a derivation of a pattern of classes apart. *)
Ltac invert_denotes :=
  repeat match goal with
  | H : denotes (Cat _ _) _ |- _ => apply denotes_cat_inv in H as (? & ? & -> & ? & ?)
  | H : denotes (Alt _ _) _ |- _ => apply denotes_alt_inv in H as [?|?]
  | H : denotes (Chr (Ascii.eqb _)) _ |- _ => apply denotes_lit_inv in H; subst
  | H : denotes (Rpt (Chr _) _ _) _ |- _ => apply denotes_rpt_chr in H as [? ?]
  | H : denotes Bol _ |- _ => apply denotes_bol_inv in H; subst
  | H : denotes (Chr _) _ |- _ => apply denotes_chr_inv in H as (? & -> & ?)
  | H : denotes _ _ |- _ => progress (unfold lit, opt, times, digit, space in H)
  end.

(** Spell out the strings whose length is bounded. *)
Ltac spell_out :=
  repeat match goal with
  | H : (_ <= String.length ?s <= _)%nat |- _ =>
      is_var s; destruct s; simpl in H; try (exfalso; lia)
  | H : (_ <= S _ <= _)%nat |- _ =>
      lazymatch type of H with
      | context [String.length ?s] => is_var s; destruct s; simpl in H; try (exfalso; lia)
      end
  | H : (_ <= _ <= _)%nat |- _ => clear H
  end.

Ltac class_facts :=
  repeat match goal with
  | H : all_chars _ _ = true |- _ => simpl in H
  | H : _ && _ = true |- _ => apply andb_true_iff in H as [? ?]
  | H : true = true |- _ => clear H
  end;
  repeat match goal with
  | H : Str.is_digit ?c = true |- _ =>
      let K := fresh in pose proof (digit_facts c H) as K; revert H;
      destruct K as (? & ? & ? & ?)
  | H : is_whitespace ?c = true |- _ =>
      let K := fresh in pose proof (whitespace_facts c H) as K; revert H;
      destruct K as (? & ? & ? & ? & ?)
  end; intros.

Ltac norm_append :=
  repeat first [rewrite append_cons | rewrite append_nil_l | rewrite append_nil_r].

Ltac concrete_tests :=
  repeat match goal with
  | |- context [Str.is_digit (Ascii ?a ?b ?c ?d ?e ?f ?g ?h)] =>
      let t := constr:(Str.is_digit (Ascii a b c d e f g h)) in
      let v := eval vm_compute in t in change t with v
  | |- context [is_whitespace (Ascii ?a ?b ?c ?d ?e ?f ?g ?h)] =>
      let t := constr:(is_whitespace (Ascii a b c d e f g h)) in
      let v := eval vm_compute in t in change t with v
  | |- context [Ascii.eqb (Ascii ?a ?b ?c ?d ?e ?f ?g ?h) (Ascii ?a' ?b' ?c' ?d' ?e' ?f' ?g' ?h')] =>
      let t := constr:(Ascii.eqb (Ascii a b c d e f g h) (Ascii a' b' c' d' e' f' g' h')) in
      let v := eval vm_compute in t in change t with v
  end.

Ltac rx_eval :=
  repeat (progress (cbn [run repeat_from flat_map app fst snd Nat.pred
                         grouped_number cat opt times lit digit space];
                    norm_append;
                    concrete_tests;
                    repeat match goal with
                    | H : _ = _ |- _ => rewrite !H
                    end)).

(** A string of one of the patterns for mobile numbers holds a string of the
    first pattern. *)
Lemma mobile_in_grouped g :
  denotes mobile_number g \/ denotes mobile_number_unspaced g ->
  found_in (grouped_number 4 3 3) g.
Proof.
  unfold mobile_number, mobile_number_unspaced. cbn [cat opt times lit digit space].
  intros [M|M]; invert_denotes; spell_out; class_facts;
    norm_append.
  all: first
    [ match goal with
      | |- found_in _ (String "+" ?t) => exists EmptyString, (String "+" t), EmptyString
      | |- found_in _ (String "0" ?t) => exists EmptyString, (String "0" t), EmptyString
      end
    | match goal with
      | |- found_in _ (String ?c ?t) => exists (String c EmptyString), t, EmptyString
      end ].
  all: norm_append; (split; [reflexivity|]).
  all: match goal with
       | |- denotes _ ?s =>
           match s with
           | context [String ?c EmptyString] => apply (run_whole _ None (Some c))
           end
       end.
  all: rx_eval; left; reflexivity.
Qed.

(** The two patterns for mobile numbers never decide. *)
Lemma first_match_deciding text :
  first_match phone_patterns text = first_match deciding_patterns text.
Proof.
  unfold phone_patterns, deciding_patterns. cbn [first_match].
  destruct (find (grouped_number 4 3 3) text) as [g|] eqn:F1; [reflexivity|].
  destruct (find (grouped_number 3 3 4) text) as [g|]; [reflexivity|].
  destruct (find (grouped_number 2 4 4) text) as [g|]; [reflexivity|].
  assert (D : forall r g, find r text = Some g ->
                denotes mobile_number g \/ denotes mobile_number_unspaced g -> False).
  { intros r g F M. apply mobile_in_grouped in M.
    apply find_from_some in F as (before & after & E & _).
    apply (found_in_find (grouped_number 4 3 3) text eq_refl) with (prev := None) in F1;
      [exact F1|].
    rewrite E. apply found_in_context, M. }
  destruct (find mobile_number text) as [g|] eqn:F4.
  { exfalso. apply (D _ g F4). left.
    apply find_from_some in F4 as (? & ? & _ & M & _). exact M. }
  destruct (find mobile_number_unspaced text) as [g|] eqn:F5.
  { exfalso. apply (D _ g F5). right.
    apply find_from_some in F5 as (? & ? & _ & M & _). exact M. }
  reflexivity.
Qed.

End DeadPatterns.

(** X18: the two patterns for mobile numbers, the fourth and the fifth of the
    list, never decide what [extract_phone_number] returns: every text in which
    one of them has a match is a text in which the first pattern has one, so
    the answer is that of the four other patterns. *)
Theorem mobile_patterns_never_decide (text : string) :
  extract_phone_number text
  = if String.eqb text EmptyString then None else first_match deciding_patterns text.
Proof.
  unfold extract_phone_number. rewrite DeadPatterns.first_match_deciding. reflexivity.
Qed.

(** X19: a number that [extract_phone_number] returns stands in the text; it
    has 10 to 12 digits and apart from them only whitespace, [+] and
    parentheses; it begins with a digit, [+] or [(] and ends with a digit. *)
Theorem extract_phone_number_form (text g : string) :
  extract_phone_number text = Some g ->
  (exists before after, text = before +:+ g +:+ after)
  /\ all_chars phone_char g = true
  /\ (10 <= digits g <= 12)%nat
  /\ begins_with phone_start g = true
  /\ ends_with Str.is_digit g = true.
Proof.
  unfold extract_phone_number. destruct (String.eqb text EmptyString); [discriminate|].
  rewrite DeadPatterns.first_match_deciding. intros H.
  apply PhoneFacts.first_match_some in H as (p & I & F).
  apply RxFacts.find_from_some in F as (before & after & E & M & _).
  split; [exists before, after; exact E|].
  assert (P : classes_within phone_char p = true
              /\ (10 <= fst (digit_bounds p))%nat /\ (snd (digit_bounds p) <= 12)%nat
              /\ first_within phone_start p = true /\ last_within Str.is_digit p = true
              /\ nullable p = false).
  { unfold deciding_patterns in I. cbn [In] in I.
    destruct I as [<-| [<-| [<-| [<-|[]]]]]; vm_compute; repeat split; lia. }
  destruct P as (C & B1 & B2 & Fi & La & Nu).
  pose proof (PhoneFacts.denotes_digit_bounds p g M) as B.
  assert (Ne : g <> EmptyString).
  { intros ->. rewrite (PhoneFacts.denotes_nullable p EmptyString M eq_refl) in Nu.
    discriminate Nu. }
  split; [exact (PhoneFacts.denotes_classes_within _ _ _ M C)|].
  split; [lia|]. split.
  - destruct (PhoneFacts.denotes_first_within _ _ _ M Fi) as [?|?]; [congruence|assumption].
  - destruct (PhoneFacts.denotes_last_within _ _ _ M La) as [?|?]; [congruence|assumption].
Qed.

Definition tab_text : string := "tel: (01234)" +:+ String (ascii_of_nat 9) "567890 ext 2".
Definition tab_number : string := "(01234)" +:+ String (ascii_of_nat 9) "567890".

Lemma extract_phone_number_form_witness :
  extract_phone_number tab_text = Some tab_number
  /\ (10 <= digits tab_number <= 12)%nat.
Proof.
  split; [vm_compute; reflexivity|].
  apply (extract_phone_number_form tab_text tab_number). vm_compute. reflexivity.
Defined.
